(** * AsyncPP: weight-stashing optimizer wrapper and hand-off queue

    A shallow embedding of [optim/optimizer.py] and
    [runtime/threadsafe_queue.py], with the properties of the design
    document stated over it.

    Python integers are [Z]; dictionaries are [gmap string _]; objects that
    the code mutates through several references (the state dictionaries
    held by the snapshot ring) live in an explicit heap; exceptions are the
    [Raise] results of a state-and-error monad. *)

From stdpp Require Import gmap strings list fin_maps.
From Stdlib Require Import ZArith Lia.

(** ** Exceptions and the state-and-error monad *)

Inductive exn :=
| KeyError | IndexError | ValueError | ZeroDivisionError
| RuntimeError | AttributeError | FileNotFoundError | TypeError.

Inductive result (A : Type) :=
| Ok (a : A)
| Raise (e : exn).
Arguments Ok {A} a.
Arguments Raise {A} e.

Definition is_ok {A} (r : result A) : Prop := ∃ a, r = Ok a.
Definition is_ok_b {A} (r : result A) : bool :=
  match r with Ok _ => true | Raise _ => false end.

Definition M (S A : Type) : Type := S → result (A * S).

Definition ret {S A} (a : A) : M S A := λ s, Ok (a, s).
Definition raise {S A} (e : exn) : M S A := λ _, Raise e.
Definition bind {S A B} (m : M S A) (f : A → M S B) : M S B :=
  λ s, match m s with
       | Ok (a, s') => f a s'
       | Raise e => Raise e
       end.
Definition get {S} : M S S := λ s, Ok (s, s).
Definition modify {S} (f : S → S) : M S unit := λ s, Ok (tt, f s).
Definition lift {S A} (r : result A) : M S A :=
  λ s, match r with Ok a => Ok (a, s) | Raise e => Raise e end.

Notation "'do' x <- m ; k" := (bind m (λ x, k))
  (at level 10, x name, m at level 100, k at level 200).
Notation "'do' ' p <- m ; k" := (bind m (λ x, match x with p => k end))
  (at level 10, p pattern, m at level 100, k at level 200).
Notation "m ;; k" := (bind m (λ _, k))
  (at level 100, k at level 200, right associativity).

(** [for x in xs: body x] *)
Fixpoint for_each {S A} (xs : list A) (body : A → M S unit) : M S unit :=
  match xs with
  | [] => ret tt
  | x :: xs' => body x ;; for_each xs' body
  end.

(** [for _ in range(n): body] *)
Fixpoint repeatM {S} (n : nat) (body : M S unit) : M S unit :=
  match n with
  | O => ret tt
  | S n' => body ;; repeatM n' body
  end.

(** [for key in d: acc = body key d[key] acc], with exceptions.  The keys of
    a [gmap] are visited in the map's own order, not in Python's insertion
    order; every loop of the source treats the keys independently, so only
    the choice of the first exception raised could differ. *)
Definition map_foldM {A B} (body : string → A → B → result B) (b : B)
    (m : gmap string A) : result B :=
  map_fold (λ k a acc, match acc with Ok b' => body k a b' | Raise e => Raise e end)
           (Ok b) m.

(** A loop that rebinds (or rewrites in place) every entry of the dictionary it
    iterates over. *)
Definition map_mapM {A B} (f : string → A → result B) (m : gmap string A)
    : result (gmap string B) :=
  map_foldM (λ k a acc, match f k a with
                        | Ok b => Ok (<[k := b]> acc)
                        | Raise e => Raise e
                        end) ∅ m.

(** Python's [a % b] on integers: the sign follows the divisor, as for
    [Z.modulo]; a zero divisor raises. *)
Definition py_mod (a b : Z) : result Z :=
  if decide (b = 0)%Z then Raise ZeroDivisionError else Ok (a `mod` b)%Z.

(** Python's [seq[i]] with a possibly negative index. *)
Definition py_index {A} (l : list A) (i : Z) : result A :=
  let n := Z.of_nat (length l) in
  let j := if decide (i < 0)%Z then (i + n)%Z else i in
  if decide (0 ≤ j < n)%Z then
    match l !! Z.to_nat j with Some x => Ok x | None => Raise IndexError end
  else Raise IndexError.

(** Python's [seq[i] = x] with a possibly negative index. *)
Definition py_setitem {A} (l : list A) (i : Z) (x : A) : result (list A) :=
  let n := Z.of_nat (length l) in
  let j := if decide (i < 0)%Z then (i + n)%Z else i in
  if decide (0 ≤ j < n)%Z then Ok (<[Z.to_nat j := x]> l) else Raise IndexError.

(** [sub in s] on strings. *)
Definition str_in (sub s : string) : bool :=
  match String.index 0 sub s with Some _ => true | None => false end.

(** ** [collections.deque] with a [maxlen] *)

Record deque (A : Type) := Deque { maxlen : nat; items : list A }.
Arguments Deque {A} maxlen items.
Arguments maxlen {A} d.
Arguments items {A} d.

(** [deque(maxlen=n)]: a negative bound raises [ValueError]. *)
Definition deque_new {A} (n : Z) : result (deque A) :=
  if decide (n < 0)%Z then Raise ValueError else Ok (Deque (Z.to_nat n) []).

(** [d.append(x)]: when the deque is full the leftmost item is discarded; a
    deque of bound zero stays empty. *)
Definition deque_append {A} (d : deque A) (x : A) : deque A :=
  if decide (maxlen d = 0) then d
  else if decide (length (items d) = maxlen d)
       then Deque (maxlen d) (tail (items d) ++ [x])
       else Deque (maxlen d) (items d ++ [x]).

(** ** [class Version] *)

Record Version := mkVersion { version : Z }.

Definition Version_new : Version := mkVersion 0.
Definition incr (v : Version) : Version := mkVersion (version v + 1).

Global Instance Version_eq_dec : EqDecision Version.
Proof. solve_decision. Defined.

(** ** The collaborators

    The tensor library, the wrapped update algorithm and the mixed-precision
    hooks are used through a fixed interface and are otherwise opaque; what
    they raise is passed on by the code that calls them. *)

(** Identity of a parameter object ([torch.nn.Parameter]). *)
Abbreviation pid := nat.

(** The [master_parameters] argument, as [torch.optim] accepts it: a list of
    parameters, or a list of parameter-group dictionaries. *)
Inductive params_arg :=
| ParamList (ps : list pid)
| ParamGroups (gs : list (list pid)).

Definition params_len (a : params_arg) : nat :=
  match a with ParamList ps => length ps | ParamGroups gs => length gs end.

Inductive device := CPU | CUDA.

Class TensorLib := {
  (** contents of a tensor (shape, dtype and elements) *)
  Data : Type;
  Shape : Type;
  Shape_eq_dec :: EqDecision Shape;
  shape : Data → Shape;
  (** [dst.copy_(src)]: the new contents of [dst], or [None] when the shapes
      cannot be broadcast *)
  copy_data : Data → Data → option Data;
  copy_data_same_shape : ∀ d s, shape d = shape s → copy_data d s = Some s;
  (** [g.div_(n)] for a Python integer [n] *)
  div_int : Data → Z → Data;
  (** the loss-scale factor, [scale != 1.0] and [g / scale] *)
  Scale : Type;
  scale_is_one : Scale → bool;
  div_scale : Data → Scale → Data;
  (** [Optimizer.zero_grad] on one gradient: [None] when gradients are set to
      none, the zero tensor otherwise *)
  clear_grad : Data → option Data;
}.

(** *** Tensors *)

Record tensor `{TensorLib} := Tensor { t_device : device; t_data : Data }.

(** A state dictionary, [module.state_dict()]. *)
Abbreviation state_dict := (gmap string tensor).

(** The calls into torch and apex.  Each of them may raise, and [step]
    lets the exception through: the wrapped [step()], for one, is called
    without the closure that [step] was given, which an algorithm such as
    LBFGS requires. *)
Class Collaborators `{TensorLib} := {
  (** [torch.nn.utils.clip_grad_norm_(params, max_norm)], acting on the
      gradients of [params]; over no parameters it returns (the norm of no
      gradients is 0) *)
  Clip : Type;
  clip_grad_norm_ : list pid → Clip → gmap pid Data → result (gmap pid Data);
  clip_grad_norm_nil : ∀ c g, ∃ g', clip_grad_norm_ [] c g = Ok g';
  (** the wrapped update algorithm: its private state, its constructor
      [getattr(torch.optim, optim_name)(params, **optimizer_args)] and one
      [step()], which reads the gradients and updates the live modules *)
  OptState : Type;
  OptArgs : Type;
  Loss : Type;
  optim_new : string → params_arg → OptArgs → result OptState;
  optim_step : OptState → list (list pid) → gmap pid Data → list state_dict →
               result (OptState * list state_dict * option Loss);
  (** [apex.fp16_utils] *)
  model_grads_to_master_grads :
    list pid → params_arg → gmap pid Data → result (gmap pid Data);
  master_params_to_model_params :
    list pid → params_arg → list state_dict → result (list state_dict);
}.

(** A reference to a state-dictionary object in the heap. *)
Abbreviation ref := nat.

Section Optimizer.
Context `{Collaborators}.
Local Open Scope string_scope.

Definition clone (t : tensor) : tensor := t.
Definition cpu (t : tensor) : tensor := Tensor _ CPU (t_data t).
Definition cuda (t : tensor) : tensor := Tensor _ CUDA (t_data t).

(** [dst.copy_(src)] keeps the device of [dst]. *)
Definition copy_ (dst src : tensor) : result tensor :=
  match copy_data (t_data dst) (t_data src) with
  | Some d => Ok (Tensor _ (t_device dst) d)
  | None => Raise RuntimeError
  end.

(** [module.load_state_dict(sd)] (strict): missing or unexpected keys and
    shape mismatches raise; otherwise every field is overwritten in place. *)
Definition load_state_dict (module sd : state_dict) : result state_dict :=
  if decide (dom sd = dom module) then
    map_mapM (λ key param,
      match sd !! key with
      | None => Raise RuntimeError
      | Some input =>
          if decide (shape (t_data input) = shape (t_data param))
          then copy_ param input
          else Raise RuntimeError
      end) module
  else Raise RuntimeError.

(** *** The optimizer object and the objects it refers to *)

Inductive event :=
| EvPrint (s : string)        (** [print(s)] *)
| EvPrintTiming               (** [print("Optimizer step took: ...")] *)
| EvGradsToMaster             (** [fp16_utils.model_grads_to_master_grads] *)
| EvClipGrad                  (** [clip_grad_norm_] *)
| EvStep                      (** [base_optimizer.step()] *)
| EvMasterToModel             (** [fp16_utils.master_params_to_model_params] *)
| EvZeroGrad.                 (** [base_optimizer.zero_grad()] *)

Global Instance event_eq_dec : EqDecision event.
Proof. solve_decision. Defined.

(** An element of [self.queue]: the tuple [(state_dicts, version)], or the
    name of the file that holds it (the file [version_k.pth.tar] of
    [save_dir] is identified by [k]). *)
Inductive queue_item :=
| InMemory (state_dicts : list ref) (v : Version)
| OnDisk (fname : Z).

Record base_opt := BaseOpt {
  param_groups : list (list pid);
  opt_state : OptState;
}.

Record optimizer := Optimizer {
  master_parameters : params_arg;
  model_parameters : option (list pid);
  loss_scale : Scale;
  clip_grad : option Clip;
  save_dir : option string;
  stash_to_cpu : bool;
  num_versions : Z;
  base_optimizer : option base_opt;
  latest_version : Version;
  current_version : Version;
  queue : deque queue_item;
  buffered_state_dicts : list ref;
  verbose_freq : Z;
  batch_counter : Z;
  update_interval : Z;
}.

Record world := World {
  (** the live modules [self.modules] refers to *)
  modules : list state_dict;
  (** [p.grad] of every parameter; absent when [p.grad is None] *)
  grads : gmap pid Data;
  (** the state-dictionary objects of the snapshots *)
  heap : list state_dict;
  (** the files of [save_dir], as written by [torch.save] *)
  files : gmap Z (list state_dict * Version);
  (** calls to the collaborators and output, oldest first *)
  log : list event;
}.

(** Field updates. *)
Definition with_base_optimizer (b : option base_opt) (o : optimizer) :=
  Optimizer (master_parameters o) (model_parameters o) (loss_scale o)
    (clip_grad o) (save_dir o) (stash_to_cpu o) (num_versions o) b
    (latest_version o) (current_version o) (queue o) (buffered_state_dicts o)
    (verbose_freq o) (batch_counter o) (update_interval o).
Definition with_latest_version (v : Version) (o : optimizer) :=
  Optimizer (master_parameters o) (model_parameters o) (loss_scale o)
    (clip_grad o) (save_dir o) (stash_to_cpu o) (num_versions o)
    (base_optimizer o) v (current_version o) (queue o)
    (buffered_state_dicts o) (verbose_freq o) (batch_counter o)
    (update_interval o).
Definition with_current_version (v : Version) (o : optimizer) :=
  Optimizer (master_parameters o) (model_parameters o) (loss_scale o)
    (clip_grad o) (save_dir o) (stash_to_cpu o) (num_versions o)
    (base_optimizer o) (latest_version o) v (queue o)
    (buffered_state_dicts o) (verbose_freq o) (batch_counter o)
    (update_interval o).
Definition with_queue (q : deque queue_item) (o : optimizer) :=
  Optimizer (master_parameters o) (model_parameters o) (loss_scale o)
    (clip_grad o) (save_dir o) (stash_to_cpu o) (num_versions o)
    (base_optimizer o) (latest_version o) (current_version o) q
    (buffered_state_dicts o) (verbose_freq o) (batch_counter o)
    (update_interval o).
Definition with_buffered_state_dicts (b : list ref) (o : optimizer) :=
  Optimizer (master_parameters o) (model_parameters o) (loss_scale o)
    (clip_grad o) (save_dir o) (stash_to_cpu o) (num_versions o)
    (base_optimizer o) (latest_version o) (current_version o) (queue o) b
    (verbose_freq o) (batch_counter o) (update_interval o).
Definition with_batch_counter (c : Z) (o : optimizer) :=
  Optimizer (master_parameters o) (model_parameters o) (loss_scale o)
    (clip_grad o) (save_dir o) (stash_to_cpu o) (num_versions o)
    (base_optimizer o) (latest_version o) (current_version o) (queue o)
    (buffered_state_dicts o) (verbose_freq o) c (update_interval o).

Definition with_modules (ms : list state_dict) (w : world) :=
  World ms (grads w) (heap w) (files w) (log w).
Definition with_grads (g : gmap pid Data) (w : world) :=
  World (modules w) g (heap w) (files w) (log w).
Definition with_heap (h : list state_dict) (w : world) :=
  World (modules w) (grads w) h (files w) (log w).
Definition with_files (f : gmap Z (list state_dict * Version)) (w : world) :=
  World (modules w) (grads w) (heap w) f (log w).
Definition with_log (l : list event) (w : world) :=
  World (modules w) (grads w) (heap w) (files w) l.

(** A method of the optimizer: a computation on the object and on the
    objects it refers to. *)
Abbreviation Op := (M (optimizer * world)).

Definition self : Op optimizer := λ s, Ok (s.1, s).
Definition the_world : Op world := λ s, Ok (s.2, s).
Definition set_self (f : optimizer → optimizer) : Op unit :=
  modify (λ s, (f s.1, s.2)).
Definition set_world (f : world → world) : Op unit :=
  modify (λ s, (s.1, f s.2)).
Definition emit (e : event) : Op unit :=
  set_world (λ w, with_log (log w ++ [e]) w).

(** Creating a dictionary object, reading it and writing it back. *)
Definition alloc (d : state_dict) : Op ref :=
  do w <- the_world;
  set_world (with_heap (heap w ++ [d])) ;;
  ret (length (heap w)).

Fixpoint alloc_all (ds : list state_dict) : Op (list ref) :=
  match ds with
  | [] => ret []
  | d :: ds' => do r <- alloc d; do rs <- alloc_all ds'; ret (r :: rs)
  end.

Definition deref (r : ref) : Op state_dict :=
  do w <- the_world;
  match heap w !! r with
  | Some d => ret d
  | None => raise RuntimeError
  end.

Fixpoint deref_all (rs : list ref) : Op (list state_dict) :=
  match rs with
  | [] => ret []
  | r :: rs' => do d <- deref r; do ds <- deref_all rs'; ret (d :: ds)
  end.

Definition store (r : ref) (d : state_dict) : Op unit :=
  set_world (λ w, with_heap (<[r := d]> (heap w)) w).

(** *** [class OptimizerWithWeightStashing] *)

(** [__getattr__("param_groups")]: relayed to the base optimizer; with an
    empty parameter list, one group without parameters. *)
Definition getattr_param_groups (o : optimizer) : list (list pid) :=
  match base_optimizer o with
  | None => [[]]
  | Some b => param_groups b
  end.

Definition append_to_queue (data : list ref * Version) : Op unit :=
  let '(state_dicts, v) := data in
  do o <- self;
  match save_dir o with
  | Some _ =>
      (* only the file name is kept in memory *)
      do fname <- lift (py_mod (version v) (num_versions o));
      do d <- deref_all state_dicts;
      set_world (λ w, with_files (<[fname := (d, v)]> (files w)) w) ;;
      set_self (λ o, with_queue (deque_append (queue o) (OnDisk fname)) o)
  | None =>
      set_self (λ o, with_queue
        (deque_append (queue o) (InMemory state_dicts v)) o)
  end.

(** [torch.load] builds new dictionary objects; the in-memory branch returns
    the very objects the queue holds.  A queue item of the other kind than
    [save_dir] selects cannot occur, [save_dir] being fixed. *)
Definition get_from_queue (index : Z) : Op (list ref * Version) :=
  do o <- self;
  do item <- lift (py_index (items (queue o)) index);
  match save_dir o, item with
  | Some _, OnDisk fname =>
      do w <- the_world;
      match files w !! fname with
      | Some (d, v) => do state_dicts <- alloc_all d; ret (state_dicts, v)
      | None => raise FileNotFoundError
      end
  | None, InMemory state_dicts v => ret (state_dicts, v)
  | _, _ => raise RuntimeError
  end.

(** [insert_to_queue]: replaces the data at [index] with the new data.  The
    file is named after the index itself, [version_{index}.pth.tar]. *)
Definition insert_to_queue (data : list ref * Version) (index : Z) : Op unit :=
  let '(state_dicts, v) := data in
  do o <- self;
  match save_dir o with
  | Some _ =>
      do d <- deref_all state_dicts;
      set_world (λ w, with_files (<[index := (d, v)]> (files w)) w) ;;
      do l <- lift (py_setitem (items (queue o)) index (OnDisk index));
      set_self (λ o, with_queue (Deque (maxlen (queue o)) l) o)
  | None =>
      do l <- lift (py_setitem (items (queue o)) index
                      (InMemory state_dicts v));
      set_self (λ o, with_queue (Deque (maxlen (queue o)) l) o)
  end.

(** One key of the [clone=False] loop of [get_params], for module [i]. *)
Definition get_params_key (o : optimizer) (i : nat) (key : string)
    (src : tensor) (h : list state_dict) : result (list state_dict) :=
  (* running_mean and running_var should accumulate normally *)
  if str_in "running_" key then Ok h
  else
    match buffered_state_dicts o !! i with
    | None => Raise IndexError
    | Some r =>
        match h !! r with
        | None => Raise RuntimeError
        | Some buffered =>
            if str_in "mask" key then
              Ok (<[r := <[key := if stash_to_cpu o then cpu (clone src)
                                  else clone src]> buffered]> h)
            else
              match buffered !! key with
              | None => Raise KeyError
              | Some dst =>
                  match copy_ dst (if stash_to_cpu o then cpu src else src) with
                  | Ok dst' => Ok (<[r := <[key := dst']> buffered]> h)
                  | Raise e => Raise e
                  end
              end
        end
    end.

Definition get_params (clone_arg : bool) : Op (list ref * Version) :=
  do o <- self;
  do w <- the_world;
  do state_dicts <-
    (if clone_arg then
       alloc_all ((λ module : state_dict,
                     (λ t, if stash_to_cpu o then cpu (clone t) else clone t)
                       <$> module) <$> modules w)
     else
       for_each (imap (λ i module, (i, module)) (modules w))
         (λ '(i, module),
            do w <- the_world;
            do h <- lift (map_foldM (get_params_key o i) (heap w) module);
            set_world (with_heap h)) ;;
       ret (buffered_state_dicts o));
  ret (state_dicts, latest_version o).

Definition initialize_queue : Op unit :=
  do o <- self;
  do q <- lift (deque_new (num_versions o));
  set_self (with_queue q) ;;
  repeatM (Z.to_nat (num_versions o))
    (do d <- get_params true; append_to_queue d) ;;
  do '(state_dicts, _) <- get_from_queue 0;
  set_self (with_buffered_state_dicts state_dicts).

(** One key of the first loop of [set_params]: the new binding of
    [state_dict[key]], [old] being the current one. *)
Definition set_params_key (o : optimizer) (cur_state_dict : state_dict)
    (key : string) (old : tensor) : result tensor :=
  (* Don't update running_mean and running_var; mask might have a different
     shape, so don't copy it to the module this way. *)
  if str_in "running_" key || str_in "mask" key then
    match cur_state_dict !! key with
    | None => Raise KeyError
    | Some t => Ok (if stash_to_cpu o then cuda t else t)
    end
  else Ok old.

(** The body of the loop of [set_params] for the pair
    [(state_dict, module)], the dictionary being object [r] and the module
    the [i]-th one. *)
Definition set_params_module (o : optimizer) (r : ref) (i : nat) : Op unit :=
  do w <- the_world;
  match modules w !! i with
  | None => ret tt
  | Some cur_state_dict =>
      do sd <- deref r;
      do sd' <- lift (map_mapM (set_params_key o cur_state_dict) sd);
      store r sd' ;;
      do module' <- lift (load_state_dict cur_state_dict sd');
      set_world (λ w, with_modules (<[i := module']> (modules w)) w) ;;
      (* "Load the mask": the loop only rebinds the local [attribute] *)
      lift (map_foldM (λ key t _,
        if str_in "mask" key then
          let attribute := if stash_to_cpu o then cuda t else t in Ok tt
        else Ok tt) tt sd')
  end.

Definition set_params (state_dicts : list ref) (v : Version) : Op unit :=
  do o <- self;
  do w <- the_world;
  for_each (zip state_dicts (seq 0 (length (modules w))))
    (λ '(r, i), set_params_module o r i) ;;
  set_self (with_current_version v).

Definition load_old_params : Op unit :=
  do o <- self;
  if decide (1 < num_versions o)%Z then
    do '(state_dicts, v) <- get_from_queue 0; set_params state_dicts v
  else ret tt.

Definition load_new_params : Op unit :=
  do o <- self;
  if decide (1 < num_versions o)%Z then
    do '(state_dicts, v) <- get_from_queue (-1); set_params state_dicts v
  else ret tt.

(** [base_optimizer.zero_grad()]: every gradient of every group is cleared. *)
Definition zero_grads (groups : list (list pid)) (g : gmap pid Data)
    : gmap pid Data :=
  foldl (λ g p, match g !! p with
                | None => g
                | Some d => match clear_grad d with
                            | Some z => <[p := z]> g
                            | None => delete p g
                            end
                end) g (concat groups).

Definition zero_grad : Op unit :=
  do o <- self;
  match base_optimizer o with
  | None => ret tt
  | Some b =>
      do r <- lift (py_mod (batch_counter o) (update_interval o));
      if decide (r = 0)%Z then
        emit EvZeroGrad ;;
        set_world (λ w, with_grads (zero_grads (param_groups b) (grads w)) w)
      else ret tt
  end.

(** [parameter.grad.data = parameter.grad.data / self.loss_scale] *)
Definition unscale_grad (o : optimizer) (p : pid) : Op unit :=
  do w <- the_world;
  match grads w !! p with
  | None => raise AttributeError
  | Some g => set_world (with_grads (<[p := div_scale g (loss_scale o)]> (grads w)))
  end.

(** [if p.grad is not None: p.grad.div_(self.update_interval)] *)
Definition average_grad (o : optimizer) (p : pid) : Op unit :=
  do w <- the_world;
  match grads w !! p with
  | None => ret tt
  | Some g =>
      set_world (with_grads (<[p := div_int g (update_interval o)]> (grads w)))
  end.

Definition step : Op (option Loss) :=
  do o <- self;
  (* Update the gradient every [update_interval] steps. *)
  do r <- lift (py_mod (batch_counter o) (update_interval o));
  if decide (r ≠ update_interval o - 1)%Z then
    set_self (with_batch_counter (batch_counter o + 1)) ;;
    ret None
  else
    do log_timing <-
      (if decide (0 < verbose_freq o)%Z then
         do r' <- lift (py_mod (batch_counter o) (verbose_freq o));
         ret (bool_decide (r' = 0%Z))
       else ret false);
    match model_parameters o with
    | Some mp =>
        emit EvGradsToMaster ;;
        do w <- the_world;
        do g <- lift (model_grads_to_master_grads mp (master_parameters o)
                        (grads w));
        set_world (with_grads g) ;;
        if scale_is_one (loss_scale o) then ret tt
        else
          match master_parameters o with
          | ParamList ps => for_each ps (unscale_grad o)
          | ParamGroups [] => ret tt
          | ParamGroups (_ :: _) => raise AttributeError
          end
    | None => ret tt
    end ;;
    do group0 <- lift (py_index (getattr_param_groups o) 0);
    for_each group0 (average_grad o) ;;
    (* clip gradient norm *)
    match clip_grad o with
    | Some c =>
        emit EvClipGrad ;;
        do w <- the_world;
        do g <- lift (clip_grad_norm_ group0 c (grads w));
        set_world (with_grads g)
    | None => ret tt
    end ;;
    do loss <-
      match base_optimizer o with
      | Some b =>
          emit EvStep ;;
          do w <- the_world;
          do '(st, ms, loss) <-
            lift (optim_step (opt_state b) (param_groups b) (grads w)
                    (modules w));
          set_world (with_modules ms) ;;
          set_self (with_base_optimizer (Some (BaseOpt (param_groups b) st))) ;;
          ret loss
      | None => ret None
      end;
    match model_parameters o with
    | Some mp =>
        emit EvMasterToModel ;;
        do w <- the_world;
        do ms <- lift (master_params_to_model_params mp (master_parameters o)
                         (modules w));
        set_world (with_modules ms)
    | None => ret tt
    end ;;
    set_self (λ o, with_latest_version (incr (latest_version o)) o) ;;
    (if decide (1 < num_versions o)%Z then
       do '(state_dicts, _) <- get_from_queue 0;
       set_self (with_buffered_state_dicts state_dicts) ;;
       do d <- get_params false;
       append_to_queue d
     else ret tt) ;;
    (if log_timing then emit EvPrintTiming else ret tt) ;;
    set_self (λ o, with_batch_counter (batch_counter o + 1) o) ;;
    ret loss.

(** [__init__]: the live modules are those of the world [w]. *)
Definition init (optim_name : string) (master_parameters : params_arg)
    (model_parameters : option (list pid)) (loss_scale : Scale)
    (num_versions : Z) (verbose_freq : Z) (macrobatch : bool)
    (clip_grad : option Clip) (save_dir : option string) (stash_to_cpu : bool)
    (optimizer_args : OptArgs) (w : world) : result (optimizer * world) :=
  (* Only need at most 2 versions if using macrobatching. *)
  let num_versions := if macrobatch then Z.min 2 num_versions else num_versions in
  let construct : Op unit :=
    (if decide (params_len master_parameters = 0) then
       emit (EvPrint "Warning: no parameter groups to optimize")
     else
       do st <- lift (optim_new optim_name master_parameters optimizer_args);
       set_self (with_base_optimizer (Some (BaseOpt
         (match master_parameters with
          | ParamList ps => [ps]
          | ParamGroups gs => gs
          end) st)))) ;;
    initialize_queue in
  match construct
          (Optimizer master_parameters model_parameters loss_scale clip_grad
             save_dir stash_to_cpu num_versions None Version_new Version_new
             (Deque 0 []) [] verbose_freq 0
             (* If macrobatching, push and pop versions at the right rate. *)
             (if macrobatch then num_versions else 1), w) with
  | Ok (_, s) => Ok s
  | Raise e => Raise e
  end.

(** *** Specification-side definitions

    What the properties below are stated with: the effect of the loops of
    [step], the version tags of the ring, the calls a client makes. *)

Implicit Types (o : optimizer) (w : world) (s : optimizer * world).

(** [self.update_interval = u], assigned from outside the class. *)
Definition with_update_interval (u : Z) (o : optimizer) :=
  Optimizer (master_parameters o) (model_parameters o) (loss_scale o)
    (clip_grad o) (save_dir o) (stash_to_cpu o) (num_versions o)
    (base_optimizer o) (latest_version o) (current_version o) (queue o)
    (buffered_state_dicts o) (verbose_freq o) (batch_counter o) u.

(** The gradients after the loop [for p in group: p.grad.div_(u)]. *)
Definition average_grads (u : Z) (group : list pid) (g : gmap pid Data)
    : gmap pid Data :=
  foldl (λ g p, match g !! p with
                | Some d => <[p := div_int d u]> g
                | None => g
                end) g group.

(** The gradients after the loop
    [for p in ps: p.grad.data = p.grad.data / scale], every [p] having a
    gradient. *)
Definition unscale_grads (scale : Scale) (ps : list pid) (g : gmap pid Data)
    : gmap pid Data :=
  foldl (λ g p, match g !! p with
                | Some d => <[p := div_scale d scale]> g
                | None => g
                end) g ps.

(** The gradients after the division by the loss scale, where [step] makes
    one: [g] are the gradients the mixed-precision hook has left. *)
Definition unscaled o (g : gmap pid Data) : gmap pid Data :=
  if scale_is_one (loss_scale o) then g
  else match master_parameters o with
       | ParamList ps => unscale_grads (loss_scale o) ps g
       | ParamGroups _ => g
       end.

(** The gradients after the optional clipping. *)
Definition clipped o (group : list pid) (g : gmap pid Data)
    : result (gmap pid Data) :=
  match clip_grad o with
  | Some c => clip_grad_norm_ group c g
  | None => Ok g
  end.

(** The live modules after the optional master-to-model copy. *)
Definition synced o (ms : list state_dict) : result (list state_dict) :=
  match model_parameters o with
  | Some mp => master_params_to_model_params mp (master_parameters o) ms
  | None => Ok ms
  end.

(** The calls a real update makes, in order. *)
Definition update_events o : list event :=
  match model_parameters o with Some _ => [EvGradsToMaster] | None => [] end ++
  match clip_grad o with Some _ => [EvClipGrad] | None => [] end ++
  match base_optimizer o with Some _ => [EvStep] | None => [] end ++
  match model_parameters o with Some _ => [EvMasterToModel] | None => [] end ++
  (if decide (0 < verbose_freq o ∧
              batch_counter o `mod` verbose_freq o = 0)%Z
   then [EvPrintTiming] else []).

(** The fields that no method assigns after construction. *)
Definition same_config o o' : Prop :=
  master_parameters o' = master_parameters o ∧
  model_parameters o' = model_parameters o ∧
  loss_scale o' = loss_scale o ∧ clip_grad o' = clip_grad o ∧
  save_dir o' = save_dir o ∧ stash_to_cpu o' = stash_to_cpu o ∧
  num_versions o' = num_versions o ∧ verbose_freq o' = verbose_freq o ∧
  update_interval o' = update_interval o.

(** The ring after the snapshot tagged [v] has been pushed. *)
Definition rotated o (fs : gmap Z (list state_dict * Version)) (v : Version)
    (q' : deque queue_item) (buf' : list ref)
    (fs' : gmap Z (list state_dict * Version)) : Prop :=
  ∃ item, q' = deque_append (queue o) item ∧
    match save_dir o with
    | None =>
        item = InMemory buf' v ∧ fs' = fs ∧
        ∃ v0, py_index (items (queue o)) 0 = Ok (InMemory buf' v0)
    | Some _ =>
        num_versions o ≠ 0%Z ∧
        item = OnDisk (version v `mod` num_versions o)%Z ∧
        ∃ d, fs' = <[(version v `mod` num_versions o)%Z := (d, v)]> fs
    end.

(** The number of calls of the wrapped [step()] and [zero_grad()] in a log. *)
Definition updates (l : list event) : nat := length (filter (λ e, e = EvStep) l).
Definition clears (l : list event) : nat := length (filter (λ e, e = EvZeroGrad) l).

(** The version tag of a ring slot: the one stored in the tuple, or the one
    in the file the slot names. *)
Definition item_version w (item : queue_item) : option Version :=
  match item with
  | InMemory _ v => Some v
  | OnDisk fname => snd <$> files w !! fname
  end.

(** The version tags of the ring, oldest slot first. *)
Definition ring_tags o w : list (option Z) :=
  (λ item, version <$> item_version w item) <$> items (queue o).

(** The tag of slot [i] as the code keeps it, for a ring of [n] slots after
    [l] real updates. *)
Definition expected_tag (n l : Z) (i : nat) : Z :=
  if decide (n = 1)%Z then 0%Z else Z.max 0 (l - (n - 1 - Z.of_nat i)).

(** The tag of slot [i] in the words of the design document: contiguous
    integers, the newest slot tagged [l], the oldest [l - n + 1]. *)
Definition claimed_tag (n l : Z) (i : nat) : Z := (l - (n - 1 - Z.of_nat i))%Z.

(** Slot [item] carries tag [e]. *)
Definition slot_ok o w (e : Z) (item : queue_item) : Prop :=
  match save_dir o, item with
  | None, InMemory _ v => version v = e
  | Some _, OnDisk fname =>
      fname = (e `mod` num_versions o)%Z ∧
      ∃ d v, files w !! fname = Some (d, v) ∧ version v = e
  | _, _ => False
  end.

Record ring_inv o w : Prop := {
  ring_versions : (1 ≤ num_versions o)%Z;
  ring_latest : (0 ≤ version (latest_version o))%Z;
  ring_maxlen : maxlen (queue o) = Z.to_nat (num_versions o);
  ring_length : length (items (queue o)) = Z.to_nat (num_versions o);
  ring_slots : ∀ i item, items (queue o) !! i = Some item →
    slot_ok o w (expected_tag (num_versions o) (version (latest_version o)) i)
            item;
}.

(** The public calls, and what the training loop does to the live modules
    and the gradients between them. *)
Inductive call :=
| CallStep | CallZeroGrad | CallLoadOld | CallLoadNew
| Training (ms : list state_dict) (g : gmap pid Data).

Definition exec (c : call) : M (optimizer * world) unit :=
  match c with
  | CallStep => step ;; ret tt
  | CallZeroGrad => zero_grad
  | CallLoadOld => load_old_params
  | CallLoadNew => load_new_params
  | Training ms g => set_world (λ w, with_grads g (with_modules ms w))
  end.

(** The number of calls of [step] in a sequence of calls. *)
Fixpoint count_steps (calls : list call) : nat :=
  match calls with
  | [] => 0
  | CallStep :: calls' => S (count_steps calls')
  | _ :: calls' => count_steps calls'
  end.

(** Only the heap of dictionary objects differs. *)
Definition heap_only s s' : Prop :=
  s'.1 = s.1 ∧ modules s'.2 = modules s.2 ∧ grads s'.2 = grads s.2 ∧
  files s'.2 = files s.2 ∧ log s'.2 = log s.2.

(** Every slot filled so far carries the tag [v]. *)
Definition filled o w (v : Version) : Prop :=
  Forall (slot_ok o w (version v)) (items (queue o)).

Definition special (key : string) : bool :=
  str_in "running_" key || str_in "mask" key.

(** What a restore leaves as it was: everything but the live modules and
    the snapshot dictionaries, and in the modules the running statistics and
    the masks. *)
Definition restored s s' : Prop :=
  s'.1 = s.1 ∧ grads s'.2 = grads s.2 ∧ files s'.2 = files s.2 ∧
  log s'.2 = log s.2 ∧
  length (modules s'.2) = length (modules s.2) ∧
  length (heap s'.2) = length (heap s.2) ∧
  ∀ j key, special key = true →
    modules s'.2 !! j ≫= (.!! key) = modules s.2 !! j ≫= (.!! key).

(** The dictionaries [get_params(clone=True)] creates for the live modules
    [ms]. *)
Definition snapshot (stash : bool) (ms : list state_dict) : list state_dict :=
  (λ module : state_dict,
     (λ t, if stash then cpu (clone t) else clone t) <$> module) <$> ms.

(** The dictionary [sd'] is [sd] after the [clone=False] loop of
    [get_params] has run over the fields of [module]. *)
Definition refreshed o (module sd sd' : state_dict) : Prop :=
  ∀ key,
    match module !! key with
    | None => sd' !! key = sd !! key
    | Some t =>
        if str_in "running_" key then sd' !! key = sd !! key
        else if str_in "mask" key then
          sd' !! key = Some (if stash_to_cpu o then cpu (clone t) else clone t)
        else
          ∃ dst dst', sd !! key = Some dst ∧
            copy_ dst (if stash_to_cpu o then cpu t else t) = Ok dst' ∧
            sd' !! key = Some dst'
    end.

(** The dictionary [sd] can be loaded into the module [cur]: it has
    exactly the fields of the module, and every field whose name contains
    neither "running_" nor "mask" has the shape the module has. *)
Definition loadable (cur sd : state_dict) : Prop :=
  dom sd = dom cur ∧
  ∀ key input p,
    special key = false → sd !! key = Some input → cur !! key = Some p →
    shape (t_data input) = shape (t_data p).

(** The state a method leaves, and the value it returns ([s] and [d] if it
    raises). *)
Definition state_after {A} (m : Op A) s : optimizer * world :=
  match m s with
  | Ok (_, s') => s'
  | Raise _ => s
  end.

Definition value_after {A} (d : A) (m : Op A) s : A :=
  match m s with
  | Ok (a, _) => a
  | Raise _ => d
  end.

(** [load_old_params] and [load_new_params] differ in the index only. *)
Definition load_params (index : Z) : M (optimizer * world) unit :=
  do o <- self;
  if decide (1 < num_versions o)%Z then
    do '(state_dicts, v) <- get_from_queue index; set_params state_dicts v
  else ret tt.

(** The [i]-th dictionary of the snapshot stored in the file [fname]. *)
Definition stored (w : world) (fname : Z) (i : nat) : option state_dict :=
  match files w !! fname with
  | Some (state_dicts, _) => state_dicts !! i
  | None => None
  end.

(** The state after a sequence of calls (unchanged if one of them raises). *)
Definition after (calls : list call) s : optimizer * world :=
  match for_each calls exec s with
  | Ok (_, s') => s'
  | Raise _ => s
  end.

(** The call returned, and returned none. *)
Definition returns_none (r : result (option Loss * (optimizer * world)))
    : bool :=
  match r with Ok (None, _) => true | _ => false end.

(** [k] iterations of a training loop that calls [zero_grad()] and then
    [step()] once per batch. *)
Definition window (k : nat) : list call :=
  concat (replicate k [CallZeroGrad; CallStep]).

End Optimizer.

Arguments Tensor {_} _ _.

(** ** [runtime/threadsafe_queue.py]: the hand-off queue

    One producer thread calls [add] for each payload of a list and one
    consumer thread calls [remove] a number of times.  Every statement of
    the two methods is one atomic step of the thread that executes it; a
    schedule picks the thread that moves next.  [threading.Condition] is the
    lock with its owner and the threads parked in [wait()]: [acquire] is
    enabled when the lock is free, [wait] registers the caller and releases
    the lock in one step (both happen while the lock is held), [notify]
    unparks the longest-waiting thread, which must take the lock again
    before it returns from [wait]. *)

Module HandoffQueue.

Inductive thread := Producer | Consumer.

Global Instance thread_eq_dec : EqDecision thread.
Proof. solve_decision. Defined.

Record Condition := mkCondition {
  owner : option thread;
  waiters : list thread;
}.

Section Queue.
Context {A : Type}.

(** [class Queue] *)
Record Queue := mkQueue {
  queue : list A;
  cv : Condition;
}.

(** [Queue()] *)
Definition Queue_new : Queue := mkQueue [] (mkCondition None []).

(** Where the producer is in [add(tensor)]. *)
Inductive producer_pc :=
| P_idle                      (** not in a call *)
| P_acquire (tensor : A)      (** before [self.cv.acquire()] *)
| P_append (tensor : A)       (** before [self.queue.append(tensor)] *)
| P_notify                    (** before [self.cv.notify()] *)
| P_release.                  (** before [self.cv.release()] *)

(** Where the consumer is in [remove()]. *)
Inductive consumer_pc :=
| C_idle                      (** not in a call *)
| C_acquire                   (** before [self.cv.acquire()] *)
| C_test                      (** before [while len(self.queue) == 0] *)
| C_wait                      (** before [self.cv.wait()] *)
| C_parked                    (** inside [wait()], not notified *)
| C_woken                     (** inside [wait()], notified, lock not retaken *)
| C_popleft                   (** before [tensor = self.queue.popleft()] *)
| C_release (tensor : A).     (** before [self.cv.release()]; [return tensor] *)

Record system := mkSystem {
  obj : Queue;
  p_pc : producer_pc;
  p_todo : list A;            (** payloads the producer has still to add *)
  c_pc : consumer_pc;
  c_todo : nat;               (** calls of [remove] still to start *)
  c_got : list A;             (** the values [remove] returned, oldest first *)
}.

Definition start (payloads : list A) (removals : nat) : system :=
  mkSystem Queue_new P_idle payloads C_idle removals [].

Inductive outcome :=
| Next (s : system)           (** the thread made one step *)
| Blocked                     (** the thread cannot move in this state *)
| Error.                      (** the statement raises *)

Definition set_obj (q : Queue) (s : system) : system :=
  mkSystem q (p_pc s) (p_todo s) (c_pc s) (c_todo s) (c_got s).
Definition set_p (pc : producer_pc) (s : system) : system :=
  mkSystem (obj s) pc (p_todo s) (c_pc s) (c_todo s) (c_got s).
Definition set_c (pc : consumer_pc) (s : system) : system :=
  mkSystem (obj s) (p_pc s) (p_todo s) pc (c_todo s) (c_got s).
Definition set_owner (o : option thread) (q : Queue) : Queue :=
  mkQueue (queue q) (mkCondition o (waiters (cv q))).

(** [self.cv.acquire()] by thread [t]: blocks while the lock is taken. *)
Definition acquire (t : thread) (q : Queue) : option Queue :=
  match owner (cv q) with
  | None => Some (set_owner (Some t) q)
  | Some _ => None
  end.

(** [self.cv.release()] by thread [t]: raises unless [t] holds the lock. *)
Definition release (t : thread) (q : Queue) : option Queue :=
  if decide (owner (cv q) = Some t) then Some (set_owner None q) else None.

(** The effect of being notified on a thread parked in [wait()]. *)
Definition unpark (t : thread) (s : system) : system :=
  match t, c_pc s with
  | Consumer, C_parked => set_c C_woken s
  | _, _ => s
  end.

(** One step of the producer. *)
Definition producer_step (s : system) : outcome :=
  let q := obj s in
  match p_pc s with
  | P_idle =>
      match p_todo s with
      | [] => Blocked
      | tensor :: rest =>
          Next (mkSystem q (P_acquire tensor) rest (c_pc s) (c_todo s) (c_got s))
      end
  | P_acquire tensor =>
      match acquire Producer q with
      | Some q' => Next (set_p (P_append tensor) (set_obj q' s))
      | None => Blocked
      end
  | P_append tensor =>
      Next (set_p P_notify (set_obj (mkQueue (queue q ++ [tensor]) (cv q)) s))
  | P_notify =>
      if decide (owner (cv q) = Some Producer) then
        match waiters (cv q) with
        | [] => Next (set_p P_release s)
        | t :: ws =>
            Next (unpark t (set_p P_release
                    (set_obj (mkQueue (queue q) (mkCondition (owner (cv q)) ws)) s)))
        end
      else Error
  | P_release =>
      match release Producer q with
      | Some q' => Next (set_p P_idle (set_obj q' s))
      | None => Error
      end
  end.

(** One step of the consumer. *)
Definition consumer_step (s : system) : outcome :=
  let q := obj s in
  match c_pc s with
  | C_idle =>
      match c_todo s with
      | O => Blocked
      | S n => Next (mkSystem q (p_pc s) (p_todo s) C_acquire n (c_got s))
      end
  | C_acquire =>
      match acquire Consumer q with
      | Some q' => Next (set_c C_test (set_obj q' s))
      | None => Blocked
      end
  | C_test =>
      if decide (length (queue q) = 0) then Next (set_c C_wait s)
      else Next (set_c C_popleft s)
  | C_wait =>
      if decide (owner (cv q) = Some Consumer) then
        Next (set_c C_parked
               (set_obj (mkQueue (queue q)
                           (mkCondition None (waiters (cv q) ++ [Consumer]))) s))
      else Error
  | C_parked => Blocked
  | C_woken =>
      match acquire Consumer q with
      | Some q' => Next (set_c C_test (set_obj q' s))
      | None => Blocked
      end
  | C_popleft =>
      match queue q with
      | [] => Error
      | tensor :: rest =>
          Next (set_c (C_release tensor) (set_obj (mkQueue rest (cv q)) s))
      end
  | C_release tensor =>
      match release Consumer q with
      | Some q' =>
          Next (mkSystem q' (p_pc s) (p_todo s) C_idle (c_todo s)
                         (c_got s ++ [tensor]))
      | None => Error
      end
  end.

Definition thread_step (t : thread) (s : system) : outcome :=
  match t with
  | Producer => producer_step s
  | Consumer => consumer_step s
  end.

(** The interleavings: one step of either thread. *)
Definition step (s s' : system) : Prop :=
  ∃ t, thread_step t s = Next s'.

(** No thread can move. *)
Definition stuck (s : system) : Prop :=
  ∀ t, thread_step t s = Blocked.

(** Running a schedule; a thread that is scheduled while blocked does not
    move. *)
Fixpoint run (schedule : list thread) (s : system) : option system :=
  match schedule with
  | [] => Some s
  | t :: rest =>
      match thread_step t s with
      | Next s' => run rest s'
      | Blocked => run rest s
      | Error => None
      end
  end.

(** The payloads added so far that [remove] has not returned. *)
Definition in_flight (s : system) : list A :=
  match c_pc s with C_release tensor => [tensor] | _ => [] end.

(** The payload of the call of [add] in progress, while not yet appended. *)
Definition in_hand (s : system) : list A :=
  match p_pc s with
  | P_acquire tensor | P_append tensor => [tensor]
  | _ => []
  end.

(** *** Specification-side definitions *)

(** The thread whose program counter is inside a critical section. *)
Definition p_critical (s : system) : bool :=
  match p_pc s with P_append _ | P_notify | P_release => true | _ => false end.
Definition c_critical (s : system) : bool :=
  match c_pc s with
  | C_test | C_wait | C_popleft | C_release _ => true
  | _ => false
  end.
Definition holder (s : system) : option thread :=
  if p_critical s then Some Producer
  else if c_critical s then Some Consumer else None.

(** Whether the consumer is inside a call of [remove]. *)
Definition c_busy (s : system) : nat :=
  match c_pc s with C_idle => 0 | _ => 1 end.

(** The invariant of the executions that add [xs] and call [remove] [k]
    times. *)
Record inv (xs : list A) (k : nat) (s : system) : Prop := {
  inv_fifo : xs = c_got s ++ in_flight s ++ queue (obj s) ++ in_hand s ++ p_todo s;
  inv_owner : owner (cv (obj s)) = holder s;
  inv_mutex : ¬ (p_critical s ∧ c_critical s);
  inv_waiters :
    waiters (cv (obj s)) = match c_pc s with C_parked => [Consumer] | _ => [] end;
  inv_popleft : c_pc s = C_popleft → queue (obj s) ≠ [];
  inv_wait : c_pc s = C_wait → queue (obj s) = [];
  inv_parked : c_pc s = C_parked → queue (obj s) = [] ∨ p_pc s = P_notify;
  inv_count : length (c_got s) + c_busy s + c_todo s = k;
}.

(** The measure that every step decreases. *)
Definition p_rank (pc : producer_pc) : nat :=
  match pc with
  | P_idle => 0 | P_release => 1 | P_notify => 2 | P_append _ => 3
  | P_acquire _ => 4
  end.
Definition c_rank (pc : consumer_pc) : nat :=
  match pc with
  | C_idle => 0 | C_release _ => 1 | C_popleft => 2 | C_parked => 3
  | C_wait => 4 | C_test => 5 | C_woken => 6 | C_acquire => 7
  end.
Definition measure (s : system) : nat :=
  4 * (5 * length (p_todo s) + p_rank (p_pc s))
  + 8 * c_todo s + c_rank (c_pc s).

(** The schedule that lets the producer and the consumer move in turn, [n]
    times each. *)
Definition round_robin (n : nat) : list thread :=
  concat (replicate n [Producer; Consumer]).

End Queue.

Arguments Queue A : clear implicits.
Arguments system A : clear implicits.
Arguments producer_pc A : clear implicits.
Arguments consumer_pc A : clear implicits.

End HandoffQueue.

(** ** A concrete instance of the collaborators

    Tensors are lists of integers and the wrapped algorithm is a toy descent
    step; the instance serves to run the embedding on concrete inputs. *)

Module Toy.
Local Open Scope string_scope.

(** A source of one element is broadcast; other shapes must agree. *)
Definition toy_copy (d s : list Z) : option (list Z) :=
  if decide (length d = length s) then Some s
  else match s with
       | [x] => Some (replicate (length d) x)
       | _ => None
       end.

#[export] Instance toy_tensors : TensorLib := {|
  Data := list Z;
  Shape := nat;
  shape := length;
  copy_data := toy_copy;
  copy_data_same_shape d s Hs :=
    match decide (length d = length s) as c
      return (if c then Some s
              else match s with
                   | [x] => Some (replicate (length d) x)
                   | _ => None
                   end) = Some s
    with
    | left _ => eq_refl
    | right Hn => match Hn Hs with end
    end;
  div_int d n := (λ x, x `div` n)%Z <$> d;
  Scale := Z;
  scale_is_one s := bool_decide (s = 1%Z);
  div_scale d s := (λ x, x `div` s)%Z <$> d;
  clear_grad _ := None;
|}.

(** The state of a toy algorithm: whether its [step()] requires a closure
    (as LBFGS does), and the number of updates made.  A [step()] that
    requires a closure raises when called without one; otherwise the toy
    algorithm moves every field that is neither a running statistic nor a
    mask by the sum of the leading gradient elements of its parameters. *)
Definition toy_step (st : bool * nat) (groups : list (list pid))
    (g : gmap pid (list Z)) (ms : list state_dict)
    : result ((bool * nat) * list state_dict * option Z) :=
  if st.1 then Raise TypeError
  else
    let delta := foldr Z.add 0%Z
      ((λ p, default 0%Z (g !! p ≫= head)) <$> concat groups) in
    Ok ((false, S st.2),
        (λ m : state_dict, map_imap (λ key t,
           Some (if str_in "running_" key || str_in "mask" key then t
                 else Tensor (t_device t) ((λ x, x - delta)%Z <$> t_data t))) m)
          <$> ms,
        None).

#[export] Instance toy_collaborators : Collaborators := {|
  Clip := Z;
  clip_grad_norm_ ps c g :=
    Ok (foldr (λ p g, alter (fmap (λ x, Z.max (- c) (Z.min c x))) p g) g ps);
  clip_grad_norm_nil c g := ex_intro _ g eq_refl;
  OptState := bool * nat;
  OptArgs := unit;
  Loss := Z;
  optim_new name _ _ :=
    if decide (name = "SGD") then Ok (false, 0)
    else if decide (name = "LBFGS") then Ok (true, 0)
    else Raise AttributeError;
  optim_step := toy_step;
  model_grads_to_master_grads _ _ g := Ok g;
  master_params_to_model_params _ _ ms := Ok ms;
|}.

Definition t (d : list Z) : tensor := Tensor CUDA d.

Local Open Scope Z_scope.

(** One live module with a weight, a running statistic and a mask, and two
    parameters with gradients. *)
Definition module0 : state_dict :=
  <["weight" := t [10; 20]]>
    (<["bn.running_mean" := t [5]]> (<["attn.mask" := t [1; 1; 0]]> ∅)).

Definition world0 : world :=
  World [module0] (<[0%nat := [4; 8]]> (<[1%nat := [6; 10]]> ∅)) [] ∅ [].

(** The optimizer object [OptimizerWithWeightStashing("SGD", ...)] built in
    [world0], with the world it leaves. *)
Definition start (master_parameters : params_arg) (num_versions : Z)
    (macrobatch : bool) (save_dir : option string) : optimizer * world :=
  match init "SGD" master_parameters None 1 num_versions 0 macrobatch None
             save_dir false tt world0 with
  | Ok s => s
  | Raise _ =>
      (Optimizer master_parameters None 1 None save_dir false num_versions
         None Version_new Version_new (Deque 0 []) [] 0 0 1, world0)
  end.

(** The live module after a training pass has moved its running statistic. *)
Definition module1 : state_dict := <["bn.running_mean" := t [7]]> module0.

(** The live module after a training pass has also moved its weight. *)
Definition module2 : state_dict := <["weight" := t [11; 22]]> module1.

(** Optimizers over parameter 0: one version; three versions; two versions;
    macrobatching with two versions; snapshots on disk. *)
Definition single : optimizer * world := start (ParamList [0%nat]) 1 false None.
Definition triple : optimizer * world := start (ParamList [0%nat]) 3 false None.
Definition pair : optimizer * world := start (ParamList [0%nat]) 2 false None.
Definition macro : optimizer * world := start (ParamList [0%nat]) 2 true None.
Definition disk : optimizer * world :=
  start (ParamList [0%nat]) 2 false (Some "stash").

(** A stage without trainable parameters. *)
Definition empty : optimizer * world := start (ParamList []) 1 false None.

(** Two parameter groups, with macrobatching. *)
Definition groups : optimizer * world :=
  start (ParamGroups [[0%nat]; [1%nat]]) 2 true None.

(** Mixed precision with a loss scale of 2, over the master parameters 0
    and 2; parameter 2 has no gradient. *)
Definition mixed : optimizer * world :=
  match init "SGD" (ParamList [0%nat; 2%nat]) (Some [0%nat]) 2 1 0 false None
             None false tt world0 with
  | Ok s => s
  | Raise _ =>
      (Optimizer (ParamList [0%nat; 2%nat]) (Some [0%nat]) 2 None None false
         1 None Version_new Version_new (Deque 0 []) [] 0 0 1, world0)
  end.

(** Mixed precision with a loss scale of 2 over the master parameter 0,
    with macrobatching. *)
Definition scaled : optimizer * world :=
  match init "SGD" (ParamList [0%nat]) (Some [0%nat]) 2 2 0 true None None
             false tt world0 with
  | Ok s => s
  | Raise _ =>
      (Optimizer (ParamList [0%nat]) (Some [0%nat]) 2 None None false 2 None
         Version_new Version_new (Deque 0 []) [] 0 0 2, world0)
  end.

(** One version over parameter 0, with an algorithm whose [step()] requires
    a closure. *)
Definition lbfgs : optimizer * world :=
  match init "LBFGS" (ParamList [0%nat]) None 1 1 0 false None None false tt
             world0 with
  | Ok s => s
  | Raise _ =>
      (Optimizer (ParamList [0%nat]) None 1 None None false 1 None
         Version_new Version_new (Deque 0 []) [] 0 0 1, world0)
  end.

(** The wrapped optimizer of [o] has the parameter groups [gs], requires no
    closure and has made [st] updates. *)
Definition base_is (o : optimizer) (gs : list (list pid)) (st : nat) : bool :=
  match base_optimizer o with
  | Some b =>
      bool_decide (param_groups b = gs) &&
      bool_decide (opt_state b = (false, st))
  | None => false
  end.

(** The call raises [TypeError]. *)
Definition raises_TypeError {A} (r : result A) : bool :=
  match r with Raise TypeError => true | _ => false end.

(** [single] with [update_interval] set to 4. *)
Definition every_fourth : optimizer * world :=
  (with_update_interval 4 single.1, single.2).

End Toy.


(** * Properties of the optimizer wrapper *)

Set Warnings "-clear-no-such-hyp".

(** Observations: a result or a lookup known by evaluation. *)
Lemma ok_eta {A B} (r : result (A * B)) s : r = Ok s → r = Ok (s.1, s.2).
Proof. by destruct s. Qed.

Lemma ok_pair_inv {A B} (a : A) (b : B) s :
  Ok (a, b) = Ok s → a = s.1 ∧ b = s.2.
Proof. by intros [= <-]. Qed.

Lemma ok_inv {A} (a b : A) : Ok a = Ok b → a = b.
Proof. by intros [= <-]. Qed.

Lemma ok_default {A} (r : result A) (d : A) :
  is_ok_b r = true → r = Ok match r with Ok a => a | Raise _ => d end.
Proof. by destruct r. Qed.

Lemma is_Some_observed {A} (x : option A) :
  bool_decide (is_Some x) = true → is_Some x.
Proof. apply bool_decide_eq_true. Qed.

Lemma option_default_eq {A} (x : option A) (d : A) :
  bool_decide (is_Some x) = true → x = Some (default d x).
Proof. by intros [y ->]%bool_decide_eq_true. Qed.

Lemma lookup_default {A} (l : list A) (i : nat) (d : A) :
  bool_decide (is_Some (l !! i)) = true → l !! i = Some (default d (l !! i)).
Proof. intros [x ->]%bool_decide_eq_true. done. Qed.

(** A loop over the entries of a dictionary that returns has handled every
    entry without raising, and binds each key to the result for its entry. *)
Lemma map_mapM_lookup {X Y} (f : string → X → result Y) (m : gmap string X)
    (m' : gmap string Y) :
  map_mapM f m = Ok m' →
  ∀ k, match m !! k with
       | Some x => ∃ y, f k x = Ok y ∧ m' !! k = Some y
       | None => m' !! k = None
       end.
Proof.
  unfold map_mapM, map_foldM. revert m'.
  apply (map_fold_weak_ind (λ r m, ∀ m', r = Ok m' → ∀ k,
    match m !! k with
    | Some x => ∃ y, f k x = Ok y ∧ m' !! k = Some y
    | None => m' !! k = None
    end)).
  - intros m' [= <-] k. by rewrite !lookup_empty.
  - intros i x m0 r Hi IH m' Hr k.
    destruct r as [acc|]; [|done].
    destruct (f i x) as [y|] eqn:Ef; [|done]. injection Hr as <-.
    specialize (IH acc eq_refl k).
    destruct (decide (i = k)) as [->|Hne].
    + rewrite !lookup_insert_eq. eauto.
    + by rewrite !lookup_insert_ne.
Qed.

Lemma map_mapM_dom {X Y} (f : string → X → result Y) (m : gmap string X)
    (m' : gmap string Y) :
  map_mapM f m = Ok m' → dom m' = dom m.
Proof.
  intros Hm. apply set_eq. intros k. rewrite !elem_of_dom.
  pose proof (map_mapM_lookup f m m' Hm k) as Hk.
  destruct (m !! k) as [x|].
  - destruct Hk as (y & _ & ->). by split; eauto.
  - rewrite Hk. by split; intros [? ?].
Qed.

(** ** Inversion of monadic computations *)

Lemma bind_ok {S X Y} (m : M S X) (f : X → M S Y) (s : S) y s' :
  bind m f s = Ok (y, s') ↔ ∃ x s1, m s = Ok (x, s1) ∧ f x s1 = Ok (y, s').
Proof.
  unfold bind. split.
  - destruct (m s) as [[x s1]|e]; [eauto|done].
  - by intros (x & s1 & -> & ?).
Qed.

Lemma lift_ok {S X} (r : result X) (s : S) x s' :
  lift r s = Ok (x, s') ↔ r = Ok x ∧ s' = s.
Proof. unfold lift. destruct r; naive_solver. Qed.

(** A preorder that the body of a loop respects is respected by the loop. *)
Lemma for_each_rel {S X} (R : S → S → Prop) `{!PreOrder R}
    (xs : list X) (body : X → M S unit) (s s' : S) :
  (∀ x s1 s2, x ∈ xs → body x s1 = Ok (tt, s2) → R s1 s2) →
  for_each xs body s = Ok (tt, s') → R s s'.
Proof.
  revert s. induction xs as [|x xs IH]; intros s Hb; simpl.
  - intros [= ->]. reflexivity.
  - intros ([] & s1 & H1 & H2)%bind_ok.
    etrans; [eapply Hb; [by left|done]|].
    apply IH; [|done]. intros y s2 s3 Hy. apply Hb. by right.
Qed.

Lemma preorder_on {S X} (f : S → X) : PreOrder (λ s s', f s' = f s).
Proof. split; [done|]. intros ??? H1 H2. by rewrite H2. Qed.

Lemma NoDup_zip_fst {X Y} (l : list X) (k : list Y) :
  NoDup l → NoDup (zip l k).*1.
Proof.
  revert k. induction l as [|x l IH]; intros [|y k] Hl; simpl;
    try by apply NoDup_nil.
  apply NoDup_cons in Hl as [Hx Hl]. apply NoDup_cons. split; [|by apply IH].
  intros ([x' y'] & -> & Hin%elem_of_zip_l)%list_elem_of_fmap. done.
Qed.

Lemma NoDup_zip_snd {X Y} (l : list X) (k : list Y) :
  NoDup k → NoDup (zip l k).*2.
Proof.
  revert k. induction l as [|x l IH]; intros [|y k] Hk; simpl;
    try by apply NoDup_nil.
  apply NoDup_cons in Hk as [Hy Hk]. apply NoDup_cons. split; [|by apply IH].
  intros ([x' y'] & -> & Hin%elem_of_zip_r)%list_elem_of_fmap. done.
Qed.

Lemma repeatM_rel {S} (R : S → S → Prop) `{!PreOrder R}
    (n : nat) (body : M S unit) (s s' : S) :
  (∀ s1 s2, body s1 = Ok (tt, s2) → R s1 s2) →
  repeatM n body s = Ok (tt, s') → R s s'.
Proof.
  intros Hb. revert s. induction n as [|n IH]; intros s; simpl.
  - intros [= ->]. reflexivity.
  - intros (? & s1 & H1 & H2)%bind_ok. destruct x.
    etrans; [by eapply Hb|by apply IH].
Qed.


Section OptimizerFacts.
Context `{Collaborators}.
Implicit Types (o : optimizer) (w : world) (s : optimizer * world).

(** ** Specification-side definitions *)

(** ** What the heap operations change *)

Global Instance heap_only_preorder : PreOrder heap_only.
Proof.
  split.
  - by intros [o w].
  - intros s1 s2 s3 (? & ? & ? & ? & ?) (? & ? & ? & ? & ?).
    unfold heap_only. repeat split; congruence.
Qed.

Lemma alloc_all_ok ds o w :
  alloc_all ds (o, w) =
    Ok (seq (length (heap w)) (length ds), (o, with_heap (heap w ++ ds) w)).
Proof.
  revert w. induction ds as [|d ds IH]; intros w; simpl.
  - unfold ret. rewrite app_nil_r. by destruct w.
  - unfold bind at 1. cbn. unfold bind at 1.
    rewrite IH. cbn. rewrite length_app, <- app_assoc. simpl.
    by rewrite Nat.add_1_r.
Qed.

Lemma deref_all_ok rs o w ds s' :
  deref_all rs (o, w) = Ok (ds, s') →
  s' = (o, w) ∧ Forall2 (λ r d, heap w !! r = Some d) rs ds.
Proof.
  revert ds s'. induction rs as [|r rs IH]; intros ds s'; simpl.
  - intros [= <- <-]. by split.
  - unfold bind at 1, deref at 1. cbn.
    destruct (heap w !! r) as [d|] eqn:Er; [|done]. cbn.
    intros (ds' & s1 & H1 & H2)%bind_ok.
    apply IH in H1 as [-> Hf]. injection H2 as <- <-.
    split; [done|]. by constructor.
Qed.

Lemma get_from_queue_ok index o w sds v s' :
  get_from_queue index (o, w) = Ok ((sds, v), s') →
  heap_only (o, w) s' ∧
  ∃ item, py_index (items (queue o)) index = Ok item ∧
    match save_dir o, item with
    | None, InMemory sds' v' => sds' = sds ∧ v' = v ∧ s' = (o, w)
    | Some _, OnDisk fname => ∃ d, files w !! fname = Some (d, v)
    | _, _ => False
    end.
Proof.
  unfold get_from_queue. cbn.
  destruct (py_index (items (queue o)) index) as [item|] eqn:Ei; [|done].
  cbn. destruct (save_dir o), item; try done.
  - cbn. destruct (files w !! fname) as [[d v']|] eqn:Ef; [|done].
    unfold bind. rewrite alloc_all_ok. cbn. intros [= <- <- <-].
    split; [done|]. exists (OnDisk fname). eauto.
  - intros [= <- <- <-]. split; [done|]. exists (InMemory state_dicts v0).
    done.
Qed.

Lemma get_from_queue_eq index o w item :
  py_index (items (queue o)) index = Ok item →
  get_from_queue index (o, w) =
    match save_dir o, item with
    | Some _, OnDisk fname =>
        match files w !! fname with
        | Some (d, v) =>
            Ok ((seq (length (heap w)) (length d), v),
                (o, with_heap (heap w ++ d) w))
        | None => Raise FileNotFoundError
        end
    | None, InMemory sds v => Ok ((sds, v), (o, w))
    | _, _ => Raise RuntimeError
    end.
Proof.
  intros Hi. unfold get_from_queue. cbn. rewrite Hi. cbn.
  destruct (save_dir o), item; try done. cbn.
  destruct (files w !! fname) as [[d v]|]; [|done].
  unfold bind. by rewrite alloc_all_ok.
Qed.

Lemma py_index_head {X} (x : X) (l : list X) : py_index (x :: l) 0 = Ok x.
Proof.
  unfold py_index. rewrite (decide_False (P := (0 < 0)%Z)) by lia.
  rewrite decide_True by (rewrite length_cons; lia). done.
Qed.

Lemma get_params_ok c o w sds v s' :
  get_params c (o, w) = Ok ((sds, v), s') →
  heap_only (o, w) s' ∧ v = latest_version o ∧
  (c = false → sds = buffered_state_dicts o).
Proof.
  unfold get_params. cbn. destruct c.
  - unfold bind. rewrite alloc_all_ok. cbn. intros [= <- <- <-]. done.
  - intros (? & s1 & Hl & Hr)%bind_ok.
    apply bind_ok in Hl as ([] & s2 & Hl & [= <- <-]).
    injection Hr as <- <- <-. split; [|done].
    eapply (for_each_rel heap_only); [|exact Hl].
    intros [i m] [o1 w1] s3 _. cbn.
    destruct (map_foldM _ _ _); [|done]. cbn. by intros [= <-].
Qed.

Lemma append_to_queue_ok sds v o w s' :
  append_to_queue (sds, v) (o, w) = Ok (tt, s') →
  match save_dir o with
  | None =>
      s' = (with_queue (deque_append (queue o) (InMemory sds v)) o, w)
  | Some _ =>
      num_versions o ≠ 0%Z ∧ ∃ d,
      s' = (with_queue (deque_append (queue o)
                          (OnDisk (version v `mod` num_versions o)%Z)) o,
            with_files (<[(version v `mod` num_versions o)%Z := (d, v)]>
                          (files w)) w)
  end.
Proof.
  unfold append_to_queue. cbn. destruct (save_dir o).
  - unfold py_mod. case_decide; [done|]. cbn.
    intros (d & s1 & [-> Hd]%deref_all_ok & [= <-])%bind_ok.
    split; [done|]. by exists d.
  - by intros [= <-].
Qed.

(** The rotation of the ring at the end of a real update. *)
Lemma rotate_ok o w s' :
  (do '(state_dicts, _) <- get_from_queue 0;
   set_self (with_buffered_state_dicts state_dicts) ;;
   do d <- get_params false;
   append_to_queue d) (o, w) = Ok (tt, s') →
  ∃ sds item,
    s'.1 = with_queue (deque_append (queue o) item)
             (with_buffered_state_dicts sds o) ∧
    modules s'.2 = modules w ∧ grads s'.2 = grads w ∧ log s'.2 = log w ∧
    match save_dir o with
    | None =>
        item = InMemory sds (latest_version o) ∧ files s'.2 = files w ∧
        ∃ v0, py_index (items (queue o)) 0 = Ok (InMemory sds v0)
    | Some _ =>
        num_versions o ≠ 0%Z ∧
        item = OnDisk (version (latest_version o) `mod` num_versions o)%Z ∧
        ∃ d, files s'.2 =
             <[(version (latest_version o) `mod` num_versions o)%Z :=
                 (d, latest_version o)]> (files w)
    end.
Proof.
  intros ([sds v0] & [o1 w1] & Hg & Hr)%bind_ok.
  apply get_from_queue_ok in Hg as [(Ho & Hm & Hgr & Hf & Hl) (item & Hi & Hitem)].
  simpl in *. subst o1. cbn in Hr.
  apply bind_ok in Hr as ([sds' v] & [o2 w2] & Hp & Ha).
  apply get_params_ok in Hp as [(Ho & Hm2 & Hgr2 & Hf2 & Hl2) [-> Hb]].
  simpl in *. subst o2. specialize (Hb eq_refl). simpl in Hb. subst sds'.
  apply append_to_queue_ok in Ha. simpl in Ha.
  destruct (save_dir o) eqn:Hsd.
  - destruct Ha as [Hn [d ->]]. exists sds, (OnDisk (version (latest_version o) `mod` num_versions o)%Z).
    simpl. repeat split; try congruence. exists d. congruence.
  - subst s'. exists sds, (InMemory sds (latest_version o)). simpl.
    destruct item; [|done]. destruct Hitem as (-> & -> & _).
    repeat split; try congruence. by exists v0.
Qed.

(** ** The gradient loops of [step] *)

Lemma average_loop_ok o o1 ps w :
  for_each ps (average_grad o) (o1, w) =
    Ok (tt, (o1, with_grads (average_grads (update_interval o) ps (grads w)) w)).
Proof.
  revert w. induction ps as [|p ps IH]; intros w; simpl.
  - by destruct w.
  - unfold bind at 1, average_grad at 1. cbn.
    destruct (grads w !! p) as [d|] eqn:Ep; cbn; rewrite IH; simpl; [done|].
    by destruct w.
Qed.

(** ** One call of [step] *)

Lemma step_skip_ok o w :
  update_interval o ≠ 0%Z →
  (batch_counter o `mod` update_interval o ≠ update_interval o - 1)%Z →
  step (o, w) = Ok (None, (with_batch_counter (batch_counter o + 1) o, w)).
Proof.
  intros Hu Hc. unfold step. cbn. unfold py_mod. rewrite decide_False by done.
  cbn. by rewrite decide_True.
Qed.

Lemma unscale_loop_eq o o1 ps w s' :
  for_each ps (unscale_grad o) (o1, w) = Ok (tt, s') →
  s' = (o1, with_grads (unscale_grads (loss_scale o) ps (grads w)) w).
Proof.
  revert w. induction ps as [|p ps IH]; intros w; simpl.
  - intros [= <-]. by destruct w.
  - unfold bind at 1, unscale_grad at 1. cbn.
    destruct (grads w !! p) as [d|] eqn:Ep; cbn; [|done].
    intros Hr. apply IH in Hr. rewrite Hr. simpl.
    unfold unscale_grads. simpl. rewrite ?Ep. by destruct w.
Qed.

Lemma step_update_ok o w r o' w' :
  update_interval o ≠ 0%Z →
  (batch_counter o `mod` update_interval o = update_interval o - 1)%Z →
  step (o, w) = Ok (r, (o', w')) →
  ∃ g_pre group0 ms,
    match model_parameters o with
    | Some mp =>
        ∃ g_hook,
          model_grads_to_master_grads mp (master_parameters o) (grads w)
            = Ok g_hook ∧
          g_pre = unscaled o g_hook
    | None => g_pre = grads w
    end ∧
    py_index (getattr_param_groups o) 0 = Ok group0 ∧
    clipped o group0 (average_grads (update_interval o) group0 g_pre)
      = Ok (grads w') ∧
    match base_optimizer o with
    | Some b =>
        ∃ st,
          optim_step (opt_state b) (param_groups b) (grads w') (modules w)
            = Ok (st, ms, r) ∧
          base_optimizer o' = Some (BaseOpt (param_groups b) st)
    | None => base_optimizer o' = None ∧ ms = modules w ∧ r = None
    end ∧
    synced o ms = Ok (modules w') ∧
    log w' = log w ++ update_events o ∧
    same_config o o' ∧
    current_version o' = current_version o ∧
    latest_version o' = incr (latest_version o) ∧
    batch_counter o' = (batch_counter o + 1)%Z ∧
    if decide (1 < num_versions o)%Z then
      rotated o (files w) (incr (latest_version o))
              (queue o') (buffered_state_dicts o') (files w')
    else
      queue o' = queue o ∧ buffered_state_dicts o' = buffered_state_dicts o ∧
      files w' = files w ∧ heap w' = heap w.
Proof.
  intros Hu Hc. unfold step. cbn. unfold py_mod at 1.
  rewrite decide_False by done. cbn. rewrite decide_False by (intros ?; done).
  intros (log_timing & [o1 w1] & Ht & Hs)%bind_ok.
  (* the timing flag *)
  assert ((o1, w1) = (o, w) ∧
          log_timing = bool_decide (0 < verbose_freq o ∧
            batch_counter o `mod` verbose_freq o = 0)%Z) as [[= -> ->] ->].
  { destruct (decide (0 < verbose_freq o)%Z) as [Hv|Hv].
    - unfold py_mod in Ht. rewrite decide_False in Ht by lia. cbn in Ht.
      injection Ht as <- <- <-. split; [done|].
      apply bool_decide_ext. naive_solver.
    - injection Ht as <- <- <-. split; [done|].
      symmetry. apply bool_decide_eq_false. naive_solver. }
  (* the mixed-precision hook and the loss scale *)
  apply bind_ok in Hs as ([] & [o2 w2] & Hpre & Hs).
  assert (o2 = o ∧ modules w2 = modules w ∧ heap w2 = heap w ∧
          files w2 = files w ∧
          log w2 = log w ++ match model_parameters o with
                            | Some _ => [EvGradsToMaster] | None => [] end ∧
          match model_parameters o with
          | Some mp =>
              ∃ g_hook,
                model_grads_to_master_grads mp (master_parameters o) (grads w)
                  = Ok g_hook ∧
                grads w2 = unscaled o g_hook
          | None => grads w2 = grads w
          end)
    as (-> & Hm2 & Hh2 & Hf2 & Hl2 & Hg2).
  { destruct (model_parameters o) as [mp|].
    - cbn in Hpre.
      apply bind_ok in Hpre as (g_hook & s1 & [Hh ->]%lift_ok & Hpre).
      cbn in Hpre. unfold unscaled.
      destruct (scale_is_one (loss_scale o)).
      + injection Hpre as <- <-. split_and!; try done. by exists g_hook.
      + destruct (master_parameters o) as [ps|[|g gs]]; [| |done].
        * apply unscale_loop_eq in Hpre. injection Hpre as -> ->.
          split_and!; try done. by exists g_hook.
        * injection Hpre as <- <-. split_and!; try done. by exists g_hook.
    - injection Hpre as <- <-. rewrite app_nil_r. done. }
  (* the averaging loop *)
  apply bind_ok in Hs as (group0 & s3 & [Hg0 ->]%lift_ok & Hs).
  unfold bind at 1 in Hs. rewrite average_loop_ok in Hs.
  (* clipping *)
  apply bind_ok in Hs as ([] & [o4 w4] & Hclip & Hs).
  assert (o4 = o ∧ modules w4 = modules w ∧ heap w4 = heap w ∧
          files w4 = files w ∧
          clipped o group0
            (average_grads (update_interval o) group0 (grads w2))
            = Ok (grads w4) ∧
          log w4 = log w2 ++ match clip_grad o with
                             | Some _ => [EvClipGrad] | None => [] end)
    as (-> & Hm4 & Hh4 & Hf4 & Hg4 & Hl4).
  { unfold clipped. destruct (clip_grad o) as [c|].
    - cbn in Hclip.
      apply bind_ok in Hclip as (g & s4 & [Hcl ->]%lift_ok & Hclip).
      injection Hclip as <- <-. done.
    - injection Hclip as <- <-. simpl. by rewrite app_nil_r. }
  (* the wrapped update *)
  apply bind_ok in Hs as (loss & [o5 w5] & Hupd & Hs).
  assert (∃ ms,
          same_config o o5 ∧ current_version o5 = current_version o ∧
          latest_version o5 = latest_version o ∧
          batch_counter o5 = batch_counter o ∧ queue o5 = queue o ∧
          buffered_state_dicts o5 = buffered_state_dicts o ∧
          heap w5 = heap w ∧ files w5 = files w ∧ grads w5 = grads w4 ∧
          modules w5 = ms ∧
          log w5 = log w4 ++ match base_optimizer o with
                             | Some _ => [EvStep] | None => [] end ∧
          match base_optimizer o with
          | Some b =>
              ∃ st,
                optim_step (opt_state b) (param_groups b) (grads w4)
                  (modules w) = Ok (st, ms, loss) ∧
                base_optimizer o5 = Some (BaseOpt (param_groups b) st)
          | None => base_optimizer o5 = None ∧ ms = modules w ∧ loss = None
          end)
    as (ms & Hcfg5 & Hcv5 & Hlv5 & Hbc5 & Hq5 & Hb5 & Hh5 & Hf5 & Hg5 & Hm5
           & Hl5 & Hbase).
  { destruct (base_optimizer o) as [b|] eqn:Eb.
    - cbn in Hupd. rewrite Hm4 in Hupd.
      apply bind_ok in Hupd as ([[st ms] l] & s5 & [Hst ->]%lift_ok & Hupd).
      cbn in Hupd. injection Hupd as <- <- <-. exists ms. simpl.
      unfold same_config. simpl. split_and!; try done. by exists st.
    - injection Hupd as <- <- <-. exists (modules w). unfold same_config.
      rewrite app_nil_r. split_and!; done. }
  clear Hupd Hclip Hpre Ht.
  (* master parameters to model parameters, and the new version *)
  apply bind_ok in Hs as ([] & [o6 w6] & Hpost & Hs).
  assert (o6 = o5 ∧ heap w6 = heap w ∧ files w6 = files w ∧
          grads w6 = grads w4 ∧ synced o ms = Ok (modules w6) ∧
          log w6 = log w5 ++ match model_parameters o with
                             | Some _ => [EvMasterToModel] | None => [] end)
    as (-> & Hh6 & Hf6 & Hg6 & Hm6 & Hl6).
  { unfold synced. destruct (model_parameters o) as [mp|].
    - cbn in Hpost. rewrite Hm5 in Hpost.
      apply bind_ok in Hpost as (ms' & s6 & [Hsy ->]%lift_ok & Hpost).
      injection Hpost as <- <-. done.
    - injection Hpost as <- <-. rewrite app_nil_r. by rewrite Hm5. }
  clear Hpost. cbn in Hs.
  apply bind_ok in Hs as ([] & [o7 w7] & Hrot & Hs).
  apply bind_ok in Hs as ([] & [o8 w8] & Htim & Hs).
  injection Hs as <- <- <-.
  assert (o8 = o7 ∧ modules w8 = modules w7 ∧ grads w8 = grads w7 ∧
          heap w8 = heap w7 ∧ files w8 = files w7 ∧
          log w8 = log w7 ++
            (if decide (0 < verbose_freq o ∧
                        batch_counter o `mod` verbose_freq o = 0)%Z
             then [EvPrintTiming] else [])) as (-> & Hm8 & Hg8 & Hh8 & Hf8 & Hl8).
  { destruct (decide (0 < verbose_freq o ∧
                      batch_counter o `mod` verbose_freq o = 0)%Z) as [Hd|Hd].
    - rewrite bool_decide_eq_true_2 in Htim by done.
      injection Htim as <- <-. done.
    - rewrite bool_decide_eq_false_2 in Htim by done.
      injection Htim as <- <-. by rewrite app_nil_r. }
  clear Htim.
  destruct Hcfg5 as (C1 & C2 & C3 & C4 & C5 & C6 & C7 & C8 & C9).
  set (o6 := with_latest_version (incr (latest_version o5)) o5) in *.
  assert (o7 = (if decide (1 < num_versions o)%Z then o7 else o6) ∧
          modules w7 = modules w6 ∧ grads w7 = grads w6 ∧ log w7 = log w6 ∧
          if decide (1 < num_versions o)%Z then
            rotated o (files w) (incr (latest_version o))
                    (queue o7) (buffered_state_dicts o7) (files w7) ∧
            o7 = with_queue (queue o7)
                   (with_buffered_state_dicts (buffered_state_dicts o7) o6)
          else o7 = o6 ∧ files w7 = files w6 ∧ heap w7 = heap w6)
    as (_ & Hm7 & Hg7 & Hl7 & Hrot7).
  { destruct (decide (1 < num_versions o)%Z) as [Hn|Hn].
    - apply rotate_ok in Hrot as (sds & item & Ho7 & ? & ? & ? & Hitem).
      simpl in *. repeat split; try done.
      + exists item. rewrite Ho7. simpl. split; [by rewrite Hq5|].
        rewrite C5 in Hitem. destruct (save_dir o).
        * rewrite C7, Hlv5, Hf6 in Hitem. done.
        * rewrite Hlv5, Hf6, Hq5 in Hitem. done.
      + by rewrite Ho7.
    - injection Hrot as <- <-. done. }
  clear Hrot. simpl.
  exists (grads w2), group0, ms.
  rewrite Hg8, Hg7, Hg6, Hm8, Hm7.
  split; [done|]. split; [done|]. split; [done|].
  split.
  { destruct (base_optimizer o) as [b|].
    - destruct Hbase as (st & Hst & Hb). exists st. split; [done|].
      destruct (decide (1 < num_versions o)%Z).
      + destruct Hrot7 as [_ ->]. done.
      + destruct Hrot7 as (-> & _). done.
    - destruct Hbase as (Hb & -> & ->). split; [|done].
      destruct (decide (1 < num_versions o)%Z).
      + destruct Hrot7 as [_ ->]. done.
      + destruct Hrot7 as (-> & _). done. }
  split; [done|].
  split.
  { rewrite Hl8, Hl7, Hl6, Hl5, Hl4, Hl2. unfold update_events.
    by rewrite <- !app_assoc. }
  destruct (decide (1 < num_versions o)%Z).
  - destruct Hrot7 as [Hr ->]. unfold same_config. simpl.
    rewrite Hf8. repeat split; try done; congruence.
  - destruct Hrot7 as (-> & ? & ?). unfold same_config. simpl.
    rewrite Hf8, Hh8. repeat split; congruence.
Qed.


(** ** Counting the calls to the wrapped algorithm *)

Lemma updates_app l1 l2 : updates (l1 ++ l2) = updates l1 + updates l2.
Proof. unfold updates. by rewrite filter_app, length_app. Qed.

Lemma clears_app l1 l2 : clears (l1 ++ l2) = clears l1 + clears l2.
Proof. unfold clears. by rewrite filter_app, length_app. Qed.

Lemma updates_update_events o :
  updates (update_events o) =
    match base_optimizer o with Some _ => 1 | None => 0 end.
Proof.
  unfold update_events.
  destruct (model_parameters o), (clip_grad o), (base_optimizer o);
    case_decide; reflexivity.
Qed.

Lemma clears_update_events o : clears (update_events o) = 0.
Proof.
  unfold update_events.
  destruct (model_parameters o), (clip_grad o), (base_optimizer o);
    case_decide; reflexivity.
Qed.

(** What any call of [step] that returns leaves as it was. *)
Lemma step_frame o w r o' w' :
  step (o, w) = Ok (r, (o', w')) →
  same_config o o' ∧ batch_counter o' = (batch_counter o + 1)%Z ∧
  current_version o' = current_version o ∧
  (base_optimizer o' = None ↔ base_optimizer o = None) ∧
  clears (log w') = clears (log w).
Proof.
  intros Hs.
  destruct (decide (update_interval o = 0%Z)) as [Hu|Hu].
  { unfold step in Hs. cbn in Hs. unfold py_mod in Hs.
    by rewrite decide_True in Hs. }
  destruct (decide ((batch_counter o `mod` update_interval o)%Z
                    = (update_interval o - 1)%Z)) as [Hc|Hc].
  - apply step_update_ok in Hs
      as (g & g0 & ms & _ & _ & _ & Hb & _ & Hl & Hcfg & Hcv & _ & Hbc & _);
      try done.
    split_and!; try done.
    + destruct (base_optimizer o);
        [destruct Hb as (st & _ & Hb)|destruct Hb as [Hb _]]; rewrite Hb;
        naive_solver.
    + by rewrite Hl, clears_app, clears_update_events.
  - rewrite step_skip_ok in Hs by done. injection Hs as <- <- <-.
    unfold same_config. simpl. repeat split; done.
Qed.

(** ** The averaging loop *)

Lemma average_grads_notin u ps g p :
  p ∉ ps → average_grads u ps g !! p = g !! p.
Proof.
  revert g. induction ps as [|q ps IH]; intros g Hp; simpl; [done|].
  apply not_elem_of_cons in Hp as [Hne Hp]. rewrite IH by done.
  destruct (g !! q); [|done]. by rewrite lookup_insert_ne.
Qed.

Lemma average_grads_in u ps g p :
  NoDup ps → p ∈ ps →
  average_grads u ps g !! p = (λ d, div_int d u) <$> g !! p.
Proof.
  revert g. induction ps as [|q ps IH]; intros g Hnd Hp; simpl.
  - by apply elem_of_nil in Hp.
  - apply NoDup_cons in Hnd as [Hq Hnd].
    apply elem_of_cons in Hp as [->|Hp].
    + rewrite average_grads_notin by done.
      destruct (g !! q) eqn:Eq; simpl; [by rewrite lookup_insert_eq|done].
    + rewrite IH by done. destruct (g !! q) eqn:Eq; [|done].
      rewrite lookup_insert_ne; [done|]. by intros ->.
Qed.

(** ** Construction *)

Lemma deref_all_fresh ds h0 o w :
  heap w = h0 ++ ds →
  deref_all (seq (length h0) (length ds)) (o, w) = Ok (ds, (o, w)).
Proof.
  revert h0. induction ds as [|d ds IH]; intros h0 Hh; simpl; [done|].
  unfold bind at 1, deref at 1. cbn.
  rewrite Hh, lookup_app_r, Nat.sub_diag by lia. cbn.
  unfold bind at 1.
  replace (S (length h0)) with (length (h0 ++ [d]))
    by (rewrite length_app; simpl; lia).
  rewrite (IH (h0 ++ [d])); [done|].
  by rewrite Hh, <- app_assoc.
Qed.

Lemma init_loop k : ∀ o w,
  num_versions o ≠ 0%Z →
  length (items (queue o)) + k ≤ maxlen (queue o) →
  filled o w (latest_version o) →
  ∃ q' h' fs',
    repeatM k (do d <- get_params true; append_to_queue d) (o, w) =
      Ok (tt, (with_queue q' o, World (modules w) (grads w) h' fs' (log w))) ∧
    maxlen q' = maxlen (queue o) ∧
    length (items q') = length (items (queue o)) + k ∧
    filled (with_queue q' o) (World (modules w) (grads w) h' fs' (log w))
           (latest_version o).
Proof.
  induction k as [|k IH]; intros o w Hn Hlen Hf.
  - exists (queue o), (heap w), (files w). simpl. destruct o, w.
    split_and!; try done; lia.
  - simpl. unfold bind at 1. unfold bind at 1.
    unfold get_params. cbn. unfold bind at 1. rewrite alloc_all_ok. cbn.
    set (ds := (λ module : state_dict, _ <$> module) <$> modules w).
    unfold append_to_queue. cbn.
    assert (∀ x, deque_append (queue o) x = Deque (maxlen (queue o))
              (items (queue o) ++ [x])) as Hda.
    { intros x. unfold deque_append.
      rewrite decide_False by lia. by rewrite decide_False by lia. }
    destruct (save_dir o) as [dir|] eqn:Hsd.
    + unfold py_mod. rewrite decide_False by done. cbn.
      unfold bind at 1.
      rewrite (deref_all_fresh ds (heap w)) by done. cbn.
      rewrite Hda.
      match goal with |- context [repeatM k _ (?o1, ?w1)] =>
        destruct (IH o1 w1) as (q' & h' & fs' & Hr & Hm & Hl & Hfl) end;
        last first.
      { exists q', h', fs'. split; [exact Hr|]. simpl in *.
        split; [done|]. split; [rewrite Hl, length_app; simpl; lia|].
        exact Hfl. }
      * unfold filled, slot_ok in *. simpl. rewrite Hsd in *.
        apply Forall_app. split.
        -- eapply Forall_impl; [exact Hf|]. intros [|f]; [done|].
           intros [-> (d & v & Hd & Hv)]. split; [done|].
           rewrite lookup_insert_eq. eauto.
        -- apply Forall_singleton. split; [done|].
           rewrite lookup_insert_eq. eauto.
      * simpl. rewrite length_app. simpl. lia.
      * done.
    + cbn. rewrite Hda.
      match goal with |- context [repeatM k _ (?o1, ?w1)] =>
        destruct (IH o1 w1) as (q' & h' & fs' & Hr & Hm & Hl & Hfl) end;
        last first.
      { exists q', h', fs'. split; [exact Hr|]. simpl in *.
        split; [done|]. split; [rewrite Hl, length_app; simpl; lia|].
        exact Hfl. }
      * unfold filled, slot_ok in *. simpl. rewrite Hsd in *.
        apply Forall_app. split; [done|]. by apply Forall_singleton.
      * simpl. rewrite length_app. simpl. lia.
      * done.
Qed.

Lemma initialize_queue_ok o w :
  (1 ≤ num_versions o)%Z →
  ∃ q' buf h' fs',
    initialize_queue (o, w) =
      Ok (tt, (with_buffered_state_dicts buf (with_queue q' o),
               World (modules w) (grads w) h' fs' (log w))) ∧
    maxlen q' = Z.to_nat (num_versions o) ∧
    length (items q') = Z.to_nat (num_versions o) ∧
    filled (with_queue q' o) (World (modules w) (grads w) h' fs' (log w))
           (latest_version o).
Proof.
  intros Hn. unfold initialize_queue. cbn. unfold deque_new.
  rewrite decide_False by lia. cbn.
  destruct (init_loop (Z.to_nat (num_versions o))
              (with_queue (Deque (Z.to_nat (num_versions o)) []) o) w)
    as (q' & h' & fs' & Hr & Hm & Hl & Hf); simpl; try done; try lia.
  { by apply Forall_nil. }
  unfold bind at 1. simpl in Hr. rewrite Hr. clear Hr. cbn.
  simpl in *.
  assert (with_queue q' (with_queue (Deque (Z.to_nat (num_versions o)) []) o)
          = with_queue q' o) as Heq by done.
  rewrite Heq in *. clear Heq.
  destruct (items q') as [|item its] eqn:Hit; [simpl in Hl; lia|].
  unfold filled in Hf. simpl in Hf. rewrite Hit in Hf.
  pose proof (Forall_inv Hf) as Hitem. unfold slot_ok in Hitem. simpl in Hitem.
  unfold bind at 1.
  rewrite (get_from_queue_eq 0 _ _ item)
    by (simpl; rewrite Hit; apply py_index_head).
  simpl. destruct (save_dir o) eqn:Hsd, item as [sds v|f]; try done.
  - destruct Hitem as [-> (d & v & Hd & Hv)]. rewrite Hd. cbn.
    eexists q', _, _, fs'. split; [reflexivity|].
    rewrite <- Hit in Hf, Hl. split_and!; try done;
    unfold filled, slot_ok in *; simpl in *; by rewrite Hsd in *.
  - cbn. eexists q', _, h', fs'. split; [reflexivity|].
    rewrite <- Hit in Hf, Hl. split_and!; try done;
    unfold filled, slot_ok in *; simpl in *; by rewrite Hsd in *.
Qed.

(** The tag every slot carries right after construction is the one the
    invariant expects for version 0. *)
Lemma expected_tag_start n i :
  (1 ≤ n)%Z → i < Z.to_nat n → expected_tag n 0 i = 0%Z.
Proof. intros Hn Hi. unfold expected_tag. case_decide; lia. Qed.

Lemma init_inv optim_name mp model_ps scale n vf macrobatch clip dir stash
    args w o w' :
  init optim_name mp model_ps scale n vf macrobatch clip dir stash args w
    = Ok (o, w') →
  ring_inv o w' ∧
  num_versions o = (if macrobatch then Z.min 2 n else n) ∧
  update_interval o = (if macrobatch then Z.min 2 n else 1%Z) ∧
  latest_version o = Version_new ∧ batch_counter o = 0%Z ∧
  save_dir o = dir ∧ stash_to_cpu o = stash ∧
  (params_len mp = 0 → base_optimizer o = None ∧
     log w' = log w ++ [EvPrint "Warning: no parameter groups to optimize"]) ∧
  modules w' = modules w ∧ grads w' = grads w.
Proof.
  unfold init. set (n' := if macrobatch then Z.min 2 n else n).
  set (o0 := Optimizer _ _ _ _ _ _ _ _ _ _ _ _ _ _ _).
  intros Hi.
  destruct (bind _ _ _) as [[[] [o1 w1]]|] eqn:Hc; [|done].
  injection Hi as -> ->.
  apply bind_ok in Hc as ([] & [o2 w2] & Hb & Hq).
  assert (num_versions o2 = n' ∧ latest_version o2 = Version_new ∧
          batch_counter o2 = 0%Z ∧ save_dir o2 = dir ∧
          stash_to_cpu o2 = stash ∧
          update_interval o2 = (if macrobatch then n' else 1%Z) ∧
          modules w2 = modules w ∧ grads w2 = grads w ∧
          (params_len mp = 0 → base_optimizer o2 = None ∧
             log w2 = log w ++ [EvPrint "Warning: no parameter groups to optimize"]))
    as (Hn2 & Hl2 & Hb2 & Hd2 & Hs2 & Hu2 & Hm2 & Hg2 & He2).
  { case_decide as Hp.
    - injection Hb as <- <-. done.
    - apply bind_ok in Hb as (st & s3 & [Hst ->]%lift_ok & Hb).
      injection Hb as <- <-. done. }
  clear Hb.
  destruct (decide (1 ≤ num_versions o2)%Z) as [Hn|Hn].
  - destruct (initialize_queue_ok o2 w2 Hn)
      as (q' & buf & h' & fs' & Hr & Hm & Hl & Hf).
    rewrite Hr in Hq. injection Hq as <- <-. simpl.
    split_and!; try done.
    + split; simpl; try done.
      * rewrite Hl2. done.
      * intros i item Hit. rewrite Hl2. simpl.
        rewrite expected_tag_start; [|done|].
        -- unfold filled in Hf. rewrite Forall_lookup in Hf.
           specialize (Hf i item Hit). rewrite Hl2 in Hf. exact Hf.
        -- apply lookup_lt_Some in Hit. lia.
    + rewrite Hu2. by destruct macrobatch.
  - exfalso. unfold initialize_queue in Hq. cbn in Hq. unfold deque_new in Hq.
    case_decide as Hneg; [done|]. cbn in Hq.
    assert (num_versions o2 = 0%Z) as Hz by lia. rewrite Hz in Hq.
    simpl in Hq. cbn in Hq. unfold get_from_queue in Hq. cbn in Hq. done.
Qed.

Lemma init_succeeds optim_name mp model_ps scale n vf (macrobatch : bool)
    clip dir stash args w :
  (1 ≤ (if macrobatch then Z.min 2 n else n))%Z →
  params_len mp = 0 ∨ is_ok (optim_new optim_name mp args) →
  is_ok (init optim_name mp model_ps scale n vf macrobatch clip dir stash args w).
Proof.
  intros Hn Hp. unfold init. set (n' := if macrobatch then Z.min 2 n else n) in *.
  set (o0 := Optimizer _ _ _ _ _ _ _ _ _ _ _ _ _ _ _).
  unfold bind at 1.
  case_decide as Hd.
  - cbn -[initialize_queue].
    match goal with |- context [initialize_queue (?o2, ?w2)] =>
      destruct (initialize_queue_ok o2 w2) as (q' & buf & h' & fs' & Hr & _);
        [simpl; lia|] end.
    rewrite Hr. by eexists.
  - destruct Hp as [?|[st Hst]]; [done|]. rewrite Hst.
    cbn -[initialize_queue].
    match goal with |- context [initialize_queue (?o2, ?w2)] =>
      destruct (initialize_queue_ok o2 w2) as (q' & buf & h' & fs' & Hr & _);
        [simpl; lia|] end.
    rewrite Hr. by eexists.
Qed.

(** ** The ring invariant is kept *)

Lemma ring_inv_ext o w o' w' :
  save_dir o' = save_dir o → num_versions o' = num_versions o →
  latest_version o' = latest_version o → queue o' = queue o →
  files w' = files w →
  ring_inv o w → ring_inv o' w'.
Proof.
  intros Hd Hn Hl Hq Hf [? ? ? ? Hs].
  split; rewrite ?Hn, ?Hl, ?Hq; try done.
  intros i item Hi. specialize (Hs i item Hi).
  unfold slot_ok in *. by rewrite Hd, Hn, Hf.
Qed.

Lemma mod_neq_window (n a b : Z) :
  (0 < b - a < n)%Z → (a `mod` n ≠ b `mod` n)%Z.
Proof.
  intros Hab Heq.
  assert (((b - a) `mod` n)%Z = 0%Z) as Hz.
  { rewrite Zminus_mod, Heq, Z.sub_diag. by apply Z.mod_0_l; lia. }
  rewrite Z.mod_small in Hz by lia. lia.
Qed.

Lemma ring_inv_rotated o w o' w' :
  ring_inv o w → (1 < num_versions o)%Z → same_config o o' →
  latest_version o' = incr (latest_version o) →
  rotated o (files w) (incr (latest_version o))
          (queue o') (buffered_state_dicts o') (files w') →
  ring_inv o' w'.
Proof.
  intros [Hn Hl Hmax Hlen Hs] Hn1 (_ & _ & _ & _ & Hd & _ & Hnv & _ & _) Hlv
    (item & Hq & Hitem).
  assert (queue o' = Deque (maxlen (queue o)) (tail (items (queue o)) ++ [item]))
    as Hq'.
  { rewrite Hq. unfold deque_append. rewrite decide_False by lia.
    by rewrite decide_True by lia. }
  clear Hq.
  assert (length (tail (items (queue o))) = Z.to_nat (num_versions o) - 1)
    as Hlt by (rewrite length_tl; lia).
  split; rewrite ?Hnv, ?Hlv, ?Hq'; simpl; try done; try lia.
  { rewrite length_app, Hlt. simpl. lia. }
  intros i it Hi. unfold slot_ok. rewrite Hd, Hnv.
  destruct (decide (i < Z.to_nat (num_versions o) - 1)) as [Hlt'|Hge].
  - rewrite lookup_app_l in Hi by lia. rewrite lookup_tail in Hi.
    specialize (Hs _ _ Hi). unfold slot_ok in Hs.
    assert (expected_tag (num_versions o) (version (latest_version o) + 1) i
            = expected_tag (num_versions o) (version (latest_version o)) (S i))
      as ->.
    { unfold expected_tag. rewrite !decide_False by lia. lia. }
    destruct (save_dir o), it; try done.
    destruct Hs as [-> (d & v & Hf & Hv)]. split; [done|].
    destruct Hitem as (_ & _ & d' & ->).
    rewrite lookup_insert_ne; [by eauto|].
    simpl. apply not_eq_sym. apply mod_neq_window.
    unfold expected_tag. rewrite decide_False by lia. lia.
  - rewrite lookup_app_r in Hi by lia.
    rewrite Hlt in Hi.
    assert (i = Z.to_nat (num_versions o) - 1) as ->.
    { apply lookup_lt_Some in Hi. simpl in Hi. lia. }
    rewrite Nat.sub_diag in Hi. injection Hi as <-.
    assert (expected_tag (num_versions o) (version (latest_version o) + 1)
              (Z.to_nat (num_versions o) - 1)
            = (version (latest_version o) + 1)%Z) as ->.
    { unfold expected_tag. rewrite decide_False by lia. lia. }
    destruct (save_dir o).
    + destruct Hitem as (_ & -> & d' & ->). split; [done|].
      simpl. rewrite lookup_insert_eq. eauto.
    + by destruct Hitem as (-> & _).
Qed.

Lemma ring_inv_step o w r o' w' :
  ring_inv o w → step (o, w) = Ok (r, (o', w')) → ring_inv o' w'.
Proof.
  intros Hi Hs.
  destruct (decide (update_interval o = 0%Z)) as [Hu|Hu].
  { unfold step in Hs. cbn in Hs. unfold py_mod in Hs.
    by rewrite decide_True in Hs. }
  destruct (decide ((batch_counter o `mod` update_interval o)%Z
                    = (update_interval o - 1)%Z)) as [Hc|Hc].
  - apply step_update_ok in Hs
      as (g & g0 & ms & _ & _ & _ & _ & _ & _ & Hcfg & _ & Hlv & _ & Hrot);
      try done.
    case_decide as Hn.
    + by eapply ring_inv_rotated.
    + destruct Hcfg as (_ & _ & _ & _ & Hd & _ & Hnv & _ & _).
      destruct Hrot as (Hq & _ & Hf & _).
      destruct Hi as [Hn1 Hl Hmax Hlen Hsl].
      assert (num_versions o = 1%Z) as H1 by lia.
      split; rewrite ?Hnv, ?Hlv, ?Hq; simpl; try done; try lia.
      intros i item Hit. specialize (Hsl i item Hit).
      unfold slot_ok, expected_tag in *.
      rewrite Hd, Hnv, Hf. rewrite H1 in *. by rewrite decide_True in * by done.
  - rewrite step_skip_ok in Hs by done. injection Hs as <- <- <-.
    by apply (ring_inv_ext o w).
Qed.

(** ** Restoring a snapshot *)

Lemma load_state_dict_lookup (cur sd m' : state_dict) :
  load_state_dict cur sd = Ok m' →
  dom sd = dom cur ∧
  ∀ k, match cur !! k with
       | Some p => ∃ input t, sd !! k = Some input ∧
                     shape (t_data input) = shape (t_data p) ∧
                     copy_ p input = Ok t ∧ m' !! k = Some t
       | None => m' !! k = None
       end.
Proof.
  unfold load_state_dict. case_decide as Hd; [|done]. intros Hm.
  split; [done|]. intros k.
  pose proof (map_mapM_lookup _ _ _ Hm k) as Hk.
  destruct (cur !! k) as [p|]; [|done].
  destruct Hk as (t & Hf & Hk). destruct (sd !! k) as [input|]; [|done].
  case_decide; [|done]. by exists input, t.
Qed.

Lemma copy_same (p : tensor) (b : bool) :
  copy_ p (if b then cuda p else p) = Ok p.
Proof.
  unfold copy_. destruct p as [dev d].
  assert (t_data (if b then cuda (Tensor dev d) else Tensor dev d) = d)
    as -> by by destruct b.
  simpl. by rewrite copy_data_same_shape.
Qed.

(** One iteration of the loop of [set_params]. *)
Lemma set_params_module_ok o r i o1 w s' :
  set_params_module o r i (o1, w) = Ok (tt, s') →
  match modules w !! i with
  | None => s' = (o1, w)
  | Some cur =>
      ∃ sd sd' m',
        heap w !! r = Some sd ∧
        map_mapM (set_params_key o cur) sd = Ok sd' ∧
        load_state_dict cur sd' = Ok m' ∧
        s' = (o1, with_modules (<[i := m']> (modules w))
                    (with_heap (<[r := sd']> (heap w)) w))
  end.
Proof.
  unfold set_params_module. cbn.
  destruct (modules w !! i) as [cur|] eqn:Ei; [|by intros [= <-]].
  intros (sd & s1 & Hd & Hs)%bind_ok.
  unfold deref in Hd. cbn in Hd.
  destruct (heap w !! r) as [sd0|] eqn:Er; [|done]. injection Hd as <- <-.
  apply bind_ok in Hs as (sd' & s2 & [Hm ->]%lift_ok & Hs).
  apply bind_ok in Hs as ([] & s3 & [= <-] & Hs).
  apply bind_ok in Hs as (m' & s4 & [Hl ->]%lift_ok & Hs).
  apply bind_ok in Hs as ([] & s5 & [= <-] & [_ ->]%lift_ok).
  by exists sd0, sd', m'.
Qed.

(** The restored module agrees with the live one on running statistics and
    masks. *)
Lemma restore_keeps_special o (cur sd sd' m' : state_dict) key :
  map_mapM (set_params_key o cur) sd = Ok sd' →
  load_state_dict cur sd' = Ok m' →
  special key = true → m' !! key = cur !! key.
Proof.
  intros Hm Hl Hk. apply load_state_dict_lookup in Hl as [Hd Hl].
  specialize (Hl key). destruct (cur !! key) as [p|] eqn:Ec; [|done].
  destruct Hl as (input & t & Hi & _ & Hc & ->).
  pose proof (map_mapM_lookup _ _ _ Hm key) as Hs. rewrite Hi in Hs.
  destruct (sd !! key) as [old|]; [|done].
  destruct Hs as (y & Hf & [= ->]). unfold set_params_key in Hf.
  fold (special key) in Hf. rewrite Hk, Ec in Hf. injection Hf as <-.
  rewrite copy_same in Hc. by injection Hc as <-.
Qed.

(** The snapshot dictionary after the rebinding. *)
Lemma restore_rebinds o (cur sd sd' : state_dict) key :
  map_mapM (set_params_key o cur) sd = Ok sd' →
  special key = true → is_Some (sd !! key) →
  ∃ t, cur !! key = Some t ∧
       sd' !! key = Some (if stash_to_cpu o then cuda t else t).
Proof.
  intros Hm Hk [old Ho].
  pose proof (map_mapM_lookup _ _ _ Hm key) as Hs. rewrite Ho in Hs.
  destruct Hs as (y & Hf & ->). unfold set_params_key in Hf.
  fold (special key) in Hf. rewrite Hk in Hf.
  destruct (cur !! key) as [t|]; [|done]. injection Hf as <-. eauto.
Qed.

(** Keys that are neither running statistics nor masks keep their binding. *)
Lemma restore_keeps_ordinary o (cur sd sd' : state_dict) key :
  map_mapM (set_params_key o cur) sd = Ok sd' →
  special key = false → sd' !! key = sd !! key.
Proof.
  intros Hm Hk.
  pose proof (map_mapM_lookup _ _ _ Hm key) as Hs.
  destruct (sd !! key) as [old|]; [|done].
  destruct Hs as (y & Hf & ->). unfold set_params_key in Hf.
  fold (special key) in Hf. rewrite Hk in Hf. by injection Hf as <-.
Qed.

Global Instance restored_preorder : PreOrder restored.
Proof.
  split.
  - by intros [o w].
  - intros s1 s2 s3 (? & ? & ? & ? & ? & ? & H12) (? & ? & ? & ? & ? & ? & H23).
    unfold restored. split_and!; try congruence.
    intros j key Hk. by rewrite H23, H12.
Qed.

Lemma set_params_module_restored o r i s s' :
  set_params_module o r i s = Ok (tt, s') → restored s s'.
Proof.
  destruct s as [o1 w]. intros Hs%set_params_module_ok.
  destruct (modules w !! i) as [cur|] eqn:Ei; [|by subst].
  destruct Hs as (sd & sd' & m' & Hr & Hm & Hl & ->).
  unfold restored. simpl. rewrite !length_insert. split_and!; try done.
  intros j key Hk. destruct (decide (i = j)) as [->|Hne].
  - rewrite list_lookup_insert_eq by by eapply lookup_lt_Some.
    rewrite Ei. simpl. by eapply restore_keeps_special.
  - by rewrite list_lookup_insert_ne.
Qed.

Lemma set_params_loop_restored o l s s' :
  for_each l (λ '(r, i), set_params_module o r i) s = Ok (tt, s') →
  restored s s'.
Proof.
  apply (for_each_rel restored). intros [r i] s1 s2 _.
  apply set_params_module_restored.
Qed.

Lemma set_params_loop_heap_other o l s s' r :
  for_each l (λ '(r, i), set_params_module o r i) s = Ok (tt, s') →
  r ∉ l.*1 → heap s'.2 !! r = heap s.2 !! r.
Proof.
  intros Hl Hr.
  apply (for_each_rel _ (PreOrder0 := preorder_on (λ s, heap s.2 !! r)))
    in Hl; [done|].
  intros [r' i] [o1 w1] s2 Hin Hs%set_params_module_ok.
  destruct (modules w1 !! i); [|by subst].
  destruct Hs as (sd & sd' & m' & _ & _ & _ & ->). simpl.
  rewrite list_lookup_insert_ne; [done|]. intros ->. apply Hr.
  apply list_elem_of_fmap. by exists (r, i).
Qed.

Lemma set_params_loop_module_other o l s s' i :
  for_each l (λ '(r, i), set_params_module o r i) s = Ok (tt, s') →
  i ∉ l.*2 → modules s'.2 !! i = modules s.2 !! i.
Proof.
  intros Hl Hi.
  apply (for_each_rel _ (PreOrder0 := preorder_on (λ s, modules s.2 !! i)))
    in Hl; [done|].
  intros [r i'] [o1 w1] s2 Hin Hs%set_params_module_ok.
  destruct (modules w1 !! i'); [|by subst].
  destruct Hs as (sd & sd' & m' & _ & _ & _ & ->). simpl.
  rewrite list_lookup_insert_ne; [done|]. intros ->. apply Hi.
  apply list_elem_of_fmap. by exists (r, i).
Qed.

(** After the loop, the dictionary paired with a module binds every running
    statistic and mask it has to the tensor of that module. *)
Lemma set_params_loop_rebinds o l : ∀ s s',
  for_each l (λ '(r, i), set_params_module o r i) s = Ok (tt, s') →
  NoDup l.*1 → NoDup l.*2 →
  ∀ r i cur sd key,
    (r, i) ∈ l → modules s.2 !! i = Some cur → heap s.2 !! r = Some sd →
    special key = true → is_Some (sd !! key) →
    ∃ sd' t, heap s'.2 !! r = Some sd' ∧ cur !! key = Some t ∧
             sd' !! key = Some (if stash_to_cpu o then cuda t else t).
Proof.
  induction l as [|[r0 i0] l IH]; intros s s' Hl Hnr Hni r i cur sd key Hin
    Hcur Hsd Hk Hkey.
  - by apply elem_of_nil in Hin.
  - simpl in Hl. apply bind_ok in Hl as ([] & s1 & H1 & H2).
    rewrite !fmap_cons in Hnr, Hni. simpl in Hnr, Hni.
    apply NoDup_cons in Hnr as [Hr0 Hnr]. apply NoDup_cons in Hni as [Hi0 Hni].
    destruct s as [o1 w]. pose proof H1 as H1'.
    apply set_params_module_ok in H1. simpl in *.
    apply elem_of_cons in Hin as [[= -> ->]|Hin].
    + rewrite Hcur in H1. destruct H1 as (sd0 & sd' & m' & Hsd0 & Hm & _ & ->).
      rewrite Hsd in Hsd0. injection Hsd0 as <-.
      destruct (restore_rebinds o cur sd sd' key Hm Hk Hkey) as (t & Ht & Hb).
      exists sd', t. split; [|done].
      rewrite (set_params_loop_heap_other _ _ _ _ r0 H2 Hr0). simpl.
      apply list_lookup_insert_eq. by eapply lookup_lt_Some.
    + assert (r ≠ r0) as Hr.
      { intros ->. apply Hr0. apply list_elem_of_fmap. by exists (r0, i). }
      assert (i ≠ i0) as Hi.
      { intros ->. apply Hi0. apply list_elem_of_fmap. by exists (r, i0). }
      eapply (IH s1 s' H2 Hnr Hni r i cur sd key Hin); try done.
      * destruct (modules w !! i0); [|by subst].
        destruct H1 as (? & ? & ? & _ & _ & _ & ->). simpl.
        by rewrite list_lookup_insert_ne.
      * destruct (modules w !! i0); [|by subst].
        destruct H1 as (? & ? & ? & _ & _ & _ & ->). simpl.
        by rewrite list_lookup_insert_ne.
Qed.

Lemma set_params_ok sds v o w o' w' :
  set_params sds v (o, w) = Ok (tt, (o', w')) →
  o' = with_current_version v o ∧ restored (o, w) (o, w') ∧
  (NoDup sds →
   ∀ i r cur sd key,
     sds !! i = Some r → modules w !! i = Some cur → heap w !! r = Some sd →
     special key = true → is_Some (sd !! key) →
     ∃ sd' t, heap w' !! r = Some sd' ∧ cur !! key = Some t ∧
              sd' !! key = Some (if stash_to_cpu o then cuda t else t)).
Proof.
  unfold set_params. cbn.
  intros ([] & [o1 w1] & Hl & [= <- <-])%bind_ok.
  pose proof (set_params_loop_restored _ _ _ _ Hl) as Hr.
  pose proof Hr as (Ho & _). simpl in Ho. subst o1.
  split; [done|]. split; [done|].
  intros Hnd i r cur sd key Hi Hcur Hsd Hk Hkey.
  eapply (set_params_loop_rebinds _ _ _ _ Hl); try done.
  - by apply NoDup_zip_fst.
  - apply NoDup_zip_snd, NoDup_seq.
  - apply list_elem_of_lookup. exists i. apply lookup_zip_with_Some.
    exists r, i. split; [done|]. split; [done|].
    apply lookup_seq. split; [done|]. by eapply lookup_lt_Some.
Qed.

(** ** The other public calls *)

Lemma zero_grad_ok o w o' w' :
  zero_grad (o, w) = Ok (tt, (o', w')) →
  o' = o ∧ modules w' = modules w ∧ heap w' = heap w ∧ files w' = files w ∧
  (base_optimizer o = None → w' = w) ∧
  updates (log w') = updates (log w).
Proof.
  unfold zero_grad. cbn. destruct (base_optimizer o) as [b|].
  - cbn. unfold py_mod. case_decide; [done|]. cbn. case_decide.
    + intros [= <- <-]. simpl. split_and!; try done.
      rewrite updates_app. simpl. unfold updates at 2. simpl. lia.
    + by intros [= <- <-].
  - by intros [= <- <-].
Qed.

Lemma load_params_ok index o w o' w' :
  load_params index (o, w) = Ok (tt, (o', w')) →
  if decide (1 < num_versions o)%Z then
    ∃ sds v w1, get_from_queue index (o, w) = Ok ((sds, v), (o, w1)) ∧
                set_params sds v (o, w1) = Ok (tt, (o', w'))
  else (o', w') = (o, w).
Proof.
  unfold load_params. cbn. case_decide; [|by intros [= <- <-]].
  intros ([sds v] & [o1 w1] & Hg & Hs)%bind_ok.
  pose proof Hg as [(Ho & _) _]%get_from_queue_ok. simpl in Ho. subst o1.
  by exists sds, v, w1.
Qed.

Lemma load_params_frame index o w o' w' :
  load_params index (o, w) = Ok (tt, (o', w')) →
  same_config o o' ∧ base_optimizer o' = base_optimizer o ∧
  latest_version o' = latest_version o ∧ queue o' = queue o ∧
  batch_counter o' = batch_counter o ∧
  grads w' = grads w ∧ files w' = files w ∧ log w' = log w ∧
  length (modules w') = length (modules w) ∧
  ∀ j key, special key = true →
    modules w' !! j ≫= (.!! key) = modules w !! j ≫= (.!! key).
Proof.
  intros Hl%load_params_ok. case_decide.
  - destruct Hl as (sds & v & w1 & Hg & Hs).
    apply get_from_queue_ok in Hg as [(_ & Hm & Hg & Hf & Hlg) _].
    apply set_params_ok in Hs as (-> & (_ & Hg' & Hf' & Hl' & Hlen & _ & Hsp) & _).
    simpl in *. unfold same_config. simpl.
    split_and!; try done; try congruence.
    intros j key Hk. by rewrite Hsp, Hm.
  - injection Hl as -> ->. unfold same_config. done.
Qed.

Lemma exec_ok c o w o' w' :
  exec c (o, w) = Ok (tt, (o', w')) →
  same_config o o' ∧
  (base_optimizer o' = None ↔ base_optimizer o = None) ∧
  (ring_inv o w → ring_inv o' w').
Proof.
  destruct c as [| | | |ms g]; simpl.
  - intros (r & [o1 w1] & Hs & [= <- <-])%bind_ok.
    pose proof (step_frame _ _ _ _ _ Hs) as (Hc & _ & _ & Hb & _).
    split_and!; try done. intros Hi. by eapply ring_inv_step.
  - intros (-> & _ & _ & Hf & _)%zero_grad_ok.
    split_and!; try done. by apply ring_inv_ext.
  - intros (Hc & Hb & Hl & Hq & _ & _ & Hf & _)%(load_params_frame 0).
    split_and!; try done; [by rewrite Hb|].
    destruct Hc as (_ & _ & _ & _ & Hd & _ & Hn & _).
    by apply ring_inv_ext.
  - intros (Hc & Hb & Hl & Hq & _ & _ & Hf & _)%(load_params_frame (-1)).
    split_and!; try done; [by rewrite Hb|].
    destruct Hc as (_ & _ & _ & _ & Hd & _ & Hn & _).
    by apply ring_inv_ext.
  - intros [= <- <-]. split_and!; try done. by apply ring_inv_ext.
Qed.

Lemma calls_ok calls o w o' w' :
  for_each calls exec (o, w) = Ok (tt, (o', w')) →
  same_config o o' ∧
  (base_optimizer o' = None ↔ base_optimizer o = None) ∧
  (ring_inv o w → ring_inv o' w').
Proof.
  revert o w. induction calls as [|c calls IH]; intros o w; simpl.
  - intros [= <- <-]. done.
  - intros ([] & [o1 w1] & Hc & Hr)%bind_ok.
    apply exec_ok in Hc as (Hc1 & Hb1 & Hi1).
    apply IH in Hr as (Hc2 & Hb2 & Hi2).
    split_and!.
    + unfold same_config in *. destruct_and!. split_and!; congruence.
    + by rewrite Hb2.
    + auto.
Qed.

(** The tags of a ring that satisfies the invariant. *)
Lemma ring_inv_tags o w :
  ring_inv o w →
  ring_tags o w =
    (λ i, Some (expected_tag (num_versions o) (version (latest_version o)) i))
      <$> seq 0 (Z.to_nat (num_versions o)).
Proof.
  intros [Hn Hl Hmax Hlen Hs]. unfold ring_tags.
  apply list_eq. intros i. rewrite !list_lookup_fmap.
  destruct (items (queue o) !! i) as [item|] eqn:Hi; simpl.
  - rewrite lookup_seq_lt by (apply lookup_lt_Some in Hi; lia). simpl.
    f_equal. specialize (Hs i item Hi). unfold slot_ok in Hs.
    destruct (save_dir o), item; try done; simpl.
    + destruct Hs as [_ (d & v & -> & <-)]. done.
    + by rewrite Hs.
  - rewrite lookup_seq_ge; [done|]. apply lookup_ge_None in Hi. lia.
Qed.

(** ** The claims about the optimizer *)

Lemma zero_grad_spec o w :
  update_interval o ≠ 0%Z →
  zero_grad (o, w) =
    Ok (tt, (o,
      match base_optimizer o with
      | Some b => if decide ((batch_counter o `mod` update_interval o)%Z = 0%Z)
                  then with_grads (zero_grads (param_groups b) (grads w))
                         (with_log (log w ++ [EvZeroGrad]) w)
                  else w
      | None => w
      end)).
Proof.
  intros Hu. unfold zero_grad. cbn. destruct (base_optimizer o) as [b|]; [|done].
  cbn. unfold py_mod. rewrite decide_False by done. cbn.
  case_decide; done.
Qed.

Lemma mod_succ (c u : Z) :
  (1 ≤ u)%Z → (c `mod` u + 1 < u)%Z → ((c + 1) `mod` u = c `mod` u + 1)%Z.
Proof.
  intros Hu Hlt. pose proof (Z.mod_pos_bound c u ltac:(lia)).
  symmetry. apply (Z.mod_unique_pos _ _ (c `div` u)); [lia|].
  pose proof (Z.div_mod c u ltac:(lia)). lia.
Qed.

(** The clearings in a part of a window that crosses no boundary. *)
Lemma window_clears k : ∀ o w o' w',
  (1 ≤ update_interval o)%Z →
  (batch_counter o `mod` update_interval o + Z.of_nat k ≤ update_interval o)%Z →
  for_each (window k) exec (o, w) = Ok (tt, (o', w')) →
  clears (log w') = clears (log w) +
    (if decide ((batch_counter o `mod` update_interval o)%Z = 0%Z ∧ 0 < k)
     then match base_optimizer o with Some _ => 1 | None => 0 end
     else 0).
Proof.
  induction k as [|k IH]; intros o w o' w' Hu Hk.
  - intros [= <- <-]. rewrite decide_False by lia. lia.
  - change (window (S k)) with (CallZeroGrad :: CallStep :: window k).
    simpl. intros ([] & [o1 w1] & Hz & Hr)%bind_ok.
    apply bind_ok in Hr as ([] & [o2 w2] & Hs & Hr).
    apply bind_ok in Hs as (r & [o3 w3] & Hs & [= <- <-]).
    rewrite zero_grad_spec in Hz by lia. injection Hz as <- <-.
    apply step_frame in Hs as (Hc & Hbc & _ & Hb & Hcl).
    destruct Hc as (_ & _ & _ & _ & _ & _ & _ & _ & Hu2).
    pose proof (Z.mod_pos_bound (batch_counter o) (update_interval o)
                  ltac:(lia)) as Hbd.
    apply IH in Hr; [|lia|]; last first.
    { rewrite Hu2, Hbc. destruct (decide (k = 0)) as [->|Hk0].
      - pose proof (Z.mod_pos_bound (batch_counter o + 1) (update_interval o)
                      ltac:(lia)). lia.
      - rewrite mod_succ by lia. lia. }
    rewrite Hr, Hcl. rewrite Hu2, Hbc.
    rewrite (decide_False (P := _ ∧ 0 < k)); last first.
    { intros [Hm Hk0]. rewrite mod_succ in Hm by lia. lia. }
    rewrite Nat.add_0_r.
    destruct (decide ((batch_counter o `mod` update_interval o)%Z = 0%Z))
      as [Hm|Hm].
    + rewrite decide_True by (split; [done|lia]).
      destruct (base_optimizer o); simpl; [|lia].
      rewrite clears_app. unfold clears at 2. simpl. lia.
    + rewrite decide_False by (by intros [? _]).
      destruct (base_optimizer o); simpl; lia.
Qed.

Lemma zero_grads_nil g : zero_grads [[]] g = g.
Proof. done. Qed.

(** C1 (as amended).  For [update_interval >= 1]: a call of [step] made
    when [batch_counter mod update_interval] differs from
    [update_interval - 1] returns none, adds one to [batch_counter] and
    changes nothing else, so no update is made; a call made when the two are
    equal, if it returns, has called the wrapped [step()] exactly once when
    there is a wrapped optimizer and not at all when the parameter list was
    empty, and has added one to [latest_version] and to [batch_counter]. *)
Theorem step_cadence o w :
  (1 ≤ update_interval o)%Z →
  ((batch_counter o `mod` update_interval o ≠ update_interval o - 1)%Z →
   step (o, w) = Ok (None, (with_batch_counter (batch_counter o + 1) o, w))) ∧
  ((batch_counter o `mod` update_interval o = update_interval o - 1)%Z →
   ∀ r o' w', step (o, w) = Ok (r, (o', w')) →
     updates (log w') = updates (log w) +
       match base_optimizer o with Some _ => 1 | None => 0 end ∧
     version (latest_version o') = (version (latest_version o) + 1)%Z ∧
     batch_counter o' = (batch_counter o + 1)%Z).
Proof.
  intros Hu. split.
  - intros Hc. apply step_skip_ok; [lia|done].
  - intros Hc r o' w' Hs.
    apply step_update_ok in Hs
      as (g & g0 & ms & _ & _ & _ & _ & _ & Hl & _ & _ & Hlv & Hbc & _);
      [|lia|done].
    rewrite Hl, updates_app, updates_update_events, Hlv. done.
Qed.

(** C2 (as amended).  After construction and after any sequence of calls
    that return, the ring holds exactly [num_versions] snapshots; slot [i]
    (the oldest is slot 0) is tagged
    [max 0 (latest_version - (num_versions - 1 - i))] when
    [num_versions >= 2] and 0 when [num_versions = 1]; so the tags are the
    contiguous integers from [latest_version - num_versions + 1] to
    [latest_version] once [num_versions >= 2] and at least
    [num_versions - 1] real updates have been made. *)
Theorem ring_size_and_tags optim_name mp model_ps scale n vf macrobatch clip
    dir stash args w0 o0 w1 calls o w :
  init optim_name mp model_ps scale n vf macrobatch clip dir stash args w0
    = Ok (o0, w1) →
  for_each calls exec (o0, w1) = Ok (tt, (o, w)) →
  (1 ≤ num_versions o)%Z ∧
  length (items (queue o)) = Z.to_nat (num_versions o) ∧
  ring_tags o w =
    (λ i, Some (expected_tag (num_versions o) (version (latest_version o)) i))
      <$> seq 0 (Z.to_nat (num_versions o)) ∧
  ((2 ≤ num_versions o)%Z →
   (num_versions o - 1 ≤ version (latest_version o))%Z →
   ring_tags o w =
     (λ i, Some (claimed_tag (num_versions o) (version (latest_version o)) i))
       <$> seq 0 (Z.to_nat (num_versions o))).
Proof.
  intros Hi Hc. apply init_inv in Hi as (Hinv & _).
  apply calls_ok in Hc as (_ & _ & Hk). specialize (Hk Hinv).
  pose proof (ring_inv_tags o w Hk) as Ht.
  destruct Hk as [Hn Hl Hmax Hlen Hs].
  split_and!; try done.
  intros Hn2 Hlv. rewrite Ht. apply list_eq. intros i.
  rewrite !list_lookup_fmap.
  destruct (seq 0 (Z.to_nat (num_versions o)) !! i) as [j|] eqn:Hj; [|done].
  simpl. apply lookup_seq in Hj as [-> Hj]. simpl.
  unfold expected_tag, claimed_tag. rewrite decide_False by lia.
  by rewrite Z.max_r by lia.
Qed.

(** C4.  A restore ([set_params], hence [load_old_params] and
    [load_new_params]) that returns leaves every field of every live module
    whose name contains "running_" or "mask" as it was: such a field is
    never overwritten from the snapshot, what is loaded for it is the live
    module's own current tensor. *)
Theorem restore_keeps_running_statistics_and_masks
    (m : M (optimizer * world) unit) o w o' w' :
  (m = load_old_params ∨ m = load_new_params ∨
   ∃ state_dicts v, m = set_params state_dicts v) →
  m (o, w) = Ok (tt, (o', w')) →
  length (modules w') = length (modules w) ∧
  ∀ j key,
    str_in "running_" key = true ∨ str_in "mask" key = true →
    modules w' !! j ≫= (.!! key) = modules w !! j ≫= (.!! key).
Proof.
  intros Hm Hr.
  assert (length (modules w') = length (modules w) ∧
          ∀ j key, special key = true →
            modules w' !! j ≫= (.!! key) = modules w !! j ≫= (.!! key))
    as [Hlen Hsp].
  { destruct Hm as [->| [->|(sds & v & ->)]].
    - by apply (load_params_frame 0) in Hr as (_ & _ & _ & _ & _ & _ & _ & _ & ? & ?).
    - by apply (load_params_frame (-1)) in Hr
        as (_ & _ & _ & _ & _ & _ & _ & _ & ? & ?).
    - by apply set_params_ok in Hr as (_ & (_ & _ & _ & _ & ? & _ & ?) & _). }
  split; [done|]. intros j key Hk. apply Hsp. unfold special.
  destruct Hk as [->| ->]; [done|]. by rewrite orb_true_r.
Qed.

(** C5 (as amended).  For [update_interval >= 1], [zero_grad] returns and
    calls the wrapped [zero_grad()], which clears every gradient of the
    parameter groups, exactly when there is a wrapped optimizer and
    [batch_counter mod update_interval = 0]; otherwise it changes nothing.
    Only [step] moves [batch_counter]: in a window of [update_interval]
    iterations that each call [zero_grad] and then [step], started at
    [batch_counter mod update_interval = 0], the gradients are cleared
    exactly once (not at all without a wrapped optimizer). *)
Theorem zero_grad_gate o w :
  (1 ≤ update_interval o)%Z →
  (∃ w', zero_grad (o, w) = Ok (tt, (o, w')) ∧
     grads w' =
       (if decide ((batch_counter o `mod` update_interval o)%Z = 0%Z)
        then zero_grads (getattr_param_groups o) (grads w) else grads w) ∧
     clears (log w') = clears (log w) +
       (if decide ((batch_counter o `mod` update_interval o)%Z = 0%Z)
        then match base_optimizer o with Some _ => 1 | None => 0 end
        else 0) ∧
     modules w' = modules w ∧ heap w' = heap w ∧ files w' = files w) ∧
  ((batch_counter o `mod` update_interval o)%Z = 0%Z →
   ∀ o' w', for_each (window (Z.to_nat (update_interval o))) exec (o, w)
              = Ok (tt, (o', w')) →
     clears (log w') = clears (log w) +
       match base_optimizer o with Some _ => 1 | None => 0 end).
Proof.
  intros Hu. split.
  - eexists. split; [apply zero_grad_spec; lia|].
    unfold getattr_param_groups.
    destruct (base_optimizer o) as [b|]; case_decide; simpl;
      rewrite ?clears_app, ?zero_grads_nil; split_and!; try done; try lia.
  - intros Hm o' w' Hr. apply window_clears in Hr; [|done|lia].
    rewrite Hr. rewrite decide_True by (split; [done|lia]). done.
Qed.

(** C6 (as amended).  On a real update that returns, with a wrapped
    optimizer [b]: every gradient that is not none of every parameter of the
    first parameter group (each listed once) is divided by
    [update_interval], the gradients of the other groups are left as they
    are, and the wrapped [step()] is called on the result (clipped, when
    clipping is configured).  [g_pre] are the gradients the averaging loop
    starts from: those of the call or, under mixed precision, those that
    [model_grads_to_master_grads] has returned, divided by the loss scale
    where [step] does so. *)
Theorem step_averages_first_group o w b r o' w' :
  (1 ≤ update_interval o)%Z →
  (batch_counter o `mod` update_interval o = update_interval o - 1)%Z →
  base_optimizer o = Some b →
  step (o, w) = Ok (r, (o', w')) →
  ∃ g_pre group0 g_avg st ms,
    match model_parameters o with
    | Some mp =>
        ∃ g_hook,
          model_grads_to_master_grads mp (master_parameters o) (grads w)
            = Ok g_hook ∧
          g_pre = unscaled o g_hook
    | None => g_pre = grads w
    end ∧
    param_groups b !! 0 = Some group0 ∧
    (NoDup group0 → ∀ p, p ∈ group0 →
       g_avg !! p = (λ d, div_int d (update_interval o)) <$> g_pre !! p) ∧
    (∀ p, p ∉ group0 → g_avg !! p = g_pre !! p) ∧
    clipped o group0 g_avg = Ok (grads w') ∧
    optim_step (opt_state b) (param_groups b) (grads w') (modules w)
      = Ok (st, ms, r) ∧
    base_optimizer o' = Some (BaseOpt (param_groups b) st) ∧
    updates (log w') = updates (log w) + 1.
Proof.
  intros Hu Hc Hb Hs.
  apply step_update_ok in Hs
    as (g_pre & group0 & ms & Hpre & Hg0 & Hg & Hbase & _ & Hl & _);
    [|lia|done].
  rewrite Hb in Hbase. destruct Hbase as (st & Hst & Hb').
  exists g_pre, group0, (average_grads (update_interval o) group0 g_pre),
    st, ms.
  split_and!; try done.
  - unfold getattr_param_groups in Hg0. rewrite Hb in Hg0.
    unfold py_index in Hg0. rewrite (decide_False (P := (0 < 0)%Z)) in Hg0 by lia.
    case_decide; [|done]. change (Z.to_nat 0) with 0 in Hg0.
    destruct (param_groups b !! 0) eqn:E; by simplify_eq.
  - intros Hnd p Hp. by apply average_grads_in.
  - intros p Hp. by apply average_grads_notin.
  - rewrite Hl, updates_app, updates_update_events, Hb. done.
Qed.

(** C7.  With [num_versions = 1], [load_old_params] and [load_new_params]
    return without an exception and leave the optimizer, the live modules
    and everything else exactly as they were. *)
Theorem load_params_noop_single_version o w :
  num_versions o = 1%Z →
  load_old_params (o, w) = Ok (tt, (o, w)) ∧
  load_new_params (o, w) = Ok (tt, (o, w)).
Proof.
  intros Hn. unfold load_old_params, load_new_params. cbn.
  rewrite Hn. done.
Qed.


(** C10 (as amended).  [set_params] changes the dictionaries it is given:
    in the dictionary paired with a live module, every key whose name
    contains "running_" or "mask" is rebound to that module's current
    tensor, moved to the GPU when [stash_to_cpu] is set (the dictionaries of
    a snapshot being distinct objects).  When the snapshots are kept in
    memory these are the very dictionaries of the ring slot, which therefore
    holds the live tensors for those keys after [load_old_params] or
    [load_new_params]; when they are kept on disk ([save_dir] is set) the
    dictionaries that are changed are copies just loaded, and neither the
    files nor the ring change. *)
Theorem restore_rebinds_snapshot o w o' w' :
  (∀ state_dicts v,
     set_params state_dicts v (o, w) = Ok (tt, (o', w')) →
     NoDup state_dicts →
     ∀ i r cur sd key,
       state_dicts !! i = Some r → modules w !! i = Some cur →
       heap w !! r = Some sd →
       str_in "running_" key = true ∨ str_in "mask" key = true →
       is_Some (sd !! key) →
       ∃ sd' t, heap w' !! r = Some sd' ∧ cur !! key = Some t ∧
                sd' !! key = Some (if stash_to_cpu o then cuda t else t)) ∧
  (∀ index state_dicts v,
     load_params index (o, w) = Ok (tt, (o', w')) →
     (1 < num_versions o)%Z → save_dir o = None →
     py_index (items (queue o)) index = Ok (InMemory state_dicts v) →
     NoDup state_dicts →
     queue o' = queue o ∧
     ∀ i r cur sd key,
       state_dicts !! i = Some r → modules w !! i = Some cur →
       heap w !! r = Some sd →
       str_in "running_" key = true ∨ str_in "mask" key = true →
       is_Some (sd !! key) →
       ∃ sd' t, heap w' !! r = Some sd' ∧ cur !! key = Some t ∧
                sd' !! key = Some (if stash_to_cpu o then cuda t else t)) ∧
  (∀ index dir,
     load_params index (o, w) = Ok (tt, (o', w')) →
     save_dir o = Some dir →
     queue o' = queue o ∧ files w' = files w).
Proof.
  assert (∀ key, str_in "running_" key = true ∨ str_in "mask" key = true →
                 special key = true) as Hsp.
  { intros key [Hk|Hk]; unfold special; rewrite Hk; [done|].
    by rewrite orb_true_r. }
  split_and!.
  - intros sds v Hs Hnd i r cur sd key Hi Hcur Hsd Hk Hkey.
    apply set_params_ok in Hs as (_ & _ & Hreb). eapply Hreb; eauto.
  - intros index sds v Hl Hn Hd Hidx Hnd.
    pose proof (load_params_frame _ _ _ _ _ Hl) as (_ & _ & _ & Hq & _).
    split; [done|].
    apply load_params_ok in Hl. rewrite decide_True in Hl by done.
    destruct Hl as (sds' & v' & w1 & Hg & Hs).
    rewrite (get_from_queue_eq _ _ _ _ Hidx), Hd in Hg.
    injection Hg as <- <- <-.
    intros i r cur sd key Hi Hcur Hsd Hk Hkey.
    apply set_params_ok in Hs as (_ & _ & Hreb). eapply Hreb; eauto.
  - intros index dir Hl Hd.
    by apply load_params_frame in Hl as (_ & _ & _ & ? & _ & _ & ? & _).
Qed.

(** ** Runs of calls *)

Lemma for_each_app {S X} (xs ys : list X) (body : X → M S unit) (s : S) :
  for_each (xs ++ ys) body s
  = bind (for_each xs body) (λ _, for_each ys body) s.
Proof.
  revert s. induction xs as [|x xs IH]; intros s; simpl; [done|].
  unfold bind in *. destruct (body x s) as [[[] s1]|e]; [|done].
  apply IH.
Qed.

(** A run that returns leaves the state [after] it. *)
Lemma after_ok calls s :
  is_ok_b (for_each calls exec s) = true →
  for_each calls exec s = Ok (tt, after calls s).
Proof.
  unfold after. by destruct (for_each calls exec s) as [[[] s']|e].
Qed.

Lemma after_snoc calls c s :
  is_ok_b (for_each calls exec s) = true →
  is_ok_b (exec c (after calls s)) = true →
  exec c (after calls s) = Ok (tt, after (calls ++ [c]) s).
Proof.
  intros Hok Hc. unfold after at 2. rewrite for_each_app. unfold bind.
  rewrite (after_ok calls s Hok). simpl. unfold bind.
  by destruct (exec c (after calls s)) as [[[] s']|e].
Qed.

Lemma for_each_snoc_ok calls c s :
  is_ok_b (for_each calls exec s) = true →
  is_ok_b (exec c (after calls s)) = true →
  is_ok_b (for_each (calls ++ [c]) exec s) = true.
Proof.
  intros Hok Hc. rewrite for_each_app. unfold bind.
  rewrite (after_ok calls s Hok). simpl. unfold bind.
  by destruct (exec c (after calls s)) as [[[] s']|e].
Qed.

Lemma step_after calls s :
  is_ok_b (for_each calls exec s) = true →
  returns_none (step (after calls s)) = true →
  step (after calls s) = Ok (None, after (calls ++ [CallStep]) s).
Proof.
  intros Hok Hs. unfold after at 2. rewrite for_each_app. unfold bind.
  rewrite (after_ok calls s Hok). simpl. unfold bind.
  by destruct (step (after calls s)) as [[[r|] s']|e].
Qed.

Lemma after_nil s : after [] s = s.
Proof. done. Qed.

(** A call that returns after a run extends the run. *)
Lemma call_after (m : M (optimizer * world) unit) c calls s :
  (∀ x, exec c x = m x) →
  is_ok_b (for_each calls exec s) = true →
  is_ok_b (m (after calls s)) = true →
  m (after calls s) = Ok (tt, after (calls ++ [c]) s).
Proof. intros Hm Hok Hc. rewrite <- Hm in *. by apply after_snoc. Qed.

Lemma call_first (m : M (optimizer * world) unit) c s :
  (∀ x, exec c x = m x) →
  is_ok_b (m s) = true → m s = Ok (tt, after [c] s).
Proof. intros Hm Hc. by apply (call_after m c [] s). Qed.

Lemma step_first s :
  returns_none (step s) = true → step s = Ok (None, after [CallStep] s).
Proof. intros Hs. by apply (step_after [] s). Qed.

(** States are pairs. *)
Lemma run_eta {A} (m : M (optimizer * world) A) s r s' :
  m s = Ok (r, s') → m (s.1, s.2) = Ok (r, (s'.1, s'.2)).
Proof. by destruct s, s'. Qed.

Lemma load_old_params_eq : load_old_params = load_params 0.
Proof. done. Qed.

Lemma load_new_params_eq : load_new_params = load_params (-1).
Proof. done. Qed.

(** A method that returns leaves the state [state_after] it. *)
Lemma op_after_unit (m : M (optimizer * world) unit) o w :
  is_ok_b (m (o, w)) = true →
  m (o, w)
    = Ok (tt, ((state_after m (o, w)).1, (state_after m (o, w)).2)).
Proof.
  unfold state_after. by destruct (m (o, w)) as [[[] [o' w']]|e].
Qed.

Lemma op_after_pair {A B} (d : A * B) (m : M (optimizer * world) (A * B))
    o w :
  is_ok_b (m (o, w)) = true →
  m (o, w)
    = Ok (((value_after d m (o, w)).1, (value_after d m (o, w)).2),
          ((state_after m (o, w)).1, (state_after m (o, w)).2)).
Proof.
  unfold value_after, state_after.
  by destruct (m (o, w)) as [[[a b] [o' w']]|e].
Qed.

(** ** Further properties *)

Lemma py_index_nat {X} (l : list X) (i : nat) (x : X) :
  l !! i = Some x → py_index l (Z.of_nat i) = Ok x.
Proof.
  intros Hi. pose proof (lookup_lt_Some _ _ _ Hi) as Hlt.
  unfold py_index. cbv zeta.
  rewrite (decide_False (P := (Z.of_nat i < 0)%Z)) by lia.
  rewrite decide_True by lia. by rewrite Nat2Z.id, Hi.
Qed.

Lemma py_index_negative {X} (l : list X) (i : Z) :
  (i < 0)%Z → (0 ≤ i + Z.of_nat (length l))%Z →
  py_index l i = py_index l (i + Z.of_nat (length l)).
Proof.
  intros Hi Hn. unfold py_index. cbv zeta.
  rewrite (decide_True (P := (i < 0)%Z)) by done.
  by rewrite (decide_False (P := (i + _ < 0)%Z)) by lia.
Qed.

Lemma py_index_out_of_range {X} (l : list X) (i : Z) :
  ¬ (- Z.of_nat (length l) ≤ i < Z.of_nat (length l))%Z →
  py_index l i = Raise IndexError.
Proof.
  intros Hi. unfold py_index. cbv zeta.
  destruct (decide (i < 0)%Z); (destruct (decide _) as [?|?]; [lia|done]).
Qed.

Lemma div_succ_skip (c u : Z) :
  (1 ≤ u)%Z → (c `mod` u ≠ u - 1)%Z → ((c + 1) `div` u = c `div` u)%Z.
Proof.
  intros Hu Hm. pose proof (Z.mod_pos_bound c u ltac:(lia)).
  symmetry. apply (Z.div_unique_pos _ _ _ (c `mod` u + 1)); [lia|].
  pose proof (Z.div_mod c u ltac:(lia)). lia.
Qed.

Lemma div_succ_update (c u : Z) :
  (1 ≤ u)%Z → (c `mod` u = u - 1)%Z → ((c + 1) `div` u = c `div` u + 1)%Z.
Proof.
  intros Hu Hm. symmetry. apply (Z.div_unique_pos _ _ _ 0); [lia|].
  pose proof (Z.div_mod c u ltac:(lia)). lia.
Qed.

Lemma concat_seq_blocks (a m n : nat) :
  concat ((λ j, seq (a + j * m) m) <$> seq 0 n) = seq a (n * m).
Proof.
  induction n as [|n IH]; [done|].
  rewrite seq_S, fmap_app, concat_app, IH. simpl.
  rewrite app_nil_r. replace (m + n * m) with (n * m + m) by lia.
  by rewrite seq_app.
Qed.

Lemma lookup_concat_replicate {X} (ds : list X) (n j i : nat) :
  j < n → i < length ds →
  concat (replicate n ds) !! (j * length ds + i) = ds !! i.
Proof.
  revert j. induction n as [|n IH]; intros j Hj Hi; [lia|]. simpl.
  destruct j as [|j]; simpl.
  - by rewrite lookup_app_l.
  - rewrite lookup_app_r by lia.
    replace (length ds + j * length ds + i - length ds)
      with (j * length ds + i) by lia.
    apply IH; [lia|done].
Qed.

Lemma map_foldM_total {X Y} (body : string → X → Y → result Y) (b : Y)
    (m : gmap string X) :
  (∀ k x acc, m !! k = Some x → is_ok (body k x acc)) →
  is_ok (map_foldM body b m).
Proof.
  unfold map_foldM.
  apply (map_fold_weak_ind (λ r (m : gmap string X),
    (∀ k x acc, m !! k = Some x → is_ok (body k x acc)) → is_ok r)).
  - intros _. by eexists.
  - intros k x m0 r Hk IH Hb.
    destruct IH as [acc ->].
    { intros k' x' acc' Hk'. apply Hb. rewrite lookup_insert_ne; [done|].
      intros ->. congruence. }
    apply Hb. by rewrite lookup_insert_eq.
Qed.

Lemma map_mapM_total {X Y} (f : string → X → result Y) (m : gmap string X) :
  (∀ k x, m !! k = Some x → is_ok (f k x)) → is_ok (map_mapM f m).
Proof.
  intros Hf. unfold map_mapM. apply map_foldM_total.
  intros k x acc Hk. destruct (Hf k x Hk) as [y ->]. by eexists.
Qed.

Lemma py_index_last {X} (l : list X) (x : X) :
  py_index (l ++ [x]) (-1) = Ok x.
Proof.
  unfold py_index. cbv zeta. rewrite length_app.
  destruct (decide (-1 < 0)%Z) as [_|]; [|lia].
  destruct (decide _) as [_|]; [|simpl in *; lia].
  replace (Z.to_nat (-1 + Z.of_nat (length l + length [x])))
    with (length l) by (simpl; lia).
  by rewrite list_lookup_middle.
Qed.

(** ** Construction *)

Lemma init_fields optim_name mp model_ps scale n vf macrobatch clip dir stash
    args w o w' :
  init optim_name mp model_ps scale n vf macrobatch clip dir stash args w
    = Ok (o, w') →
  current_version o = Version_new ∧ verbose_freq o = vf ∧
  master_parameters o = mp ∧ model_parameters o = model_ps ∧
  loss_scale o = scale ∧ clip_grad o = clip ∧
  (params_len mp ≠ 0 →
   ∃ st, optim_new optim_name mp args = Ok st ∧
     base_optimizer o = Some (BaseOpt (match mp with
                                       | ParamList ps => [ps]
                                       | ParamGroups gs => gs
                                       end) st) ∧
     log w' = log w).
Proof.
  intros Hi. pose proof (init_inv _ _ _ _ _ _ _ _ _ _ _ _ _ _ Hi)
    as ([Hn _ _ _ _] & Hnv & _).
  revert Hi. unfold init.
  set (n' := if macrobatch then Z.min 2 n else n) in *.
  set (o0 := Optimizer _ _ _ _ _ _ _ _ _ _ _ _ _ _ _).
  intros Hi.
  destruct (bind _ _ _) as [[[] [o1 w1]]|] eqn:Hc; [|done].
  injection Hi as -> ->.
  apply bind_ok in Hc as ([] & [o2 w2] & Hb & Hq).
  assert (num_versions o2 = n') as Hn2.
  { case_decide as Hp.
    - by injection Hb as <- <-.
    - apply bind_ok in Hb as (st & s3 & [Hst ->]%lift_ok & Hb).
      by injection Hb as <- <-. }
  destruct (initialize_queue_ok o2 w2) as (q' & buf & h' & fs' & Hr & _).
  { rewrite Hn2. by rewrite Hnv in Hn. }
  rewrite Hr in Hq. injection Hq as <- <-. simpl.
  case_decide as Hp.
  - injection Hb as <- <-. by split_and!.
  - apply bind_ok in Hb as (st & s3 & [Hst ->]%lift_ok & Hb).
    injection Hb as <- <-. split_and!; try done. intros _. by exists st.
Qed.

(** X1.  What [__init__] leaves: under macrobatching at most two versions
    are kept and a real update is made every [num_versions] calls, otherwise
    every call; both version counters and the batch counter start at 0; the
    arguments are stored as given; the live modules and the gradients are
    not touched; and the update interval is at least 1, so that no later
    [%] divides by zero. *)
Theorem init_configuration optim_name mp model_ps scale n vf macrobatch clip
    dir stash args w o w' :
  init optim_name mp model_ps scale n vf macrobatch clip dir stash args w
    = Ok (o, w') →
  num_versions o = (if macrobatch then Z.min 2 n else n) ∧
  update_interval o = (if macrobatch then num_versions o else 1%Z) ∧
  (1 ≤ num_versions o)%Z ∧ (1 ≤ update_interval o)%Z ∧
  latest_version o = Version_new ∧ current_version o = Version_new ∧
  batch_counter o = 0%Z ∧ verbose_freq o = vf ∧
  master_parameters o = mp ∧ model_parameters o = model_ps ∧
  loss_scale o = scale ∧ clip_grad o = clip ∧ save_dir o = dir ∧
  stash_to_cpu o = stash ∧
  modules w' = modules w ∧ grads w' = grads w.
Proof.
  intros Hi.
  pose proof (init_inv _ _ _ _ _ _ _ _ _ _ _ _ _ _ Hi)
    as ([Hn _ _ _ _] & Hnv & Hu & Hl & Hb & Hd & Hs & _ & Hm & Hg).
  pose proof (init_fields _ _ _ _ _ _ _ _ _ _ _ _ _ _ Hi)
    as (Hc & Hvf & Hmp & Hmo & Hls & Hcl & _).
  split_and!; try done.
  - rewrite Hu, Hnv. by destruct macrobatch.
  - rewrite Hu. rewrite Hnv in Hn. by destruct macrobatch.
Qed.

(** X2.  When [__init__] returns and when it raises: it returns exactly
    when the number of versions kept (at most two under macrobatching) is at
    least 1 and the wrapped optimizer could be built (none is built for an
    empty parameter list); an exception of the wrapped constructor is
    passed on; otherwise a negative number of versions raises [ValueError]
    (from [deque(maxlen=...)]) and zero versions raise [IndexError] (from
    reading slot 0 of the empty ring). *)
Theorem init_returns_iff optim_name mp model_ps scale n vf (macrobatch : bool)
    clip dir stash args w :
  (is_ok (init optim_name mp model_ps scale n vf macrobatch clip dir stash
            args w) ↔
   (1 ≤ (if macrobatch then Z.min 2 n else n))%Z ∧
   (params_len mp = 0 ∨ is_ok (optim_new optim_name mp args))) ∧
  (∀ e, params_len mp ≠ 0 → optim_new optim_name mp args = Raise e →
     init optim_name mp model_ps scale n vf macrobatch clip dir stash args w
       = Raise e) ∧
  (params_len mp = 0 ∨ is_ok (optim_new optim_name mp args) →
   ((if macrobatch then Z.min 2 n else n) < 0)%Z →
   init optim_name mp model_ps scale n vf macrobatch clip dir stash args w
     = Raise ValueError) ∧
  (params_len mp = 0 ∨ is_ok (optim_new optim_name mp args) →
   (if macrobatch then Z.min 2 n else n) = 0%Z →
   init optim_name mp model_ps scale n vf macrobatch clip dir stash args w
     = Raise IndexError).
Proof.
  assert (∀ e, params_len mp ≠ 0 → optim_new optim_name mp args = Raise e →
     init optim_name mp model_ps scale n vf macrobatch clip dir stash args w
       = Raise e) as Hraise.
  { intros e Hp He. unfold init. unfold bind at 1.
    rewrite decide_False by done. unfold bind at 1. by rewrite He. }
  assert (params_len mp = 0 ∨ is_ok (optim_new optim_name mp args) →
   ((if macrobatch then Z.min 2 n else n) < 0)%Z →
   init optim_name mp model_ps scale n vf macrobatch clip dir stash args w
     = Raise ValueError) as Hneg.
  { intros Hp Hn. unfold init. unfold bind at 1.
    case_decide as Hd.
    - cbn. unfold deque_new. by rewrite decide_True.
    - destruct Hp as [?|[st Hst]]; [done|]. unfold bind at 1. rewrite Hst.
      cbn. unfold deque_new. by rewrite decide_True. }
  assert (params_len mp = 0 ∨ is_ok (optim_new optim_name mp args) →
   (if macrobatch then Z.min 2 n else n) = 0%Z →
   init optim_name mp model_ps scale n vf macrobatch clip dir stash args w
     = Raise IndexError) as Hzero.
  { intros Hp Hn. unfold init. rewrite Hn. unfold bind at 1.
    case_decide as Hd.
    - cbn. done.
    - destruct Hp as [?|[st Hst]]; [done|]. unfold bind at 1. rewrite Hst.
      cbn. done. }
  split_and!; try done.
  split.
  - intros [[o w'] Hi].
    pose proof (init_inv _ _ _ _ _ _ _ _ _ _ _ _ _ _ Hi)
      as ([Hn _ _ _ _] & Hnv & _).
    rewrite Hnv in Hn. split; [done|].
    destruct (decide (params_len mp = 0)) as [|Hp]; [by left|right].
    destruct (optim_new optim_name mp args) as [st|e] eqn:E; [by eexists|].
    by rewrite (Hraise e Hp) in Hi.
  - intros [Hn Hp]. by apply init_succeeds.
Qed.

(** ** [step] *)

Lemma step_ok_interval o w r s' :
  step (o, w) = Ok (r, s') → update_interval o ≠ 0%Z.
Proof.
  intros Hs Hu. unfold step in Hs. cbn in Hs. unfold py_mod in Hs.
  by rewrite decide_True in Hs.
Qed.

(** X4.  What [step] never does: whenever it returns, the configuration,
    [current_version] and the presence of a wrapped optimizer are as
    before, the batch counter has grown by exactly one, and the wrapped
    [zero_grad()] was not called; with at most one version the ring, the
    snapshot dictionaries and the files are as before as well. *)
Theorem step_leaves_configuration o w r o' w' :
  step (o, w) = Ok (r, (o', w')) →
  same_config o o' ∧ current_version o' = current_version o ∧
  batch_counter o' = (batch_counter o + 1)%Z ∧
  (base_optimizer o' = None ↔ base_optimizer o = None) ∧
  clears (log w') = clears (log w) ∧
  ((num_versions o ≤ 1)%Z →
   queue o' = queue o ∧ buffered_state_dicts o' = buffered_state_dicts o ∧
   heap w' = heap w ∧ files w' = files w).
Proof.
  intros Hs. pose proof (step_ok_interval _ _ _ _ Hs) as Hu.
  pose proof (step_frame _ _ _ _ _ Hs) as (Hc & Hb & Hv & Hbo & Hcl).
  split_and!; try done. intros Hn.
  destruct (decide ((batch_counter o `mod` update_interval o)%Z
                    = (update_interval o - 1)%Z)) as [Hm|Hm].
  - apply step_update_ok in Hs
      as (_ & _ & _ & _ & _ & _ & _ & _ & _ & _ & _ & _ & _ & Hr); try done.
    rewrite decide_False in Hr by lia. by destruct_and!.
  - rewrite step_skip_ok in Hs by done. by injection Hs as _ <- <-.
Qed.

(** X5.  The calls a real update makes, in order, each at most once: the
    copy of the model gradients to the master gradients (mixed precision
    only), the clipping (only with [clip_grad]), the wrapped [step()] (only
    with parameters), the copy of the master parameters back (mixed
    precision only), the timing line (only when due); the wrapped [step()]
    is called on the live modules of the call and on the gradients that
    [step] leaves, and [step] returns what it returns; and the live modules
    are those the wrapped [step()] leaves, copied back under mixed
    precision. *)
Theorem real_update_calls_in_order o w r o' w' :
  (1 ≤ update_interval o)%Z →
  (batch_counter o `mod` update_interval o = update_interval o - 1)%Z →
  step (o, w) = Ok (r, (o', w')) →
  log w' = log w ++ update_events o ∧
  ∃ ms,
    match base_optimizer o with
    | Some b =>
        ∃ st, optim_step (opt_state b) (param_groups b) (grads w') (modules w)
                = Ok (st, ms, r)
    | None => ms = modules w ∧ r = None
    end ∧
    synced o ms = Ok (modules w').
Proof.
  intros Hu Hc Hs.
  apply step_update_ok in Hs
    as (g & g0 & ms & _ & _ & _ & Hb & Hsync & Hl & _); [|lia|done].
  split; [done|]. exists ms. split; [|done].
  destruct (base_optimizer o) as [b|].
  - destruct Hb as (st & Hst & _). by exists st.
  - by destruct Hb as (_ & -> & ->).
Qed.

Lemma deque_append_full {X} (d : deque X) (x y : X) (l : list X) :
  items d = y :: l → length (items d) = maxlen d →
  deque_append d x = Deque (maxlen d) (l ++ [x]).
Proof.
  intros Hi Hl. unfold deque_append. rewrite Hi in *. simpl in *.
  rewrite decide_False by lia. by rewrite decide_True.
Qed.

(** X6.  A real update with more than one version pushes one snapshot,
    tagged with the new [latest_version], and drops the oldest.  In memory,
    the snapshot pushed is made of the very dictionaries of the slot that
    is dropped, which also stay [buffered_state_dicts]; on disk, the file
    numbered [latest_version mod num_versions] is rewritten and every other
    file is kept. *)
Theorem step_recycles_oldest_snapshot o w r o' w' :
  ring_inv o w → (1 < num_versions o)%Z →
  (batch_counter o `mod` update_interval o = update_interval o - 1)%Z →
  step (o, w) = Ok (r, (o', w')) →
  ∃ oldest rest,
    items (queue o) = oldest :: rest ∧
    match save_dir o with
    | None =>
        ∃ sds v0, oldest = InMemory sds v0 ∧
          items (queue o') =
            rest ++ [InMemory sds (incr (latest_version o))] ∧
          buffered_state_dicts o' = sds ∧ files w' = files w
    | Some _ =>
        ∃ d, items (queue o') =
               rest ++ [OnDisk ((version (latest_version o) + 1)
                                `mod` num_versions o)%Z] ∧
             files w' =
               <[((version (latest_version o) + 1) `mod` num_versions o)%Z
                   := (d, incr (latest_version o))]> (files w)
    end.
Proof.
  intros [Hn _ Hml Hlen _] Hn1 Hm Hs.
  pose proof (step_ok_interval _ _ _ _ Hs) as Hu.
  apply step_update_ok in Hs
    as (_ & _ & _ & _ & _ & _ & _ & _ & _ & _ & _ & _ & _ & Hr); try done.
  rewrite decide_True in Hr by done.
  destruct Hr as (item & Hq & Hr).
  destruct (items (queue o)) as [|oldest rest] eqn:Hit;
    [simpl in Hlen; lia|].
  exists oldest, rest. split; [done|].
  rewrite (deque_append_full _ _ oldest rest) in Hq
    by first [exact Hit | rewrite Hit, Hml; exact Hlen].
  destruct (save_dir o).
  - destruct Hr as (_ & -> & d & ->). exists d. by rewrite Hq.
  - destruct Hr as (-> & -> & v0 & Hidx).
    rewrite py_index_head in Hidx. injection Hidx as ->.
    exists (buffered_state_dicts o'), v0. by rewrite Hq.
Qed.

(** ** Restoring *)

Lemma py_index_lookup {X} (l : list X) (i : Z) (x : X) :
  py_index l i = Ok x →
  l !! Z.to_nat (if decide (i < 0)%Z then i + Z.of_nat (length l) else i)%Z
    = Some x.
Proof.
  unfold py_index. cbv zeta. case_decide; [|done].
  destruct (l !! _) eqn:E; [|done]. by intros [= <-].
Qed.

Lemma slot_version o w e item sds v s' :
  slot_ok o w e item →
  match save_dir o, item with
  | None, InMemory sds' v' => sds' = sds ∧ v' = v ∧ s' = (o, w)
  | Some _, OnDisk fname => ∃ d, files w !! fname = Some (d, v)
  | _, _ => False
  end →
  version v = e.
Proof.
  unfold slot_ok. destruct (save_dir o), item; try done.
  - intros [_ (d & v' & Hf & Hv)] [d' Hf']. congruence.
  - by intros <- (_ & <- & _).
Qed.

(** X17.  The version a restore makes current: with more than one version,
    [load_new_params] sets [current_version] to [latest_version], and
    [load_old_params] to the version [num_versions - 1] real updates back
    (version 0 while fewer have been made). *)
Theorem restore_sets_current_version o w o' w' :
  ring_inv o w → (1 < num_versions o)%Z →
  (load_new_params (o, w) = Ok (tt, (o', w')) →
   current_version o' = latest_version o) ∧
  (load_old_params (o, w) = Ok (tt, (o', w')) →
   version (current_version o')
     = Z.max 0 (version (latest_version o) - (num_versions o - 1))).
Proof.
  intros [Hn Hl0 Hml Hlen Hslots] Hn1.
  assert (∀ index i,
    load_params index (o, w) = Ok (tt, (o', w')) →
    Z.to_nat (if decide (index < 0)%Z
              then index + Z.of_nat (length (items (queue o)))
              else index)%Z = i →
    version (current_version o')
      = expected_tag (num_versions o) (version (latest_version o)) i) as Hgen.
  { intros index i Hl Hi.
    apply load_params_ok in Hl. rewrite decide_True in Hl by done.
    destruct Hl as (sds & v & w1 & Hg & Hs).
    apply get_from_queue_ok in Hg as [_ (item & Hidx & Hitem)].
    apply py_index_lookup in Hidx. rewrite Hi in Hidx.
    apply set_params_ok in Hs as (-> & _). simpl.
    eapply slot_version; [by apply Hslots|done]. }
  split.
  - intros Hl. rewrite load_new_params_eq in Hl.
    specialize (Hgen (-1)%Z _ Hl eq_refl).
    rewrite decide_True in Hgen by done. rewrite Hlen in Hgen.
    unfold expected_tag in Hgen. rewrite decide_False in Hgen by lia.
    destruct (current_version o') as [c], (latest_version o) as [l].
    simpl in *. f_equal. lia.
  - intros Hl. rewrite load_old_params_eq in Hl.
    specialize (Hgen 0%Z _ Hl eq_refl).
    rewrite decide_False in Hgen by done.
    unfold expected_tag in Hgen. rewrite decide_False in Hgen by lia.
    rewrite Hgen. simpl. f_equal. lia.
Qed.

(** X18.  What a restore never touches: after [load_old_params] or
    [load_new_params] the configuration, the wrapped optimizer,
    [latest_version], the ring, the batch counter, the gradients, the files
    and the log are as before, and no live module was added or dropped. *)
Theorem restore_frame (m : M (optimizer * world) unit) o w o' w' :
  m = load_old_params ∨ m = load_new_params →
  m (o, w) = Ok (tt, (o', w')) →
  same_config o o' ∧ base_optimizer o' = base_optimizer o ∧
  latest_version o' = latest_version o ∧ queue o' = queue o ∧
  batch_counter o' = batch_counter o ∧
  grads w' = grads w ∧ files w' = files w ∧ log w' = log w ∧
  length (modules w') = length (modules w).
Proof.
  intros [-> | ->] Hl.
  - rewrite load_old_params_eq in Hl.
    apply load_params_frame in Hl. by destruct_and!.
  - rewrite load_new_params_eq in Hl.
    apply load_params_frame in Hl. by destruct_and!.
Qed.

(** ** The ring *)

(** X14.  Reading the ring.  An index outside [-len, len) raises
    [IndexError]; a negative index counts from the newest slot.  In memory
    the call returns the tuple the slot holds, the very dictionaries
    included, and changes nothing; on disk it returns new dictionary
    objects with the contents of the file the slot names, and raises
    [FileNotFoundError] when that file is missing. *)
Theorem get_from_queue_indexing o w :
  (∀ index,
     ¬ (- Z.of_nat (length (items (queue o))) ≤ index
        < Z.of_nat (length (items (queue o))))%Z →
     get_from_queue index (o, w) = Raise IndexError) ∧
  (∀ index,
     (index < 0)%Z → (0 ≤ index + Z.of_nat (length (items (queue o))))%Z →
     get_from_queue index (o, w) =
       get_from_queue (index + Z.of_nat (length (items (queue o)))) (o, w)) ∧
  (∀ i sds v,
     save_dir o = None → items (queue o) !! i = Some (InMemory sds v) →
     get_from_queue (Z.of_nat i) (o, w) = Ok ((sds, v), (o, w))) ∧
  (∀ i dir fname,
     save_dir o = Some dir → items (queue o) !! i = Some (OnDisk fname) →
     get_from_queue (Z.of_nat i) (o, w) =
       match files w !! fname with
       | Some (d, v) =>
           Ok ((seq (length (heap w)) (length d), v),
               (o, with_heap (heap w ++ d) w))
       | None => Raise FileNotFoundError
       end).
Proof.
  split_and!.
  - intros index Hi. unfold get_from_queue. cbn.
    by rewrite py_index_out_of_range.
  - intros index Hi Hn. unfold get_from_queue. cbn.
    by rewrite py_index_negative.
  - intros i sds v Hd Hi.
    rewrite (get_from_queue_eq _ _ _ _ (py_index_nat _ _ _ Hi)).
    by rewrite Hd.
  - intros i dir fname Hd Hi.
    rewrite (get_from_queue_eq _ _ _ _ (py_index_nat _ _ _ Hi)).
    by rewrite Hd.
Qed.

(** X15.  Pushing a snapshot.  The ring never grows beyond its bound: a
    full ring drops its oldest slot, the other slots keep their order, and
    the new slot is the newest.  In memory the slot holds the tuple itself
    and nothing else changes; on disk the contents of the dictionaries are
    written to the file numbered [version mod num_versions] and the slot
    holds that file's name. *)
Theorem append_to_queue_bounded sds v o w o' w' :
  append_to_queue (sds, v) (o, w) = Ok (tt, (o', w')) →
  length (items (queue o)) ≤ maxlen (queue o) → 0 < maxlen (queue o) →
  maxlen (queue o') = maxlen (queue o) ∧
  length (items (queue o'))
    = Nat.min (maxlen (queue o)) (S (length (items (queue o)))) ∧
  ∃ item,
    items (queue o') =
      (if decide (length (items (queue o)) = maxlen (queue o))
       then tail (items (queue o)) else items (queue o)) ++ [item] ∧
    match save_dir o with
    | None => item = InMemory sds v ∧ w' = w
    | Some _ =>
        item = OnDisk (version v `mod` num_versions o)%Z ∧
        ∃ d, Forall2 (λ r x, heap w !! r = Some x) sds d ∧
             w' = with_files
                    (<[(version v `mod` num_versions o)%Z := (d, v)]>
                       (files w)) w
    end.
Proof.
  intros Ha Hlen Hmax.
  assert (∀ item, maxlen (deque_append (queue o) item) = maxlen (queue o) ∧
            length (items (deque_append (queue o) item))
              = Nat.min (maxlen (queue o)) (S (length (items (queue o)))) ∧
            items (deque_append (queue o) item) =
              (if decide (length (items (queue o)) = maxlen (queue o))
               then tail (items (queue o)) else items (queue o)) ++ [item])
    as Hd.
  { intros item. unfold deque_append.
    destruct (decide (maxlen (queue o) = 0)) as [|_]; [lia|].
    destruct (decide (length (items (queue o)) = maxlen (queue o)))
      as [Hfull|Hfull]; simpl; rewrite length_app; simpl.
    - rewrite length_tl. split; [done|]. split; [lia|done].
    - split; [done|]. split; [lia|done]. }
  unfold append_to_queue in Ha. cbn in Ha.
  destruct (save_dir o) as [dir|] eqn:Hsd.
  - apply bind_ok in Ha as (fname & s1 & [Hf ->]%lift_ok & Ha).
    unfold py_mod in Hf.
    destruct (decide (num_versions o = 0)%Z) as [|Hnz]; [done|].
    injection Hf as <-.
    apply bind_ok in Ha as (d & s1 & Hde & Ha).
    apply deref_all_ok in Hde as [-> Hd2]. cbn in Ha.
    injection Ha as <- <-. simpl.
    destruct (Hd (OnDisk (version v `mod` num_versions o)%Z))
      as (? & ? & ?).
    split_and!; try done. eexists. split; [done|]. split; [done|].
    by exists d.
  - injection Ha as <- <-. simpl.
    destruct (Hd (InMemory sds v)) as (? & ? & ?).
    split_and!; try done. by eexists.
Qed.

Lemma py_setitem_ok {X} (l l' : list X) (i : Z) (x : X) :
  py_setitem l i x = Ok l' →
  (- Z.of_nat (length l) ≤ i < Z.of_nat (length l))%Z ∧
  l' = <[Z.to_nat (if decide (i < 0)%Z then i + Z.of_nat (length l) else i)%Z
         := x]> l.
Proof.
  unfold py_setitem. cbv zeta. case_decide as Hr; [|done].
  intros [= <-]. split; [|done]. case_decide; lia.
Qed.

Lemma py_index_setitem {X} (l l' : list X) (i : Z) (x : X) :
  py_setitem l i x = Ok l' → py_index l' i = Ok x.
Proof.
  intros [Hr ->]%py_setitem_ok. unfold py_index. cbv zeta.
  rewrite length_insert. rewrite decide_True by (case_decide; lia).
  rewrite list_lookup_insert_eq; [done|]. case_decide; lia.
Qed.

(** X16.  Replacing a slot of the ring.  [insert_to_queue] returns only for
    an index inside [-len, len); it keeps the bound, the length and every
    other slot of the ring, and reading the same index back returns the
    data: in memory the tuple itself, nothing else being changed; on disk
    new dictionaries with the contents written to the file numbered
    [index], which is the file the slot names from then on. *)
Theorem insert_to_queue_replaces sds v index o w o' w' :
  insert_to_queue (sds, v) index (o, w) = Ok (tt, (o', w')) →
  (- Z.of_nat (length (items (queue o))) ≤ index
   < Z.of_nat (length (items (queue o))))%Z ∧
  o' = with_queue (queue o') o ∧
  maxlen (queue o') = maxlen (queue o) ∧
  length (items (queue o')) = length (items (queue o)) ∧
  (∀ i, i ≠ Z.to_nat (if decide (index < 0)%Z
                      then index + Z.of_nat (length (items (queue o)))
                      else index)%Z →
        items (queue o') !! i = items (queue o) !! i) ∧
  match save_dir o with
  | None =>
      w' = w ∧ py_index (items (queue o')) index = Ok (InMemory sds v) ∧
      get_from_queue index (o', w') = Ok ((sds, v), (o', w'))
  | Some _ =>
      py_index (items (queue o')) index = Ok (OnDisk index) ∧
      ∃ d, Forall2 (λ r x, heap w !! r = Some x) sds d ∧
           w' = with_files (<[index := (d, v)]> (files w)) w ∧
           get_from_queue index (o', w') =
             Ok ((seq (length (heap w)) (length d), v),
                 (o', with_heap (heap w ++ d) w'))
  end.
Proof.
  intros Hi. unfold insert_to_queue in Hi. cbn in Hi.
  destruct (save_dir o) as [dir|] eqn:Hsd.
  - apply bind_ok in Hi as (d & s1 & Hde & Hi).
    apply deref_all_ok in Hde as [-> Hd2]. cbn in Hi.
    apply bind_ok in Hi as (l & s1 & [Hl ->]%lift_ok & Hi).
    injection Hi as <- <-. simpl.
    pose proof (py_index_setitem _ _ _ _ Hl) as Hidx.
    apply py_setitem_ok in Hl as [Hr ->].
    split_and!; try done; try lia.
    + by rewrite length_insert.
    + intros i Hne. by rewrite list_lookup_insert_ne.
    + exists d. split_and!; try done.
      match goal with |- get_from_queue _ (?o1, ?w1) = _ =>
        rewrite (get_from_queue_eq index o1 w1 _ Hidx) end.
      simpl. rewrite Hsd. by rewrite lookup_insert_eq.
  - apply bind_ok in Hi as (l & s1 & [Hl ->]%lift_ok & Hi).
    injection Hi as <- <-. simpl.
    pose proof (py_index_setitem _ _ _ _ Hl) as Hidx.
    apply py_setitem_ok in Hl as [Hr ->].
    split_and!; try done; try lia.
    + by rewrite length_insert.
    + intros i Hne. by rewrite list_lookup_insert_ne.
    + match goal with |- get_from_queue _ (?o1, ?w1) = _ =>
        rewrite (get_from_queue_eq index o1 w1 _ Hidx) end.
      simpl. by rewrite Hsd.
Qed.

(** ** [zero_grad] *)

Lemma zero_grads_lookup ps : ∀ (g : gmap pid Data) (p : pid),
  NoDup ps →
  foldl (λ g p, match g !! p with
                | None => g
                | Some d => match clear_grad d with
                            | Some z => <[p := z]> g
                            | None => delete p g
                            end
                end) g ps !! p
  = if decide (p ∈ ps) then g !! p ≫= clear_grad else g !! p.
Proof.
  induction ps as [|q ps IH]; intros g p Hnd; cbn [foldl].
  - destruct (decide (p ∈ [])) as [Hin|]; [by apply elem_of_nil in Hin|done].
  - apply NoDup_cons in Hnd as [Hq Hnd]. rewrite IH by done.
    destruct (decide (p = q)) as [->|Hpq].
    + rewrite (decide_False (P := q ∈ ps)) by done.
      rewrite (decide_True (P := q ∈ q :: ps)) by set_solver.
      destruct (g !! q) as [d|] eqn:Eg; simpl; [|by rewrite Eg].
      destruct (clear_grad d) as [z|].
      * by rewrite lookup_insert_eq.
      * by rewrite lookup_delete_eq.
    + assert (match g !! q with
              | Some d => match clear_grad d with
                          | Some z => <[q:=z]> g
                          | None => delete q g
                          end
              | None => g
              end !! p = g !! p) as ->.
      { destruct (g !! q) as [d|]; [|done].
        destruct (clear_grad d).
        - by rewrite lookup_insert_ne.
        - by rewrite lookup_delete_ne. }
      destruct (decide (p ∈ ps)).
      * by rewrite (decide_True (P := p ∈ q :: ps)) by set_solver.
      * by rewrite (decide_False (P := p ∈ q :: ps)) by set_solver.
Qed.

(** X11.  What a due [zero_grad()] clears: the gradient of every parameter
    of every parameter group (each parameter being listed once), not only
    those of the first group, and no other gradient. *)
Theorem zero_grad_clears_every_group o w b :
  (1 ≤ update_interval o)%Z →
  (batch_counter o `mod` update_interval o = 0)%Z →
  base_optimizer o = Some b → NoDup (concat (param_groups b)) →
  ∃ w', zero_grad (o, w) = Ok (tt, (o, w')) ∧
    ∀ p, grads w' !! p =
      if decide (p ∈ concat (param_groups b))
      then grads w !! p ≫= clear_grad else grads w !! p.
Proof.
  intros Hu Hm Hb Hnd. rewrite zero_grad_spec by lia. rewrite Hb.
  rewrite decide_True by done. eexists. split; [done|].
  intros p. simpl. unfold zero_grads. by apply zero_grads_lookup.
Qed.

(** ** Counters *)

Lemma exec_counters c o w o' w' :
  (1 ≤ update_interval o)%Z →
  exec c (o, w) = Ok (tt, (o', w')) →
  update_interval o' = update_interval o ∧
  batch_counter o' = (batch_counter o + Z.of_nat (count_steps [c]))%Z ∧
  (version (latest_version o) = batch_counter o `div` update_interval o →
   version (latest_version o')
     = batch_counter o' `div` update_interval o')%Z ∧
  Z.of_nat (updates (log w')) =
    (Z.of_nat (updates (log w)) +
     match base_optimizer o with
     | Some _ => version (latest_version o') - version (latest_version o)
     | None => 0
     end)%Z.
Proof.
  intros Hu. destruct c as [| | | |ms g]; simpl.
  - intros (r & [o1 w1] & Hs & [= <- <-])%bind_ok.
    pose proof (step_frame _ _ _ _ _ Hs) as (Hc & Hbc & _).
    destruct Hc as (_ & _ & _ & _ & _ & _ & _ & _ & Hui).
    rewrite Hui, Hbc. split; [done|]. split; [done|].
    destruct (decide ((batch_counter o `mod` update_interval o)%Z
                      = (update_interval o - 1)%Z)) as [Hm|Hm].
    + apply step_update_ok in Hs
        as (_ & _ & _ & _ & _ & _ & _ & _ & Hl & _ & _ & Hlv & _);
        [|lia|done].
      rewrite Hlv. simpl. split.
      * intros ->. by rewrite div_succ_update.
      * rewrite Hl, updates_app, updates_update_events.
        destruct (base_optimizer o); lia.
    + rewrite step_skip_ok in Hs by (done || lia).
      injection Hs as _ <- <-. simpl. split.
      * intros ->. by rewrite div_succ_skip.
      * destruct (base_optimizer o); lia.
  - intros Hz. pose proof (zero_grad_ok _ _ _ _ Hz) as (-> & _ & _ & _ & _ & Hup).
    rewrite Hup, Z.add_0_r. split_and!; try done.
    destruct (base_optimizer o); lia.
  - intros (Hc & _ & Hl & _ & Hbc & _ & _ & Hlg & _)%(load_params_frame 0).
    destruct Hc as (_ & _ & _ & _ & _ & _ & _ & _ & Hui).
    rewrite Hui, Hbc, Hl, Hlg, Z.add_0_r. split_and!; try done.
    destruct (base_optimizer o); lia.
  - intros (Hc & _ & Hl & _ & Hbc & _ & _ & Hlg & _)%(load_params_frame (-1)).
    destruct Hc as (_ & _ & _ & _ & _ & _ & _ & _ & Hui).
    rewrite Hui, Hbc, Hl, Hlg, Z.add_0_r. split_and!; try done.
    destruct (base_optimizer o); lia.
  - intros [= <- <-]. simpl. rewrite Z.add_0_r. split_and!; try done.
    destruct (base_optimizer o); lia.
Qed.

Lemma calls_counters calls : ∀ o w o' w',
  (1 ≤ update_interval o)%Z →
  for_each calls exec (o, w) = Ok (tt, (o', w')) →
  update_interval o' = update_interval o ∧
  batch_counter o' = (batch_counter o + Z.of_nat (count_steps calls))%Z ∧
  (version (latest_version o) = batch_counter o `div` update_interval o →
   version (latest_version o')
     = batch_counter o' `div` update_interval o')%Z ∧
  Z.of_nat (updates (log w')) =
    (Z.of_nat (updates (log w)) +
     match base_optimizer o with
     | Some _ => version (latest_version o') - version (latest_version o)
     | None => 0
     end)%Z.
Proof.
  induction calls as [|c calls IH]; intros o w o' w' Hu; simpl.
  - intros [= <- <-]. split_and!; try done; [lia|].
    destruct (base_optimizer o); lia.
  - intros ([] & [o1 w1] & Hc & Hr)%bind_ok.
    pose proof (exec_ok _ _ _ _ _ Hc) as (_ & Hb1 & _).
    apply exec_counters in Hc as (Hu1 & Hb & Hl & Hup); [|done].
    apply IH in Hr as (Hu2 & Hb2 & Hl2 & Hup2); [|by rewrite Hu1].
    split_and!.
    + congruence.
    + rewrite Hb2, Hb. simpl. destruct c; simpl; lia.
    + auto.
    + rewrite Hup2, Hup.
      destruct (base_optimizer o) as [b|], (base_optimizer o1) as [b1|];
        try lia.
      * destruct Hb1 as [Hb1 _]. by specialize (Hb1 eq_refl).
      * destruct Hb1 as [_ Hb1]. by specialize (Hb1 eq_refl).
Qed.

(** X10.  The counters over the life of an optimizer: after any calls that
    return, [batch_counter] is the number of [step()] calls made,
    [latest_version] is the number of complete windows of [update_interval]
    such calls, and the wrapped [step()] has been called once per version
    (never, for an empty parameter list). *)
Theorem counters_count_calls optim_name mp model_ps scale n vf macrobatch clip
    dir stash args w0 o0 w1 calls o w :
  init optim_name mp model_ps scale n vf macrobatch clip dir stash args w0
    = Ok (o0, w1) →
  for_each calls exec (o0, w1) = Ok (tt, (o, w)) →
  batch_counter o = Z.of_nat (count_steps calls) ∧
  version (latest_version o) = (batch_counter o `div` update_interval o)%Z ∧
  Z.of_nat (updates (log w)) =
    (Z.of_nat (updates (log w1)) +
     match base_optimizer o0 with
     | Some _ => version (latest_version o)
     | None => 0
     end)%Z.
Proof.
  intros Hi Hr.
  pose proof (init_inv _ _ _ _ _ _ _ _ _ _ _ _ _ _ Hi)
    as ([Hn _ _ _ _] & Hnv & Hu & Hl & Hb & _).
  assert (1 ≤ update_interval o0)%Z as Hu1.
  { rewrite Hu. rewrite Hnv in Hn. by destruct macrobatch. }
  apply calls_counters in Hr as (_ & Hbc & Hlv & Hup); [|done].
  rewrite Hb, Hl in *. simpl in *.
  split_and!; [lia|by apply Hlv|].
  rewrite Hup. destruct (base_optimizer o0); lia.
Qed.

(** ** [get_params] *)

Lemma get_params_fold_frame o i (module : state_dict) h h' :
  map_foldM (get_params_key o i) h module = Ok h' →
  length h' = length h ∧
  ∀ r, buffered_state_dicts o !! i ≠ Some r → h' !! r = h !! r.
Proof.
  unfold map_foldM. revert h'.
  apply (map_fold_weak_ind (λ acc (m : state_dict), ∀ h', acc = Ok h' →
    length h' = length h ∧
    ∀ r, buffered_state_dicts o !! i ≠ Some r → h' !! r = h !! r)).
  - by intros h' [= <-].
  - intros key t m acc Hkey IH h' Hacc.
    destruct acc as [h1|]; [|done].
    destruct (IH h1 eq_refl) as [Hlen Hfr].
    unfold get_params_key in Hacc.
    destruct (str_in "running_" key); [by injection Hacc as <-|].
    destruct (buffered_state_dicts o !! i) as [r0|]; [|done].
    destruct (h1 !! r0) as [buffered|]; [|done].
    assert (∀ d, length (<[r0 := d]> h1) = length h ∧
              ∀ r, Some r0 ≠ Some r → <[r0 := d]> h1 !! r = h !! r) as Hins.
    { intros d. rewrite length_insert. split; [done|]. intros r Hr.
      rewrite list_lookup_insert_ne by congruence. by apply Hfr. }
    destruct (str_in "mask" key); [injection Hacc as <-; apply Hins|].
    destruct (buffered !! key) as [dst|]; [|done].
    destruct (copy_ _ _) as [dst'|]; [|done].
    injection Hacc as <-. apply Hins.
Qed.

Lemma get_params_fold_ok o i r (module sd : state_dict) h h' :
  buffered_state_dicts o !! i = Some r → h !! r = Some sd →
  map_foldM (get_params_key o i) h module = Ok h' →
  ∃ sd', h' !! r = Some sd' ∧ refreshed o module sd sd'.
Proof.
  intros Hb Hsd. unfold map_foldM. revert h'.
  apply (map_fold_weak_ind (λ acc (m : state_dict), ∀ h', acc = Ok h' →
    ∃ sd', h' !! r = Some sd' ∧ refreshed o m sd sd')).
  - intros h' [= <-]. exists sd. split; [done|]. intros key.
    by rewrite lookup_empty.
  - intros key t m acc Hkey IH h' Hacc.
    destruct acc as [h1|]; [|done].
    destruct (IH h1 eq_refl) as (sd1 & Hsd1 & Hre).
    unfold get_params_key in Hacc. rewrite Hb, Hsd1 in Hacc.
    pose proof (Hre key) as Hk. rewrite Hkey in Hk.
    assert (∀ t', (if str_in "running_" key then False
                   else if str_in "mask" key then
                     t' = (if stash_to_cpu o then cpu (clone t) else clone t)
                   else ∃ dst, sd !! key = Some dst ∧
                     copy_ dst (if stash_to_cpu o then cpu t else t) = Ok t') →
              refreshed o (<[key := t]> m) sd (<[key := t']> sd1)) as Hins.
    { intros t' Ht' key'. destruct (decide (key' = key)) as [->|Hne].
      - rewrite !lookup_insert_eq.
        destruct (str_in "running_" key); [done|].
        destruct (str_in "mask" key); [by rewrite Ht'|].
        destruct Ht' as (dst & ? & ?). by exists dst, t'.
      - rewrite !lookup_insert_ne by done. apply Hre. }
    assert (r < length h1) as Hlt by (by eapply lookup_lt_Some).
    destruct (str_in "running_" key) eqn:Hrun.
    { injection Hacc as <-. exists sd1. split; [done|]. intros key'.
      destruct (decide (key' = key)) as [->|Hne].
      - rewrite lookup_insert_eq, Hrun. done.
      - rewrite lookup_insert_ne by done. apply Hre. }
    destruct (str_in "mask" key) eqn:Hmask.
    { injection Hacc as <-. eexists. split.
      - by apply list_lookup_insert_eq.
      - by apply Hins. }
    destruct (sd1 !! key) as [dst|] eqn:Hdst; [|done].
    destruct (copy_ _ _) as [dst'|] eqn:Hcp; [|done].
    injection Hacc as <-. eexists. split.
    + by apply list_lookup_insert_eq.
    + apply Hins. exists dst. by rewrite <- Hk.
Qed.

Lemma get_params_loop_frame o (l : list (nat * state_dict)) : ∀ s s',
  for_each l (λ '(i, module),
    do w <- the_world;
    do h <- lift (map_foldM (get_params_key o i) (heap w) module);
    set_world (with_heap h)) s = Ok (tt, s') →
  heap_only s s' ∧ length (heap s'.2) = length (heap s.2) ∧
  ∀ r, (∀ i, i ∈ l.*1 → buffered_state_dicts o !! i ≠ Some r) →
       heap s'.2 !! r = heap s.2 !! r.
Proof.
  induction l as [|[i module] l IH]; intros s s' Hl.
  - injection Hl as <-. done.
  - simpl in Hl. apply bind_ok in Hl as ([] & s1 & H1 & H2).
    destruct s as [o1 w]. cbn in H1.
    destruct (map_foldM _ _ _) as [h|] eqn:Hf; [|done]. cbn in H1.
    injection H1 as <-.
    apply get_params_fold_frame in Hf as [Hlen Hfr].
    apply IH in H2 as ((Ho & Hm & Hg & Hfi & Hlg) & Hlen2 & Hfr2).
    simpl in *. split_and!; try done.
    + by rewrite Hlen2.
    + intros r Hr. rewrite Hfr2, Hfr; [done| |].
      * apply Hr. by left.
      * intros j Hj. apply Hr. by right.
Qed.

Lemma get_params_loop_ok o (l : list (nat * state_dict)) : ∀ s s',
  for_each l (λ '(i, module),
    do w <- the_world;
    do h <- lift (map_foldM (get_params_key o i) (heap w) module);
    set_world (with_heap h)) s = Ok (tt, s') →
  NoDup l.*1 → NoDup (buffered_state_dicts o) →
  ∀ i module r sd,
    (i, module) ∈ l → buffered_state_dicts o !! i = Some r →
    heap s.2 !! r = Some sd →
    ∃ sd', heap s'.2 !! r = Some sd' ∧ refreshed o module sd sd'.
Proof.
  induction l as [|[i0 module0] l IH];
    intros s s' Hl Hni Hnb i module r sd Hin Hb Hsd.
  - by apply elem_of_nil in Hin.
  - simpl in Hl. apply bind_ok in Hl as ([] & s1 & H1 & H2).
    rewrite fmap_cons in Hni. simpl in Hni.
    apply NoDup_cons in Hni as [Hi0 Hni].
    destruct s as [o1 w]. cbn in H1.
    destruct (map_foldM _ _ _) as [h|] eqn:Hf; [|done]. cbn in H1.
    injection H1 as <-. simpl in *.
    assert (∀ j, j ≠ i → buffered_state_dicts o !! j ≠ Some r) as Hother.
    { intros j Hne Hj. apply Hne. by eapply NoDup_lookup. }
    apply elem_of_cons in Hin as [[= -> ->]|Hin].
    + destruct (get_params_fold_ok _ _ _ _ _ _ _ Hb Hsd Hf) as (sd' & Hsd' & Hre).
      exists sd'. split; [|done].
      apply get_params_loop_frame in H2 as (_ & _ & Hfr). rewrite Hfr; [done|].
      intros j Hj. apply Hother. by intros ->.
    + assert (i ≠ i0) as Hne.
      { intros ->. apply Hi0. apply list_elem_of_fmap. by exists (i0, module). }
      apply (IH _ _ H2 Hni Hnb i module r sd Hin Hb). simpl.
      apply get_params_fold_frame in Hf as [_ Hfr]. rewrite Hfr; [done|].
      by apply Hother.
Qed.

Lemma imap_pair_fst {X} (l : list X) :
  (imap (λ i x, (i, x)) l).*1 = seq 0 (length l).
Proof.
  apply list_eq. intros i. rewrite list_lookup_fmap, list_lookup_imap.
  destruct (l !! i) as [x|] eqn:E; simpl.
  - symmetry. apply lookup_seq. split; [done|]. by eapply lookup_lt_Some.
  - symmetry. apply lookup_seq_ge. by apply lookup_ge_None.
Qed.

(** X13.  [get_params(clone=False)] refreshes [buffered_state_dicts] in
    place and returns them, tagged with [latest_version]: no dictionary is
    created, and only those paired with a live module change.  In the
    dictionary paired with a module (the dictionaries being distinct
    objects), every field of the module whose name contains "running_" is
    left as it was, every other field whose name contains "mask" is
    rebound to a clone of the live tensor, and every other field is
    overwritten with the live value by [copy_]; fields the module does not
    have are left alone. *)
Theorem get_params_refreshes_buffer o w sds v o' w' :
  get_params false (o, w) = Ok ((sds, v), (o', w')) →
  sds = buffered_state_dicts o ∧ v = latest_version o ∧ o' = o ∧
  modules w' = modules w ∧ grads w' = grads w ∧ files w' = files w ∧
  log w' = log w ∧ length (heap w') = length (heap w) ∧
  (∀ r, (∀ i, i < length (modules w) →
              buffered_state_dicts o !! i ≠ Some r) →
        heap w' !! r = heap w !! r) ∧
  (NoDup (buffered_state_dicts o) →
   ∀ i module r sd,
     modules w !! i = Some module → buffered_state_dicts o !! i = Some r →
     heap w !! r = Some sd →
     ∃ sd', heap w' !! r = Some sd' ∧ refreshed o module sd sd').
Proof.
  intros Hg. pose proof (get_params_ok _ _ _ _ _ _ Hg)
    as ((Ho & Hm & Hgr & Hf & Hl) & Hv & Hs).
  simpl in *. specialize (Hs eq_refl).
  unfold get_params in Hg. cbn in Hg.
  apply bind_ok in Hg as (? & s1 & Hg & Hr).
  apply bind_ok in Hg as ([] & s2 & Hg & [= <- <-]).
  injection Hr as _ _ ->.
  pose proof (get_params_loop_frame _ _ _ _ Hg) as (_ & Hlen & Hfr).
  simpl in *. split_and!; try done.
  - intros r Hr. apply Hfr. intros i Hi. apply Hr.
    rewrite imap_pair_fst in Hi. apply elem_of_seq in Hi. lia.
  - intros Hnd i module r sd Hi Hb Hsd.
    eapply (get_params_loop_ok _ _ _ _ Hg); try done.
    + rewrite imap_pair_fst. apply NoDup_seq.
    + apply elem_of_lookup_imap. by exists i, module.
Qed.

Lemma get_params_true_eq o w :
  get_params true (o, w) =
    Ok ((seq (length (heap w)) (length (modules w)), latest_version o),
        (o, with_heap (heap w ++ snapshot (stash_to_cpu o) (modules w)) w)).
Proof.
  unfold get_params. cbn. unfold bind. rewrite alloc_all_ok. cbn.
  by rewrite length_fmap.
Qed.

(** X12.  [get_params(clone=True)] always returns and only creates objects:
    one new dictionary per live module, holding a clone of every field (on
    the CPU when [stash_to_cpu] is set), tagged with [latest_version]; the
    dictionaries returned are distinct from each other and from every
    existing one, and the optimizer, the live modules and the existing
    dictionaries are as before. *)
Theorem get_params_clones o w :
  ∃ sds w',
    get_params true (o, w) = Ok ((sds, latest_version o), (o, w')) ∧
    modules w' = modules w ∧ grads w' = grads w ∧ files w' = files w ∧
    log w' = log w ∧
    (∀ r, r < length (heap w) → heap w' !! r = heap w !! r) ∧
    length sds = length (modules w) ∧ NoDup sds ∧
    (∀ r, r ∈ sds → length (heap w) ≤ r) ∧
    ∀ i module, modules w !! i = Some module →
      ∃ r, sds !! i = Some r ∧
           heap w' !! r =
             Some ((λ t, if stash_to_cpu o then cpu (clone t) else clone t)
                     <$> module).
Proof.
  eexists _, _. split; [apply get_params_true_eq|]. simpl.
  split_and!; try done.
  - intros r Hr. by rewrite lookup_app_l.
  - by rewrite length_seq.
  - apply NoDup_seq.
  - intros r Hr%elem_of_seq. lia.
  - intros i module Hi. exists (length (heap w) + i).
    pose proof (lookup_lt_Some _ _ _ Hi). split.
    + by apply lookup_seq.
    + rewrite lookup_app_r by lia.
      replace (length (heap w) + i - length (heap w)) with i by lia.
      unfold snapshot. by rewrite list_lookup_fmap, Hi.
Qed.

(** ** The ring at construction *)

Lemma init_loop_exact k : ∀ o w,
  num_versions o ≠ 0%Z →
  length (items (queue o)) + k ≤ maxlen (queue o) →
  repeatM k (do d <- get_params true; append_to_queue d) (o, w) =
    Ok (tt,
        (with_queue
           (Deque (maxlen (queue o))
              (items (queue o) ++
               match save_dir o with
               | None =>
                   (λ j, InMemory
                           (seq (length (heap w) + j * length (modules w))
                                (length (modules w)))
                           (latest_version o)) <$> seq 0 k
               | Some _ =>
                   replicate k
                     (OnDisk (version (latest_version o)
                              `mod` num_versions o)%Z)
               end)) o,
         World (modules w) (grads w)
           (heap w ++
            concat (replicate k (snapshot (stash_to_cpu o) (modules w))))
           (match save_dir o, k with
            | Some _, S _ =>
                <[(version (latest_version o) `mod` num_versions o)%Z :=
                    (snapshot (stash_to_cpu o) (modules w), latest_version o)]>
                  (files w)
            | _, _ => files w
            end)
           (log w))).
Proof.
  induction k as [|k IH]; intros o w Hn Hlen.
  - simpl. destruct o as [? ? ? ? sd ? ? ? ? ? [ml its] ? ? ? ?], w. simpl.
    rewrite !app_nil_r. by destruct sd; simpl; rewrite ?app_nil_r.
  - cbn [repeatM]. unfold bind at 1. unfold bind at 1.
    rewrite get_params_true_eq.
    set (ds := snapshot (stash_to_cpu o) (modules w)).
    assert (length ds = length (modules w)) as Hlds
      by (unfold ds, snapshot; by rewrite length_fmap).
    pose proof (deref_all_fresh ds (heap w)) as Hde. rewrite Hlds in Hde.
    unfold append_to_queue. cbn.
    assert (∀ x, deque_append (queue o) x = Deque (maxlen (queue o))
              (items (queue o) ++ [x])) as Hda.
    { intros x. unfold deque_append.
      destruct (decide (maxlen (queue o) = 0)); [lia|].
      destruct (decide (length (items (queue o)) = maxlen (queue o)));
        [lia|done]. }
    destruct (save_dir o) as [dir|] eqn:Hsd.
    + unfold py_mod. rewrite decide_False by done. cbn.
      unfold bind at 1.
      rewrite Hde by done. cbn.
      rewrite Hda.
      match goal with |- context [repeatM k _ (?o1, ?w1)] =>
        etrans; [apply (IH o1 w1)|] end;
        simpl; [done|rewrite length_app; simpl; lia|].
      rewrite Hsd. simpl. unfold snapshot in *. fold ds.
      rewrite <- !app_assoc. simpl.
      do 4 f_equal. destruct k; [done|]. by rewrite insert_insert_eq.
    + cbn. rewrite Hda.
      match goal with |- context [repeatM k _ (?o1, ?w1)] =>
        etrans; [apply (IH o1 w1)|] end;
        simpl; [done|rewrite length_app; simpl; lia|].
      rewrite Hsd. simpl. unfold snapshot in *. fold ds.
      rewrite <- !app_assoc. simpl. rewrite length_app.
      rewrite Hlds, Nat.add_0_r.
      assert ((λ j, InMemory
                 (seq (length (heap w) + length (modules w)
                       + j * length (modules w)) (length (modules w)))
                 (latest_version o)) <$> seq 0 k
              = (λ j, InMemory
                   (seq (length (heap w) + j * length (modules w))
                        (length (modules w)))
                   (latest_version o)) <$> seq 1 k) as ->; [|done].
      rewrite <- fmap_S_seq, <- list_fmap_compose.
      apply list_fmap_ext. intros i j Hj. simpl. do 2 f_equal. lia.
Qed.

Lemma initialize_queue_exact o w :
  (1 ≤ num_versions o)%Z →
  initialize_queue (o, w) =
    Ok (tt,
      match save_dir o with
      | None =>
          (with_buffered_state_dicts
             (seq (length (heap w)) (length (modules w)))
             (with_queue
                (Deque (Z.to_nat (num_versions o))
                   ((λ j, InMemory
                            (seq (length (heap w) + j * length (modules w))
                                 (length (modules w)))
                            (latest_version o))
                      <$> seq 0 (Z.to_nat (num_versions o)))) o),
           World (modules w) (grads w)
             (heap w ++
              concat (replicate (Z.to_nat (num_versions o))
                        (snapshot (stash_to_cpu o) (modules w))))
             (files w) (log w))
      | Some _ =>
          (with_buffered_state_dicts
             (seq (length (heap w)
                   + Z.to_nat (num_versions o) * length (modules w))
                  (length (modules w)))
             (with_queue
                (Deque (Z.to_nat (num_versions o))
                   (replicate (Z.to_nat (num_versions o))
                      (OnDisk (version (latest_version o)
                               `mod` num_versions o)%Z))) o),
           World (modules w) (grads w)
             (heap w ++
              concat (replicate (Z.to_nat (num_versions o))
                        (snapshot (stash_to_cpu o) (modules w))) ++
              snapshot (stash_to_cpu o) (modules w))
             (<[(version (latest_version o) `mod` num_versions o)%Z :=
                  (snapshot (stash_to_cpu o) (modules w), latest_version o)]>
                (files w))
             (log w))
      end).
Proof.
  intros Hn. unfold initialize_queue. cbn. unfold deque_new.
  rewrite decide_False by lia. cbn. unfold bind at 1.
  pose proof (init_loop_exact (Z.to_nat (num_versions o))
                (with_queue (Deque (Z.to_nat (num_versions o)) []) o) w)
    as Hr.
  simpl in Hr. rewrite Hr by (done || lia). clear Hr.
  destruct (Z.to_nat (num_versions o)) as [|k] eqn:Hk; [lia|].
  set (ds := snapshot (stash_to_cpu o) (modules w)).
  assert (length ds = length (modules w)) as Hlds
    by (unfold ds, snapshot; by rewrite length_fmap).
  unfold bind at 1.
  destruct (save_dir o) as [dir|] eqn:Hsd.
  - match goal with |- context [get_from_queue 0 (?o1, ?w1)] =>
      rewrite (get_from_queue_eq 0 o1 w1
                 (OnDisk (version (latest_version o) `mod` num_versions o)%Z))
    end; [|by apply py_index_head].
    simpl. rewrite Hsd, lookup_insert_eq. cbn.
    rewrite !length_app, Hlds. fold ds.
    assert (∀ j, length (concat (replicate j ds)) = j * length (modules w))
      as Hcat.
    { induction j as [|j IHj]; simpl; [done|].
      rewrite length_app, IHj, Hlds. done. }
    rewrite Hcat. rewrite <- !app_assoc. simpl. done.
  - match goal with |- context [get_from_queue 0 (?o1, ?w1)] =>
      rewrite (get_from_queue_eq 0 o1 w1
                 (InMemory (seq (length (heap w)) (length (modules w)))
                           (latest_version o)))
    end; [|simpl; rewrite Nat.add_0_r; by apply py_index_head].
    simpl. rewrite Hsd. cbn. rewrite Nat.add_0_r. done.
Qed.



(** ** Restoring the ordinary fields *)

Lemma set_params_module_heap_ordinary o r0 i0 s s' r sd :
  set_params_module o r0 i0 s = Ok (tt, s') →
  heap s.2 !! r = Some sd →
  ∃ sd', heap s'.2 !! r = Some sd' ∧
         ∀ key, special key = false → sd' !! key = sd !! key.
Proof.
  destruct s as [o1 w]. intros Hs%set_params_module_ok Hsd. simpl in *.
  destruct (modules w !! i0) as [cur|]; [|subst; by exists sd].
  destruct Hs as (sd0 & sd' & m' & Hsd0 & Hm & _ & ->). simpl.
  destruct (decide (r = r0)) as [->|Hne].
  - rewrite Hsd in Hsd0. injection Hsd0 as <-. exists sd'. split.
    + apply list_lookup_insert_eq. by eapply lookup_lt_Some.
    + intros key Hk. by eapply restore_keeps_ordinary.
  - exists sd. split; [|done]. by rewrite list_lookup_insert_ne.
Qed.

Lemma set_params_loop_ordinary o l : ∀ s s',
  for_each l (λ '(r, i), set_params_module o r i) s = Ok (tt, s') →
  NoDup l.*2 →
  ∀ r i cur sd key p,
    (r, i) ∈ l → modules s.2 !! i = Some cur → heap s.2 !! r = Some sd →
    special key = false → cur !! key = Some p →
    ∃ input, sd !! key = Some input ∧
      shape (t_data input) = shape (t_data p) ∧
      modules s'.2 !! i ≫= (.!! key)
        = Some (Tensor (t_device p) (t_data input)).
Proof.
  induction l as [|[r0 i0] l IH];
    intros s s' Hl Hni r i cur sd key p Hin Hcur Hsd Hk Hp.
  - by apply elem_of_nil in Hin.
  - simpl in Hl. apply bind_ok in Hl as ([] & s1 & H1 & H2).
    rewrite fmap_cons in Hni. simpl in Hni.
    apply NoDup_cons in Hni as [Hi0 Hni].
    destruct (set_params_module_heap_ordinary _ _ _ _ _ _ _ H1 Hsd)
      as (sd1 & Hsd1 & Hord).
    destruct s as [o1 w]. pose proof H1 as H1'.
    apply set_params_module_ok in H1. simpl in *.
    apply elem_of_cons in Hin as [[= -> ->]|Hin].
    + rewrite Hcur in H1. destruct H1 as (sd0 & sd' & m' & Hsd0 & Hm & Hld & ->).
      rewrite Hsd in Hsd0. injection Hsd0 as <-.
      pose proof (load_state_dict_lookup _ _ _ Hld) as [_ Hlk].
      specialize (Hlk key). rewrite Hp in Hlk.
      destruct Hlk as (input & t & Hin' & Hsh & Hcp & Hm').
      rewrite (restore_keeps_ordinary _ _ _ _ _ Hm Hk) in Hin'.
      exists input. split; [done|]. split; [done|].
      rewrite (set_params_loop_module_other _ _ _ _ i0 H2 Hi0). simpl.
      rewrite list_lookup_insert_eq by (by eapply lookup_lt_Some). simpl.
      rewrite Hm'. f_equal. unfold copy_ in Hcp.
      rewrite copy_data_same_shape in Hcp by done. by injection Hcp as <-.
    + assert (i ≠ i0) as Hi.
      { intros ->. apply Hi0. apply list_elem_of_fmap. by exists (r, i0). }
      destruct (IH s1 s' H2 Hni r i cur sd1 key p Hin) as (input & Hi1 & Hsh & Hm');
        try done.
      * destruct (modules w !! i0); [|by subst].
        destruct H1 as (? & ? & ? & _ & _ & _ & ->). simpl.
        by rewrite list_lookup_insert_ne.
      * exists input. split; [|done]. by rewrite <- Hord.
Qed.

Lemma set_params_ordinary sds v o w o' w' :
  set_params sds v (o, w) = Ok (tt, (o', w')) →
  ∀ i r cur sd key p,
    sds !! i = Some r → modules w !! i = Some cur → heap w !! r = Some sd →
    special key = false → cur !! key = Some p →
    ∃ input, sd !! key = Some input ∧
      shape (t_data input) = shape (t_data p) ∧
      modules w' !! i ≫= (.!! key)
        = Some (Tensor (t_device p) (t_data input)).
Proof.
  unfold set_params. cbn.
  intros ([] & [o1 w1] & Hl & [= <- <-])%bind_ok.
  intros i r cur sd key p Hi Hcur Hsd Hk Hp.
  eapply (set_params_loop_ordinary _ _ _ _ Hl); try done.
  - apply NoDup_zip_snd, NoDup_seq.
  - apply list_elem_of_lookup. exists i. apply lookup_zip_with_Some.
    exists r, i. split; [done|]. split; [done|].
    apply lookup_seq. split; [done|]. by eapply lookup_lt_Some.
Qed.

(** X19.  What a restore loads: for every field of a live module whose name
    contains neither "running_" nor "mask", [set_params] copies the value
    the paired dictionary holds into the module, which keeps its device;
    the dictionary must hold the field with the shape the module has. *)
Theorem restore_loads_ordinary_fields sds v o w o' w' :
  set_params sds v (o, w) = Ok (tt, (o', w')) →
  ∀ i r cur sd key p,
    sds !! i = Some r → modules w !! i = Some cur → heap w !! r = Some sd →
    str_in "running_" key = false → str_in "mask" key = false →
    cur !! key = Some p →
    ∃ input, sd !! key = Some input ∧
      shape (t_data input) = shape (t_data p) ∧
      modules w' !! i ≫= (.!! key)
        = Some (Tensor (t_device p) (t_data input)).
Proof.
  intros Hs i r cur sd key p Hi Hcur Hsd Hrun Hmask Hp.
  eapply set_params_ordinary; try done.
  unfold special. by rewrite Hrun, Hmask.
Qed.

(** The state in which a real update with more than one version reaches the
    lines that push the new snapshot, and the state they leave. *)
Lemma step_update_rotate o w r o' w' :
  update_interval o ≠ 0%Z →
  (batch_counter o `mod` update_interval o = update_interval o - 1)%Z →
  (1 < num_versions o)%Z →
  step (o, w) = Ok (r, (o', w')) →
  ∃ o6 w6 o7 w7,
    same_config o o6 ∧ queue o6 = queue o ∧
    buffered_state_dicts o6 = buffered_state_dicts o ∧
    latest_version o6 = incr (latest_version o) ∧
    heap w6 = heap w ∧ files w6 = files w ∧ modules w6 = modules w' ∧
    (do '(state_dicts, _) <- get_from_queue 0;
     set_self (with_buffered_state_dicts state_dicts) ;;
     do d <- get_params false;
     append_to_queue d) (o6, w6) = Ok (tt, (o7, w7)) ∧
    heap w' = heap w7 ∧ queue o' = queue o7 ∧
    buffered_state_dicts o' = buffered_state_dicts o7.
Proof.
  intros Hu Hc Hn1. revert Hu Hc.
  intros Hu Hc. unfold step. cbn. unfold py_mod at 1.
  rewrite decide_False by done. cbn. rewrite decide_False by (intros ?; done).
  intros (log_timing & [o1 w1] & Ht & Hs)%bind_ok.
  (* the timing flag *)
  assert ((o1, w1) = (o, w) ∧
          log_timing = bool_decide (0 < verbose_freq o ∧
            batch_counter o `mod` verbose_freq o = 0)%Z) as [[= -> ->] ->].
  { destruct (decide (0 < verbose_freq o)%Z) as [Hv|Hv].
    - unfold py_mod in Ht. rewrite decide_False in Ht by lia. cbn in Ht.
      injection Ht as <- <- <-. split; [done|].
      apply bool_decide_ext. naive_solver.
    - injection Ht as <- <- <-. split; [done|].
      symmetry. apply bool_decide_eq_false. naive_solver. }
  (* the mixed-precision hook and the loss scale *)
  apply bind_ok in Hs as ([] & [o2 w2] & Hpre & Hs).
  assert (o2 = o ∧ modules w2 = modules w ∧ heap w2 = heap w ∧
          files w2 = files w ∧
          log w2 = log w ++ match model_parameters o with
                            | Some _ => [EvGradsToMaster] | None => [] end ∧
          match model_parameters o with
          | Some mp =>
              ∃ g_hook,
                model_grads_to_master_grads mp (master_parameters o) (grads w)
                  = Ok g_hook ∧
                grads w2 = unscaled o g_hook
          | None => grads w2 = grads w
          end)
    as (-> & Hm2 & Hh2 & Hf2 & Hl2 & Hg2).
  { destruct (model_parameters o) as [mp|].
    - cbn in Hpre.
      apply bind_ok in Hpre as (g_hook & s1 & [Hh ->]%lift_ok & Hpre).
      cbn in Hpre. unfold unscaled.
      destruct (scale_is_one (loss_scale o)).
      + injection Hpre as <- <-. split_and!; try done. by exists g_hook.
      + destruct (master_parameters o) as [ps|[|g gs]]; [| |done].
        * apply unscale_loop_eq in Hpre. injection Hpre as -> ->.
          split_and!; try done. by exists g_hook.
        * injection Hpre as <- <-. split_and!; try done. by exists g_hook.
    - injection Hpre as <- <-. rewrite app_nil_r. done. }
  (* the averaging loop *)
  apply bind_ok in Hs as (group0 & s3 & [Hg0 ->]%lift_ok & Hs).
  unfold bind at 1 in Hs. rewrite average_loop_ok in Hs.
  (* clipping *)
  apply bind_ok in Hs as ([] & [o4 w4] & Hclip & Hs).
  assert (o4 = o ∧ modules w4 = modules w ∧ heap w4 = heap w ∧
          files w4 = files w ∧
          clipped o group0
            (average_grads (update_interval o) group0 (grads w2))
            = Ok (grads w4) ∧
          log w4 = log w2 ++ match clip_grad o with
                             | Some _ => [EvClipGrad] | None => [] end)
    as (-> & Hm4 & Hh4 & Hf4 & Hg4 & Hl4).
  { unfold clipped. destruct (clip_grad o) as [c|].
    - cbn in Hclip.
      apply bind_ok in Hclip as (g & s4 & [Hcl ->]%lift_ok & Hclip).
      injection Hclip as <- <-. done.
    - injection Hclip as <- <-. simpl. by rewrite app_nil_r. }
  (* the wrapped update *)
  apply bind_ok in Hs as (loss & [o5 w5] & Hupd & Hs).
  assert (∃ ms,
          same_config o o5 ∧ current_version o5 = current_version o ∧
          latest_version o5 = latest_version o ∧
          batch_counter o5 = batch_counter o ∧ queue o5 = queue o ∧
          buffered_state_dicts o5 = buffered_state_dicts o ∧
          heap w5 = heap w ∧ files w5 = files w ∧ grads w5 = grads w4 ∧
          modules w5 = ms ∧
          log w5 = log w4 ++ match base_optimizer o with
                             | Some _ => [EvStep] | None => [] end ∧
          match base_optimizer o with
          | Some b =>
              ∃ st,
                optim_step (opt_state b) (param_groups b) (grads w4)
                  (modules w) = Ok (st, ms, loss) ∧
                base_optimizer o5 = Some (BaseOpt (param_groups b) st)
          | None => base_optimizer o5 = None ∧ ms = modules w ∧ loss = None
          end)
    as (ms & Hcfg5 & Hcv5 & Hlv5 & Hbc5 & Hq5 & Hb5 & Hh5 & Hf5 & Hg5 & Hm5
           & Hl5 & Hbase).
  { destruct (base_optimizer o) as [b|] eqn:Eb.
    - cbn in Hupd. rewrite Hm4 in Hupd.
      apply bind_ok in Hupd as ([[st ms] l] & s5 & [Hst ->]%lift_ok & Hupd).
      cbn in Hupd. injection Hupd as <- <- <-. exists ms. simpl.
      unfold same_config. simpl. split_and!; try done. by exists st.
    - injection Hupd as <- <- <-. exists (modules w). unfold same_config.
      rewrite app_nil_r. split_and!; done. }
  clear Hupd Hclip Hpre Ht.
  (* master parameters to model parameters, and the new version *)
  apply bind_ok in Hs as ([] & [o6 w6] & Hpost & Hs).
  assert (o6 = o5 ∧ heap w6 = heap w ∧ files w6 = files w ∧
          grads w6 = grads w4 ∧ synced o ms = Ok (modules w6) ∧
          log w6 = log w5 ++ match model_parameters o with
                             | Some _ => [EvMasterToModel] | None => [] end)
    as (-> & Hh6 & Hf6 & Hg6 & Hm6 & Hl6).
  { unfold synced. destruct (model_parameters o) as [mp|].
    - cbn in Hpost. rewrite Hm5 in Hpost.
      apply bind_ok in Hpost as (ms' & s6 & [Hsy ->]%lift_ok & Hpost).
      injection Hpost as <- <-. done.
    - injection Hpost as <- <-. rewrite app_nil_r. by rewrite Hm5. }
  clear Hpost. cbn in Hs.
  apply bind_ok in Hs as ([] & [o7 w7] & Hrot & Hs).
  apply bind_ok in Hs as ([] & [o8 w8] & Htim & Hs).
  injection Hs as <- <- <-.
  assert (o8 = o7 ∧ modules w8 = modules w7 ∧ grads w8 = grads w7 ∧
          heap w8 = heap w7 ∧ files w8 = files w7 ∧
          log w8 = log w7 ++
            (if decide (0 < verbose_freq o ∧
                        batch_counter o `mod` verbose_freq o = 0)%Z
             then [EvPrintTiming] else [])) as (-> & Hm8 & Hg8 & Hh8 & Hf8 & Hl8).
  { destruct (decide (0 < verbose_freq o ∧
                      batch_counter o `mod` verbose_freq o = 0)%Z) as [Hd|Hd].
    - rewrite bool_decide_eq_true_2 in Htim by done.
      injection Htim as <- <-. done.
    - rewrite bool_decide_eq_false_2 in Htim by done.
      injection Htim as <- <-. by rewrite app_nil_r. }
  clear Htim.
  rewrite decide_True in Hrot by done.
  pose proof (rotate_ok _ _ _ Hrot) as (sds & item & _ & Hm7 & _).
  simpl in Hm7.
  eexists _, w6, o7, w7. split_and!; [| | | | | | |exact Hrot| | |]; simpl;
    try done; try congruence.
Qed.

Lemma refreshed_ext o1 o2 (module sd sd' : state_dict) :
  stash_to_cpu o1 = stash_to_cpu o2 →
  refreshed o1 module sd sd' → refreshed o2 module sd sd'.
Proof. unfold refreshed. by intros ->. Qed.

(** A real update with more than one version kept in memory writes the
    snapshot it pushes into the dictionaries of the slot it drops. *)
Lemma step_update_stash o w r o' w' :
  ring_inv o w → (1 < num_versions o)%Z → save_dir o = None →
  (batch_counter o `mod` update_interval o = update_interval o - 1)%Z →
  step (o, w) = Ok (r, (o', w')) →
  ∃ sds v0 rest,
    items (queue o) = InMemory sds v0 :: rest ∧
    items (queue o') = rest ++ [InMemory sds (incr (latest_version o))] ∧
    length (heap w') = length (heap w) ∧
    (∀ r, r ∉ sds → heap w' !! r = heap w !! r) ∧
    (NoDup sds →
     ∀ i module r sd,
       modules w' !! i = Some module → sds !! i = Some r →
       heap w !! r = Some sd →
       ∃ sd', heap w' !! r = Some sd' ∧ refreshed o module sd sd').
Proof.
  intros [Hn _ Hml Hlen _] Hn1 Hsd Hm Hs.
  assert (update_interval o ≠ 0%Z) as Hu.
  { intros Hu. unfold step in Hs. cbn in Hs. unfold py_mod in Hs.
    by rewrite decide_True in Hs. }
  destruct (step_update_rotate _ _ _ _ _ Hu Hm Hn1 Hs)
    as (o6 & w6 & o7 & w7 & Hcfg & Hq6 & Hb6 & Hl6 & Hh6 & Hf6 & Hm6 & Hrot &
        Hh' & Hq' & Hb').
  destruct Hcfg as (_ & _ & _ & _ & Hsd6 & Hst6 & _).
  apply bind_ok in Hrot as ([sds v0] & [o1 w1] & Hg & Hr).
  pose proof (get_from_queue_ok _ _ _ _ _ _ Hg) as [_ (item & Hi & Hitem)].
  rewrite Hsd6, Hsd in Hitem. rewrite Hq6 in Hi.
  destruct item as [sds0 v00|]; [|done]. destruct Hitem as (-> & -> & [= -> ->]).
  destruct (items (queue o)) as [|oldest rest] eqn:Hit;
    [simpl in Hlen; lia|].
  rewrite py_index_head in Hi. injection Hi as ->.
  cbn in Hr.
  apply bind_ok in Hr as ([sds' v] & [o2 w2] & Hp & Ha).
  pose proof (get_params_ok _ _ _ _ _ _ Hp) as ((Ho2 & _) & -> & Hbuf).
  simpl in Ho2. subst o2. specialize (Hbuf eq_refl). simpl in Hbuf. subst sds'.
  unfold append_to_queue in Ha. cbn in Ha. rewrite Hsd6, Hsd in Ha.
  injection Ha as <- <-. simpl in *.
  unfold get_params in Hp. cbn in Hp.
  apply bind_ok in Hp as (? & s1 & Hp & Hret).
  apply bind_ok in Hp as ([] & s2 & Hp & [= <- <-]).
  injection Hret as ->.
  pose proof (get_params_loop_frame _ _ _ _ Hp) as (_ & Hlen7 & Hfr).
  simpl in *.
  exists sds, v0, rest. split; [done|]. split.
  { rewrite Hq', Hq6.
    rewrite (deque_append_full _ _ (InMemory sds v0) rest)
      by first [exact Hit | rewrite Hit, Hml; exact Hlen].
    simpl. by rewrite Hl6. }
  split; [by rewrite Hh', Hlen7, Hh6|]. split.
  - intros r0 Hr0. rewrite Hh', Hfr, Hh6; [done|].
    intros i _ Hi. apply Hr0. by eapply list_elem_of_lookup_2.
  - intros Hnd i module r0 sd Hmod Hi Hsd0.
    rewrite Hh'.
    destruct (get_params_loop_ok _ _ _ _ Hp) with (i := i) (module := module)
      (r := r0) (sd := sd) as (sd' & Hsd' & Hre); simpl; try done.
    + rewrite imap_pair_fst. apply NoDup_seq.
    + apply elem_of_lookup_imap. exists i, module. by rewrite Hm6.
    + by rewrite Hh6.
    + exists sd'. split; [done|]. eapply refreshed_ext; [|exact Hre].
      simpl. done.
Qed.

(** ** When [step] returns and when it raises *)

Lemma exec_param_groups c o w o' w' :
  exec c (o, w) = Ok (tt, (o', w')) →
  getattr_param_groups o' = getattr_param_groups o.
Proof.
  unfold getattr_param_groups. destruct c as [| | | |ms g]; simpl.
  - intros (r & [o1 w1] & Hs & [= <- <-])%bind_ok.
    assert (update_interval o ≠ 0%Z) as Hu.
    { intros Hu. unfold step in Hs. cbn in Hs. unfold py_mod in Hs.
      by rewrite decide_True in Hs. }
    destruct (decide ((batch_counter o `mod` update_interval o)%Z
                      = (update_interval o - 1)%Z)) as [Hm|Hm].
    + apply step_update_ok in Hs as (g & g0 & ms & _ & _ & _ & Hb & _);
        try done.
      destruct (base_optimizer o) as [b|];
        [destruct Hb as (st & _ & ->)|destruct Hb as (-> & _)]; done.
    + rewrite step_skip_ok in Hs by done. by injection Hs as _ <- _.
  - by intros (-> & _)%zero_grad_ok.
  - by intros (_ & -> & _)%(load_params_frame 0).
  - by intros (_ & -> & _)%(load_params_frame (-1)).
  - by intros [= <- _].
Qed.

Lemma calls_param_groups calls : ∀ o w o' w',
  for_each calls exec (o, w) = Ok (tt, (o', w')) →
  getattr_param_groups o' = getattr_param_groups o.
Proof.
  induction calls as [|c calls IH]; intros o w o' w'; simpl.
  - by intros [= <- _].
  - intros ([] & [o1 w1] & Hc & Hr)%bind_ok.
    apply exec_param_groups in Hc. apply IH in Hr. congruence.
Qed.

Lemma init_param_groups optim_name mp model_ps scale n vf macrobatch clip dir
    stash args w o w' :
  init optim_name mp model_ps scale n vf macrobatch clip dir stash args w
    = Ok (o, w') →
  getattr_param_groups o ≠ [].
Proof.
  intros Hi. pose proof (init_inv _ _ _ _ _ _ _ _ _ _ _ _ _ _ Hi)
    as ([Hn _ _ _ _] & Hnv & _ & _ & _ & _ & _ & He & _).
  unfold getattr_param_groups.
  destruct (decide (params_len mp = 0)) as [Hp|Hp].
  { destruct (He Hp) as [-> _]. done. }
  revert Hi. unfold init.
  set (n' := if macrobatch then Z.min 2 n else n) in *.
  set (o0 := Optimizer _ _ _ _ _ _ _ _ _ _ _ _ _ _ _).
  intros Hi.
  destruct (bind _ _ _) as [[[] [o1 w1]]|] eqn:Hc; [|done].
  injection Hi as -> ->.
  apply bind_ok in Hc as ([] & [o2 w2] & Hb & Hq).
  rewrite decide_False in Hb by done.
  apply bind_ok in Hb as (st & s3 & [Hst ->]%lift_ok & Hb).
  injection Hb as <- <-.
  destruct (initialize_queue_ok
              (with_base_optimizer (Some (BaseOpt
                 match mp with ParamList ps => [ps] | ParamGroups gs => gs end
                 st)) o0) w) as (q' & buf & h' & fs' & Hr & _).
  { simpl. by rewrite Hnv in Hn. }
  rewrite Hr in Hq. injection Hq as <- <-. simpl.
  destruct mp as [ps|[|g gs]]; done.
Qed.

Lemma step_one_version o w group0 gs :
  (1 ≤ update_interval o)%Z → (num_versions o ≤ 1)%Z →
  model_parameters o = None → getattr_param_groups o = group0 :: gs →
  (batch_counter o `mod` update_interval o = update_interval o - 1)%Z →
  match clipped o group0
          (average_grads (update_interval o) group0 (grads w)) with
  | Raise e => step (o, w) = Raise e
  | Ok g =>
      match base_optimizer o with
      | Some b =>
          match optim_step (opt_state b) (param_groups b) g (modules w) with
          | Raise e => step (o, w) = Raise e
          | Ok (_, _, loss) => ∃ o' w', step (o, w) = Ok (loss, (o', w'))
          end
      | None => ∃ o' w', step (o, w) = Ok (None, (o', w'))
      end
  end.
Proof.
  intros Hu Hn Hmp Hg Hm.
  remember (step (o, w)) as res eqn:Hres.
  unfold step in Hres. cbn in Hres. unfold py_mod at 1 in Hres.
  rewrite decide_False in Hres by lia.
  cbn in Hres. rewrite decide_False in Hres by (intros ?; done).
  rewrite Hmp, Hg in Hres.
  set (timing := if decide (0 < verbose_freq o)%Z then _ else _) in Hres.
  assert (∃ b : bool, timing (o, w) = Ok (b, (o, w))) as [b Hb].
  { subst timing. destruct (decide (0 < verbose_freq o)%Z) as [Hv|Hv].
    - unfold py_mod. rewrite decide_False by lia. cbn. by eexists.
    - by eexists. }
  unfold bind at 1 in Hres. rewrite Hb in Hres. clear Hb timing.
  unfold bind at 1 in Hres. rewrite py_index_head in Hres.
  unfold lift at 1 in Hres.
  unfold bind at 1 in Hres. unfold ret at 1 in Hres. cbv beta iota in Hres.
  unfold bind at 1 in Hres. rewrite average_loop_ok in Hres.
  rewrite (decide_False (P := (1 < num_versions o)%Z)) in Hres by lia.
  unfold clipped.
  unfold bind, emit, set_world, set_self, the_world, ret, modify, lift
    in Hres.
  destruct (clip_grad o) as [c|]; simpl in Hres.
  - destruct (clip_grad_norm_ _ _ _) as [g|e]; simpl in Hres; [|done].
    destruct (base_optimizer o) as [bo|]; simpl in Hres.
    + destruct (optim_step _ _ _ _) as [[[st ms] l]|e]; simpl in Hres;
        [|done].
      destruct b; simpl in Hres; subst res; by eexists _, _.
    + destruct b; simpl in Hres; subst res; by eexists _, _.
  - destruct (base_optimizer o) as [bo|]; simpl in Hres.
    + destruct (optim_step _ _ _ _) as [[[st ms] l]|e]; simpl in Hres;
        [|done].
      destruct b; simpl in Hres; subst res; by eexists _, _.
    + destruct b; simpl in Hres; subst res; by eexists _, _.
Qed.

(** X8.  With a single version and without mixed precision, [step] raises
    only what the calls it makes raise.  After construction and any calls
    that return, every call of [step] is a real update ([update_interval]
    is 1); it raises the exception of [clip_grad_norm_] if that raises,
    else that of the wrapped [step()] if that raises, and otherwise returns
    what the wrapped [step()] returns (none without a wrapped
    optimizer). *)
Theorem step_relays_exceptions_with_one_version optim_name mp model_ps scale
    n vf macrobatch clip dir stash args w0 o0 w1 calls o w :
  init optim_name mp model_ps scale n vf macrobatch clip dir stash args w0
    = Ok (o0, w1) →
  for_each calls exec (o0, w1) = Ok (tt, (o, w)) →
  num_versions o = 1%Z → model_parameters o = None →
  update_interval o = 1%Z ∧
  ∃ group0,
    getattr_param_groups o !! 0 = Some group0 ∧
    match clipped o group0 (average_grads 1 group0 (grads w)) with
    | Raise e => step (o, w) = Raise e
    | Ok g =>
        match base_optimizer o with
        | Some b =>
            match optim_step (opt_state b) (param_groups b) g (modules w) with
            | Raise e => step (o, w) = Raise e
            | Ok (_, _, loss) => ∃ o' w', step (o, w) = Ok (loss, (o', w'))
            end
        | None => ∃ o' w', step (o, w) = Ok (None, (o', w'))
        end
    end.
Proof.
  intros Hi Hr Hn Hmp.
  pose proof (init_inv _ _ _ _ _ _ _ _ _ _ _ _ _ _ Hi)
    as ([Hn0 _ _ _ _] & Hnv & Hu & _).
  pose proof (calls_ok _ _ _ _ _ Hr) as (Hc & _).
  destruct Hc as (_ & _ & _ & _ & _ & _ & Hnc & _ & Hui).
  assert (update_interval o = 1%Z) as Hu1.
  { rewrite Hui, Hu. destruct macrobatch; [|done]. lia. }
  split; [done|].
  destruct (getattr_param_groups o) as [|group0 gs] eqn:Hg.
  { rewrite (calls_param_groups _ _ _ _ _ Hr) in Hg.
    by destruct (init_param_groups _ _ _ _ _ _ _ _ _ _ _ _ _ _ Hi). }
  exists group0. split; [done|].
  rewrite <- Hu1. apply (step_one_version o w group0 gs); try done; try lia.
  rewrite Hu1, Z.mod_1_r. done.
Qed.

Lemma unscale_loop_raises o ps p : ∀ o1 w,
  p ∈ ps → grads w !! p = None →
  for_each ps (unscale_grad o) (o1, w) = Raise AttributeError.
Proof.
  induction ps as [|p0 ps IH]; intros o1 w Hin Hp.
  - by apply elem_of_nil in Hin.
  - simpl. unfold bind at 1. unfold unscale_grad at 1. cbn.
    destruct (grads w !! p0) as [g|] eqn:Hg; [|done]. cbn.
    apply elem_of_cons in Hin as [->|Hin]; [congruence|].
    apply IH; [done|]. simpl. rewrite lookup_insert_ne; [done|].
    intros ->. congruence.
Qed.

(** X9.  Loss scaling needs a gradient on every master parameter: under
    mixed precision with a loss scale other than 1, a real update raises
    [AttributeError] when a master parameter has no gradient after
    [model_grads_to_master_grads] has returned, and when the master
    parameters were given as parameter-group dictionaries. *)
Theorem unscaling_needs_every_gradient o w mp g_hook :
  (1 ≤ update_interval o)%Z →
  (batch_counter o `mod` update_interval o = update_interval o - 1)%Z →
  model_parameters o = Some mp → scale_is_one (loss_scale o) = false →
  model_grads_to_master_grads mp (master_parameters o) (grads w)
    = Ok g_hook →
  match master_parameters o with
  | ParamList ps => ∃ p, p ∈ ps ∧ g_hook !! p = None
  | ParamGroups gs => gs ≠ []
  end →
  step (o, w) = Raise AttributeError.
Proof.
  intros Hu Hm Hmp Hsc Hh Hps.
  unfold step. cbn. unfold py_mod at 1. rewrite decide_False by lia.
  cbn. rewrite decide_False by (intros ?; done).
  rewrite Hmp, Hsc.
  set (timing := if decide (0 < verbose_freq o)%Z then _ else _).
  assert (∃ b : bool, timing (o, w) = Ok (b, (o, w))) as [b Hb].
  { subst timing. destruct (decide (0 < verbose_freq o)%Z) as [Hv|Hv].
    - unfold py_mod. rewrite decide_False by lia. cbn. by eexists.
    - by eexists. }
  unfold bind at 1. rewrite Hb. clear Hb timing.
  unfold bind at 1.
  assert (∀ hook, hook = model_grads_to_master_grads mp (master_parameters o)
                           (grads w) →
    (emit EvGradsToMaster ;;
     do w <- the_world;
     do g <- lift hook;
     set_world (with_grads g) ;;
     match master_parameters o with
     | ParamList ps => for_each ps (unscale_grad o)
     | ParamGroups [] => ret tt
     | ParamGroups (_ :: _) => raise AttributeError
     end) (o, w) = Raise AttributeError) as Hpre.
  { intros hook ->. rewrite Hh. cbn.
    destruct (master_parameters o) as [ps|[|g gs]]; [|done|done].
    destruct Hps as (p & Hin & Hp). by apply (unscale_loop_raises _ _ p). }
  cbn in Hpre. cbn. by rewrite (Hpre _ eq_refl).
Qed.

Lemma init_ring optim_name mp model_ps scale n vf macrobatch clip dir
    stash args w o w' :
  init optim_name mp model_ps scale n vf macrobatch clip dir stash args w
    = Ok (o, w') →
  match dir with
  | None =>
      items (queue o) =
        (λ j, InMemory (seq (length (heap w) + j * length (modules w))
                            (length (modules w))) Version_new)
          <$> seq 0 (Z.to_nat (num_versions o)) ∧
      buffered_state_dicts o = seq (length (heap w)) (length (modules w)) ∧
      heap w' =
        heap w ++ concat (replicate (Z.to_nat (num_versions o))
                            (snapshot stash (modules w))) ∧
      files w' = files w
  | Some _ =>
      items (queue o) = replicate (Z.to_nat (num_versions o)) (OnDisk 0) ∧
      buffered_state_dicts o =
        seq (length (heap w) + Z.to_nat (num_versions o) * length (modules w))
            (length (modules w)) ∧
      heap w' =
        heap w ++ concat (replicate (Z.to_nat (num_versions o))
                            (snapshot stash (modules w)))
               ++ snapshot stash (modules w) ∧
      files w' = <[0%Z := (snapshot stash (modules w), Version_new)]> (files w)
  end.
Proof.
  intros Hi. pose proof (init_inv _ _ _ _ _ _ _ _ _ _ _ _ _ _ Hi)
    as ([Hn _ _ _ _] & Hnv & _).
  revert Hi. unfold init.
  set (n' := if macrobatch then Z.min 2 n else n) in *.
  set (o0 := Optimizer _ _ _ _ _ _ _ _ _ _ _ _ _ _ _).
  intros Hi.
  destruct (bind _ _ _) as [[[] [o1 w1]]|] eqn:Hc; [|done].
  injection Hi as -> ->.
  apply bind_ok in Hc as ([] & [o2 w2] & Hb & Hq).
  assert (num_versions o2 = n' ∧ save_dir o2 = dir ∧ stash_to_cpu o2 = stash ∧
          latest_version o2 = Version_new ∧ modules w2 = modules w ∧
          heap w2 = heap w ∧ files w2 = files w)
    as (Hn2 & Hd2 & Hs2 & Hl2 & Hm2 & Hh2 & Hf2).
  { case_decide as Hp.
    - by injection Hb as <- <-.
    - apply bind_ok in Hb as (st & s3 & [Hst ->]%lift_ok & Hb).
      by injection Hb as <- <-. }
  rewrite initialize_queue_exact in Hq by (rewrite Hn2; by rewrite Hnv in Hn).
  rewrite Hd2, Hs2, Hl2, Hm2, Hh2, Hf2, Hn2 in Hq. simpl in Hq.
  rewrite Zmod_0_l in Hq.
  destruct dir; injection Hq as <- <-; simpl; by rewrite Hn2.
Qed.

Lemma snapshot_lookup stash (ms : list state_dict) (n j i : nat)
    (h : list state_dict) (module : state_dict) :
  j < n → ms !! i = Some module →
  (h ++ concat (replicate n (snapshot stash ms)))
    !! (length h + j * length ms + i)
  = Some ((λ t, if stash then cpu (clone t) else clone t) <$> module).
Proof.
  intros Hj Hi. pose proof (lookup_lt_Some _ _ _ Hi) as Hlt.
  assert (length (snapshot stash ms) = length ms) as Hl
    by (unfold snapshot; by rewrite length_fmap).
  rewrite lookup_app_r by lia.
  replace (length h + j * length ms + i - length h)
    with (j * length (snapshot stash ms) + i) by lia.
  rewrite lookup_concat_replicate by lia.
  unfold snapshot. by rewrite list_lookup_fmap, Hi.
Qed.

(** X3.  The ring [__init__] builds; no existing dictionary is changed.
    In memory, every slot holds its own clones of the live modules (on the
    CPU when [stash_to_cpu] is set), tagged 0: the dictionaries are new,
    distinct within a slot and from slot to slot, and
    [buffered_state_dicts] are those of the oldest slot.  On disk, the
    clones are written to the file numbered 0, every slot names that file,
    and [buffered_state_dicts] are new dictionaries with the same
    contents. *)
Theorem init_snapshots optim_name mp model_ps scale n vf macrobatch clip dir
    stash args w o w' :
  init optim_name mp model_ps scale n vf macrobatch clip dir stash args w
    = Ok (o, w') →
  (∀ r, r < length (heap w) → heap w' !! r = heap w !! r) ∧
  match dir with
  | None =>
      files w' = files w ∧
      ∃ slots : list (list ref),
        items (queue o) = (λ sds, InMemory sds Version_new) <$> slots ∧
        length slots = Z.to_nat (num_versions o) ∧
        head slots = Some (buffered_state_dicts o) ∧
        NoDup (concat slots) ∧
        (∀ r, r ∈ concat slots → length (heap w) ≤ r) ∧
        ∀ sds i module,
          sds ∈ slots → modules w !! i = Some module →
          ∃ r, sds !! i = Some r ∧
               heap w' !! r =
                 Some ((λ t, if stash then cpu (clone t) else clone t)
                         <$> module)
  | Some _ =>
      items (queue o) = replicate (Z.to_nat (num_versions o)) (OnDisk 0) ∧
      files w' = <[0%Z := (snapshot stash (modules w), Version_new)]> (files w) ∧
      NoDup (buffered_state_dicts o) ∧
      (∀ r, r ∈ buffered_state_dicts o → length (heap w) ≤ r) ∧
      ∀ i module,
        modules w !! i = Some module →
        ∃ r, buffered_state_dicts o !! i = Some r ∧
             heap w' !! r =
               Some ((λ t, if stash then cpu (clone t) else clone t)
                       <$> module)
  end.
Proof.
  intros Hi. pose proof (init_inv _ _ _ _ _ _ _ _ _ _ _ _ _ _ Hi)
    as ([Hn _ _ _ _] & _).
  pose proof (init_ring _ _ _ _ _ _ _ _ _ _ _ _ _ _ Hi) as Hr.
  set (m := length (modules w)) in *. set (h0 := length (heap w)) in *.
  set (k := Z.to_nat (num_versions o)) in *.
  assert (0 < k) as Hk by lia.
  destruct dir as [d|].
  - destruct Hr as (Hit & Hb & Hh & Hf). split.
    { intros r Hlt. rewrite Hh. by rewrite lookup_app_l. }
    split; [done|]. split; [done|]. rewrite Hb.
    split; [apply NoDup_seq|]. split.
    { intros r Hr%elem_of_seq. lia. }
    intros i module Hm. pose proof (lookup_lt_Some _ _ _ Hm).
    exists (h0 + k * m + i). split; [apply lookup_seq; fold m; lia|].
    rewrite Hh, app_assoc.
    assert (length (snapshot stash (modules w)) = m) as Hl
      by (unfold snapshot; by rewrite length_fmap).
    assert (∀ j, length (concat (replicate j (snapshot stash (modules w))))
                 = j * m) as Hcat.
    { induction j as [|j IHj]; simpl; [done|].
      rewrite length_app, IHj, Hl. done. }
    rewrite lookup_app_r by (rewrite length_app, Hcat; fold h0; lia).
    rewrite length_app, Hcat. fold h0.
    replace (h0 + k * m + i - (h0 + k * m)) with i by lia.
    unfold snapshot. by rewrite list_lookup_fmap, Hm.
  - destruct Hr as (Hit & Hb & Hh & Hf). split.
    { intros r Hlt. rewrite Hh. by rewrite lookup_app_l. }
    split; [done|].
    exists ((λ j, seq (h0 + j * m) m) <$> seq 0 k).
    split; [by rewrite Hit, <- list_fmap_compose|].
    split; [by rewrite length_fmap, length_seq|].
    split.
    { rewrite Hb. destruct k; [lia|]. simpl. by rewrite Nat.add_0_r. }
    rewrite concat_seq_blocks.
    split; [apply NoDup_seq|]. split.
    { intros r Hr%elem_of_seq. lia. }
    intros sds i module Hin Hm.
    apply list_elem_of_fmap in Hin as (j & -> & Hj%elem_of_seq).
    pose proof (lookup_lt_Some _ _ _ Hm).
    exists (h0 + j * m + i). split; [apply lookup_seq; fold m; lia|].
    rewrite Hh. apply snapshot_lookup; [lia|done].
Qed.

(** X21.  Stashing and restoring compose: with more than one version kept
    in memory, whatever the training loop has done to the live modules and
    the gradients since construction, a [load_old_params] that returns has
    put back, in every field of every module whose name contains neither
    "running_" nor "mask", the value the field had at construction, on the
    device the field is on now. *)
Theorem load_old_params_restores_initial_weights optim_name mp model_ps scale
    n vf macrobatch clip stash args w o w1 ms' g' o' w' :
  init optim_name mp model_ps scale n vf macrobatch clip None stash args w
    = Ok (o, w1) →
  (1 < num_versions o)%Z →
  load_old_params (o, with_grads g' (with_modules ms' w1))
    = Ok (tt, (o', w')) →
  ∀ i module cur key p0 p,
    modules w !! i = Some module → ms' !! i = Some cur →
    str_in "running_" key = false → str_in "mask" key = false →
    module !! key = Some p0 → cur !! key = Some p →
    modules w' !! i ≫= (.!! key) = Some (Tensor (t_device p) (t_data p0)).
Proof.
  intros Hi Hn Hl i module cur key p0 p Hm Hcur Hrun Hmask Hp0 Hp.
  pose proof (init_inv _ _ _ _ _ _ _ _ _ _ _ _ _ _ Hi)
    as (_ & _ & _ & _ & _ & Hsd & Hst & _).
  pose proof (init_ring _ _ _ _ _ _ _ _ _ _ _ _ _ _ Hi)
    as (Hit & _ & Hh & _).
  rewrite load_old_params_eq in Hl. apply load_params_ok in Hl.
  rewrite decide_True in Hl by done.
  destruct Hl as (sds & v & w2 & Hg & Hs).
  destruct (Z.to_nat (num_versions o)) as [|k] eqn:Hk; [lia|].
  simpl in Hit. rewrite Nat.add_0_r in Hit.
  rewrite (get_from_queue_eq _ _ _
             (InMemory (seq (length (heap w)) (length (modules w)))
                       Version_new)) in Hg
    by (rewrite Hit; apply py_index_head).
  rewrite Hsd in Hg. injection Hg as <- <- <-.
  pose proof (lookup_lt_Some _ _ _ Hm) as Hlt.
  destruct (set_params_ordinary _ _ _ _ _ _ Hs i (length (heap w) + i) cur
              ((λ t, if stash then cpu (clone t) else clone t) <$> module)
              key p) as (input & Hin & _ & Hres); simpl; try done.
  - by apply lookup_seq.
  - rewrite Hh. simpl.
    pose proof (snapshot_lookup stash (modules w) (S k) 0 i (heap w) module
                  ltac:(lia) Hm) as Hsl.
    simpl in Hsl. by rewrite Nat.add_0_r in Hsl.
  - unfold special. by rewrite Hrun, Hmask.
  - rewrite Hres. rewrite lookup_fmap, Hp0 in Hin. injection Hin as <-.
    by destruct stash.
Qed.

Lemma loadable_ext (cur sd sd1 : state_dict) :
  dom sd1 = dom sd →
  (∀ key, special key = false → sd1 !! key = sd !! key) →
  loadable cur sd ↔ loadable cur sd1.
Proof.
  intros Hd Ho. unfold loadable. rewrite Hd. split; intros [Hdom Hsh].
  - split; [done|]. intros key input p Hk Hi Hp. rewrite Ho in Hi by done.
    by eapply Hsh.
  - split; [done|]. intros key input p Hk Hi Hp. rewrite <- Ho in Hi by done.
    by eapply Hsh.
Qed.

Lemma set_params_module_returns o r i o1 w cur :
  modules w !! i = Some cur →
  is_ok (set_params_module o r i (o1, w)) ↔
  ∃ sd, heap w !! r = Some sd ∧ loadable cur sd.
Proof.
  intros Hcur. split.
  - intros [[[] s'] Hs]. apply set_params_module_ok in Hs. rewrite Hcur in Hs.
    destruct Hs as (sd & sd' & m' & Hsd & Hm & Hl & _).
    exists sd. split; [done|].
    apply load_state_dict_lookup in Hl as [Hdom Hlk].
    rewrite (map_mapM_dom _ _ _ Hm) in Hdom. split; [done|].
    intros key input p Hk Hi Hp. specialize (Hlk key). rewrite Hp in Hlk.
    destruct Hlk as (input' & t & Hi' & Hsh & _).
    rewrite (restore_keeps_ordinary _ _ _ _ _ Hm Hk), Hi in Hi'.
    by injection Hi' as <-.
  - intros (sd & Hsd & Hdom & Hsh).
    unfold set_params_module. cbn. rewrite Hcur. unfold bind at 1.
    unfold deref. cbn. rewrite Hsd. cbn.
    destruct (map_mapM_total (set_params_key o cur) sd) as [sd' Hm].
    { intros key old Hold. unfold set_params_key.
      destruct (str_in "running_" key || str_in "mask" key); [|by eexists].
      assert (is_Some (cur !! key)) as [t ->]; [|by eexists].
      apply elem_of_dom. rewrite <- Hdom. by apply elem_of_dom. }
    unfold bind at 1. unfold lift at 1. rewrite Hm. cbn.
    assert (is_ok (load_state_dict cur sd')) as [m' Hl].
    { unfold load_state_dict.
      rewrite decide_True by (by rewrite (map_mapM_dom _ _ _ Hm)).
      apply map_mapM_total. intros key param Hparam.
      pose proof (map_mapM_lookup _ _ _ Hm key) as Hk.
      assert (is_Some (sd !! key)) as [old Hold].
      { apply elem_of_dom. rewrite Hdom. by apply elem_of_dom. }
      rewrite Hold in Hk. destruct Hk as (input & Hf & ->).
      unfold set_params_key in Hf. fold (special key) in Hf.
      assert (shape (t_data input) = shape (t_data param)) as Hshape.
      { destruct (special key) eqn:Hsp.
        - rewrite Hparam in Hf. injection Hf as <-.
          by destruct (stash_to_cpu o).
        - injection Hf as <-. by eapply Hsh. }
      rewrite decide_True by done. unfold copy_.
      rewrite copy_data_same_shape by done. by eexists. }
    unfold bind at 1. unfold lift at 1. rewrite Hl. cbn.
    match goal with |- is_ok (lift ?m ?s) =>
      assert (is_ok m) as [[] ->]; [|by eexists] end.
    apply map_foldM_total. intros key t acc _.
    destruct (str_in "mask" key); by eexists.
Qed.

Lemma set_params_module_heap_rel o r0 i0 s s1 :
  set_params_module o r0 i0 s = Ok (tt, s1) →
  (∀ i, i ≠ i0 → modules s1.2 !! i = modules s.2 !! i) ∧
  ∀ r, match heap s.2 !! r, heap s1.2 !! r with
       | Some sd, Some sd1 =>
           dom sd1 = dom sd ∧
           ∀ key, special key = false → sd1 !! key = sd !! key
       | None, None => True
       | _, _ => False
       end.
Proof.
  destruct s as [o1 w]. intros Hs%set_params_module_ok. simpl in *.
  destruct (modules w !! i0) as [cur|].
  - destruct Hs as (sd0 & sd' & m' & Hsd0 & Hm & _ & ->). simpl. split.
    + intros i Hi. by rewrite list_lookup_insert_ne.
    + intros r. destruct (decide (r = r0)) as [->|Hne].
      * rewrite Hsd0.
        rewrite list_lookup_insert_eq by (by eapply lookup_lt_Some).
        split; [by eapply map_mapM_dom|].
        intros key Hk. by eapply restore_keeps_ordinary.
      * rewrite list_lookup_insert_ne by done.
        repeat case_match; simplify_eq; done.
  - subst. split; [done|]. intros r. simpl.
    repeat case_match; simplify_eq; done.
Qed.

Lemma set_params_loop_returns o l : ∀ s,
  NoDup l.*2 →
  is_ok (for_each l (λ '(r, i), set_params_module o r i) s) ↔
  ∀ r i cur, (r, i) ∈ l → modules s.2 !! i = Some cur →
             ∃ sd, heap s.2 !! r = Some sd ∧ loadable cur sd.
Proof.
  induction l as [|[r0 i0] l IH]; intros s Hnd.
  - split; [|by eexists]. intros _ r i cur Hin. by apply elem_of_nil in Hin.
  - rewrite fmap_cons in Hnd. simpl in Hnd.
    apply NoDup_cons in Hnd as [Hi0 Hnd]. destruct s as [o1 w].
    assert (∀ s1 r i cur,
      set_params_module o r0 i0 (o1, w) = Ok (tt, s1) → (r, i) ∈ l →
      (modules s1.2 !! i = Some cur →
       ∃ sd, heap s1.2 !! r = Some sd ∧ loadable cur sd) ↔
      (modules w !! i = Some cur →
       ∃ sd, heap w !! r = Some sd ∧ loadable cur sd)) as Hmove.
    { intros s1 r i cur Hs Hin.
      apply set_params_module_heap_rel in Hs as [Hmod Hheap]. simpl in *.
      assert (i ≠ i0) as Hne.
      { intros ->. apply Hi0. apply list_elem_of_fmap. by exists (r, i0). }
      rewrite Hmod by done. specialize (Hheap r).
      destruct (heap w !! r) as [sd|], (heap s1.2 !! r) as [sd1|];
        try done.
      all: try (split; intros Hx Hc; by destruct (Hx Hc) as (? & ? & _)).
      destruct Hheap as [Hd Ho].
      split; intros Hx Hc; destruct (Hx Hc) as (sd2 & [= <-] & Hload);
        eexists; (split; [done|]); by eapply (loadable_ext cur sd sd1). }
    simpl. split.
    + intros [[[] s'] Hs]. apply bind_ok in Hs as ([] & s1 & H1 & H2).
      intros r i cur Hin Hcur. simpl in *.
      apply elem_of_cons in Hin as [[= -> ->]|Hin].
      * apply (set_params_module_returns o r0 i0 o1 w cur Hcur). by eexists.
      * apply (Hmove s1 r i cur H1 Hin); [|done].
        intros Hcur1.
        assert (is_ok (for_each l (λ '(r, i), set_params_module o r i) s1))
          as Hok by (by eexists).
        destruct (IH s1 Hnd) as [Hfwd _]. by eapply (Hfwd Hok).
    + intros Hall. simpl in *.
      assert (is_ok (set_params_module o r0 i0 (o1, w))) as [[[] s1] H1].
      { destruct (modules w !! i0) as [cur|] eqn:Hcur.
        - apply (set_params_module_returns o r0 i0 o1 w cur Hcur).
          apply (Hall r0 i0 cur); [by left|done].
        - unfold set_params_module. cbn. rewrite Hcur. by eexists. }
      unfold bind. rewrite H1.
      destruct (IH s1 Hnd) as [_ Hbwd]. apply Hbwd.
      intros r i cur Hin Hcur1.
      apply (Hmove s1 r i cur H1 Hin); [|done].
      intros Hcur. apply (Hall r i cur); [by right|done].
Qed.

(** X20.  When a restore returns: [set_params] returns exactly when every
    dictionary that is paired with a live module exists, has exactly the
    fields of that module, and has, for every field whose name contains
    neither "running_" nor "mask", the shape the module has; otherwise it
    raises. *)
Theorem set_params_returns_iff sds v o w :
  is_ok (set_params sds v (o, w)) ↔
  ∀ i r cur, sds !! i = Some r → modules w !! i = Some cur →
             ∃ sd, heap w !! r = Some sd ∧ loadable cur sd.
Proof.
  unfold set_params. cbn.
  pose proof (set_params_loop_returns o
                (zip sds (seq 0 (length (modules w)))) (o, w)
                ltac:(apply NoDup_zip_snd, NoDup_seq)) as Hloop.
  simpl in Hloop.
  assert (is_ok (bind (for_each (zip sds (seq 0 (length (modules w))))
                         (λ '(r, i), set_params_module o r i))
                      (λ _, set_self (with_current_version v)) (o, w)) ↔
          is_ok (for_each (zip sds (seq 0 (length (modules w))))
                   (λ '(r, i), set_params_module o r i) (o, w))) as ->.
  { unfold bind. destruct (for_each _ _ _) as [[[] s']|e].
    - split; intros _; by eexists.
    - split; intros [? ?]; done. }
  rewrite Hloop. split.
  - intros Hall i r cur Hi Hcur. apply (Hall r i cur); [|done].
    apply list_elem_of_lookup. exists i. apply lookup_zip_with_Some.
    exists r, i. split; [done|]. split; [done|].
    apply lookup_seq. split; [done|]. by eapply lookup_lt_Some.
  - intros Hall r i cur Hin Hcur.
    apply list_elem_of_lookup in Hin as [j Hj].
    apply lookup_zip_with_Some in Hj as (r' & i' & [= <- <-] & Hr & Hs).
    apply lookup_seq in Hs as [-> _]. simpl in *. by apply (Hall j r cur).
Qed.


(** X22.  Stashing then restoring is the identity: after a real update
    with more than one version kept in memory, a [load_new_params] that
    returns leaves every field of every live module whose name contains
    neither "running_" nor "mask" as the update left it, provided the
    dictionary it was stashed in held the field with the same shape. *)
Theorem load_new_params_after_update_is_identity o w r o' w' o'' w'' :
  ring_inv o w → (1 < num_versions o)%Z → save_dir o = None →
  (batch_counter o `mod` update_interval o = update_interval o - 1)%Z →
  step (o, w) = Ok (r, (o', w')) →
  load_new_params (o', w') = Ok (tt, (o'', w'')) →
  ∀ sds v0 rest, items (queue o) = InMemory sds v0 :: rest → NoDup sds →
  ∀ i module r sd key p dst,
    modules w' !! i = Some module → sds !! i = Some r →
    heap w !! r = Some sd →
    str_in "running_" key = false → str_in "mask" key = false →
    module !! key = Some p → sd !! key = Some dst →
    shape (t_data dst) = shape (t_data p) →
    modules w'' !! i ≫= (.!! key) = Some p.
Proof.
  intros Hi Hn Hsd Hm Hs Hl sds v0 rest Hit Hnd i module r0 sd key p dst
    Hmod Hr0 Hsd0 Hrun Hmask Hp Hdst Hshape.
  destruct (step_update_stash _ _ _ _ _ Hi Hn Hsd Hm Hs)
    as (sds1 & v1 & rest1 & Hit1 & Hit' & Hlen & Hfr & Hre).
  rewrite Hit in Hit1. injection Hit1 as <- <- <-.
  destruct (Hre Hnd i module r0 sd Hmod Hr0 Hsd0) as (sd' & Hsd' & Hk).
  specialize (Hk key). rewrite Hp, Hrun, Hmask in Hk.
  destruct Hk as (dst0 & dst' & Hdst0 & Hcp & Hkey).
  rewrite Hdst in Hdst0. injection Hdst0 as <-.
  unfold copy_ in Hcp.
  assert (t_data (if stash_to_cpu o then cpu p else p) = t_data p) as Hd
    by by destruct (stash_to_cpu o).
  rewrite Hd in Hcp. rewrite copy_data_same_shape in Hcp by done.
  injection Hcp as <-.
  pose proof (step_frame _ _ _ _ _ Hs) as (Hcfg & _).
  destruct Hcfg as (_ & _ & _ & _ & Hdir & _ & Hnv & _).
  rewrite load_new_params_eq in Hl. apply load_params_ok in Hl.
  rewrite decide_True in Hl by (by rewrite Hnv).
  destruct Hl as (sds2 & v2 & w2 & Hg & Hset).
  rewrite (get_from_queue_eq _ _ _ (InMemory sds (incr (latest_version o))))
    in Hg by (rewrite Hit'; apply py_index_last).
  rewrite Hdir, Hsd in Hg. injection Hg as <- <- <-.
  destruct (set_params_ordinary _ _ _ _ _ _ Hset i r0 module sd' key p)
    as (input & Hin & _ & Hres); try done.
  { unfold special. by rewrite Hrun, Hmask. }
  rewrite Hres. rewrite Hkey in Hin. injection Hin as <-. simpl.
  by destruct p.
Qed.

End OptimizerFacts.


(** * Properties of the hand-off queue *)

Module HandoffQueueProofs.
Import HandoffQueue.

Section Facts.
Context {A : Type}.
Implicit Types (s : system A) (xs : list A) (t : thread).

Local Instance Next_inj : Inj (=) (=) (@Next A).
Proof. by intros ?? [= ->]. Qed.

Lemma inv_start xs k : inv xs k (start xs k).
Proof. split; simpl; try done. naive_solver. Qed.

Ltac crush_step :=
  repeat match goal with
  | H : Next _ = Next _ |- _ => apply (inj Next) in H; subst
  | H : Some _ = Some _ |- _ => apply (inj Some) in H; subst
  | H : context [decide ?P] |- _ => destruct (decide P); simpl in H
  | H : _ ∧ _ |- _ => destruct H
  | H : match ?x with _ => _ end = _ |- _ =>
      let E := fresh "E" in destruct x eqn:E; simpl in H; try discriminate
  | _ => progress (simpl in *; simplify_eq)
  end.

Lemma inv_step xs k s s' : inv xs k s → step s s' → inv xs k s'.
Proof.
  intros [Hf Ho Hm Hw Hp Hwt Hpk Hc] [t Ht].
  destruct s as [[q [o ws]] ppc ptodo cpc ctodo got].
  unfold holder, p_critical, c_critical, c_busy, in_flight, in_hand in *.
  destruct t; simpl in *.
  - unfold producer_step, acquire, release, unpark in Ht; simpl in Ht.
    destruct ppc, cpc; crush_step;
      (split; unfold holder, p_critical, c_critical, c_busy, in_flight, in_hand;
       simpl; rewrite <- ?app_assoc, ?length_app; simpl; try done;
       try lia; try (intros _; by apply nil_length_inv); try naive_solver).
  - unfold consumer_step, acquire, release in Ht; simpl in Ht.
    destruct cpc, ppc; crush_step;
      (split; unfold holder, p_critical, c_critical, c_busy, in_flight, in_hand;
       simpl; rewrite <- ?app_assoc, ?length_app; simpl; try done;
       try lia; try (intros _; by apply nil_length_inv); try naive_solver).
Qed.

(** Every schedule runs without an exception, and the invariant holds in the
    state it reaches. *)
Lemma inv_no_error xs k s t : inv xs k s → thread_step t s ≠ Error.
Proof.
  intros [Hf Ho Hm Hw Hp Hwt Hpk Hc].
  destruct s as [[q [o ws]] ppc ptodo cpc ctodo got].
  unfold holder, p_critical, c_critical in *.
  destruct t; simpl in *.
  - unfold producer_step, acquire, release; simpl.
    destruct ppc; simpl in *; subst; repeat case_match; try done;
      repeat case_decide; done.
  - unfold consumer_step, acquire, release; simpl.
    destruct cpc, ppc; simpl in *; subst; repeat case_match; try done;
      repeat case_decide; naive_solver.
Qed.

Lemma run_inv xs k sched s :
  inv xs k s → ∃ s', run sched s = Some s' ∧ inv xs k s'.
Proof.
  revert s. induction sched as [|t sched IH]; intros s Hs; simpl.
  - eauto.
  - destruct (thread_step t s) as [s1| |] eqn:Et.
    + apply IH. eapply inv_step; [done|]. by exists t.
    + by apply IH.
    + by destruct (inv_no_error xs k s t).
Qed.

(** A state in which no thread can move: the producer has added everything,
    the queue is empty unless the consumer has made all its calls, and the
    consumer has returned the first [k] payloads. *)
Lemma inv_stuck xs k s :
  inv xs k s → stuck s →
  p_pc s = P_idle ∧ p_todo s = [] ∧
  (c_pc s = C_idle ∧ c_todo s = 0 ∨ c_pc s = C_parked ∧ queue (obj s) = []).
Proof.
  intros [Hf Ho Hm Hw Hp Hwt Hpk Hc] Hst.
  pose proof (Hst Producer) as HP. pose proof (Hst Consumer) as HC.
  destruct s as [[q [o ws]] ppc ptodo cpc ctodo got].
  unfold holder, p_critical, c_critical in *. simpl in *.
  unfold producer_step, consumer_step, acquire, release in *; simpl in *.
  destruct ppc, cpc; simpl in *; subst;
    repeat (case_match; simplify_eq); repeat case_decide; naive_solver.
Qed.

Lemma stuck_got xs k s : inv xs k s → stuck s → c_got s = take k xs.
Proof.
  intros Hi Hst. destruct (inv_stuck _ _ _ Hi Hst) as (Hp & Ht & Hc).
  destruct Hi as [Hf _ _ _ _ _ _ Hk].
  unfold in_flight, in_hand, c_busy in *. rewrite Hp, Ht in Hf.
  destruct Hc as [[Hc Hn]|[Hc Hq]]; rewrite Hc in *; simpl in *.
  - rewrite Hf, <- Hk, Hn, !Nat.add_0_r. by rewrite take_app_length.
  - rewrite Hq in Hf. simpl in Hf. rewrite app_nil_r in Hf. subst xs.
    rewrite take_ge; [done|lia].
Qed.

Lemma step_measure s s' : step s s' → measure s' < measure s.
Proof.
  intros [t Ht]. destruct s as [[q [o ws]] ppc ptodo cpc ctodo got].
  unfold measure. destruct t; simpl in *.
  - unfold producer_step, acquire, release, unpark in Ht; simpl in Ht.
    destruct ppc; simpl in *; repeat (case_match; simplify_eq);
      repeat case_decide; simplify_eq; simpl; try lia;
      destruct cpc; simpl; lia.
  - unfold consumer_step, acquire, release in Ht; simpl in Ht.
    destruct cpc; simpl in *; repeat (case_match; simplify_eq);
      repeat case_decide; simplify_eq; simpl; lia.
Qed.

Lemma not_stuck_step xs k s :
  inv xs k s → ¬ stuck s → ∃ s', step s s'.
Proof.
  intros Hi Hn.
  destruct (thread_step Producer s) as [s1| |] eqn:EP.
  - exists s1. by exists Producer.
  - destruct (thread_step Consumer s) as [s1| |] eqn:EC.
    + exists s1. by exists Consumer.
    + destruct Hn. by intros [].
    + by destruct (inv_no_error xs k s Consumer).
  - by destruct (inv_no_error xs k s Producer).
Qed.

Lemma run_stuck sched s : stuck s → run sched s = Some s.
Proof.
  intros Hs. induction sched as [|t sched IH]; simpl; [done|].
  by rewrite (Hs t).
Qed.

Lemma measure_zero_stuck s : measure s = 0 → stuck s.
Proof.
  unfold measure. intros Hm.
  destruct s as [q ppc ptodo cpc ctodo got]. simpl in *.
  assert (length ptodo = 0 ∧ p_rank ppc = 0 ∧ ctodo = 0 ∧ c_rank cpc = 0)
    as (Hp & Hpr & -> & Hcr) by lia.
  apply nil_length_inv in Hp as ->.
  destruct ppc; try done. destruct cpc; try done. by intros [].
Qed.

Lemma round_robin_stuck xs k n : ∀ s,
  inv xs k s → measure s ≤ n →
  ∃ s', run (round_robin n) s = Some s' ∧ inv xs k s' ∧ stuck s'.
Proof.
  induction n as [|n IH]; intros s Hi Hm.
  - exists s. split; [done|]. split; [done|].
    apply measure_zero_stuck. lia.
  - unfold round_robin. cbn [replicate concat app run].
    fold (round_robin n).
    destruct (thread_step Producer s) as [s1| |] eqn:EP.
    + assert (step s s1) as Hst by (by exists Producer).
      pose proof (inv_step _ _ _ _ Hi Hst) as Hi1.
      pose proof (step_measure _ _ Hst) as Hm1.
      destruct (thread_step Consumer s1) as [s2| |] eqn:EC.
      * assert (step s1 s2) as Hst2 by (by exists Consumer).
        pose proof (step_measure _ _ Hst2).
        apply IH; [by eapply inv_step|lia].
      * apply IH; [done|lia].
      * by destruct (inv_no_error xs k s1 Consumer).
    + destruct (thread_step Consumer s) as [s2| |] eqn:EC.
      * assert (step s s2) as Hst2 by (by exists Consumer).
        pose proof (step_measure _ _ Hst2).
        apply IH; [by eapply inv_step|lia].
      * assert (stuck s) as Hstuck by (by intros []).
        exists s. split; [by apply run_stuck|done].
      * by destruct (inv_no_error xs k s Consumer).
    + by destruct (inv_no_error xs k s Producer).
Qed.

(** C3. The values [remove] returns are the payloads [add] was given, in the
    order of the calls, none dropped, repeated or moved: under every
    schedule of the producer adding [xs] and the consumer calling [remove]
    [k] times, no statement raises, the values returned so far are a prefix
    of [xs], a state in which no thread can move has returned exactly the
    first [k] payloads (all of [xs] when [k] is its length), and in any
    other state some thread can move and every move decreases [measure], so
    that such a final state is reached. *)
Theorem remove_returns_payloads_in_order xs k sched :
  ∃ s, run sched (start xs k) = Some s ∧
       c_got s `prefix_of` xs ∧
       (stuck s → c_got s = take k xs) ∧
       (stuck s → k = length xs → c_got s = xs) ∧
       (¬ stuck s → ∃ s', step s s') ∧
       (∀ s', step s s' → measure s' < measure s).
Proof.
  destruct (run_inv xs k sched (start xs k) (inv_start xs k)) as (s & Hr & Hi).
  exists s. split; [done|]. split; [|split; [|split; [|split]]].
  - destruct Hi as [Hf _ _ _ _ _ _ _]. rewrite Hf. by eexists.
  - by apply stuck_got.
  - intros Hst ->. rewrite (stuck_got xs _ s Hi Hst). by rewrite firstn_all.
  - by apply (not_stuck_step xs k).
  - apply step_measure.
Qed.

(** C9. [remove] blocks while the queue is empty and returns the oldest
    payload once there is one, and no wake-up is lost.  In every state that
    a schedule reaches: every call of [remove] that has returned has
    returned a payload, and the payloads returned, being returned and
    queued are exactly those that [add] has appended so far, oldest first,
    so that no call returns before a payload is there; a consumer that finds
    the queue empty goes on to [wait()] and is parked there, unable to move;
    while it is between its test and its [wait()] the producer holds no
    lock, so it can neither append nor notify; [popleft] runs only on a
    non-empty queue and the call returns its head; a parked consumer faces
    an empty queue, or a producer that is about to notify it; when no
    thread can move, the producer has added everything, the first [k]
    payloads have been returned, and no call is left waiting if there were
    payloads for all of them; in any other state some thread can move and
    every move decreases [measure]; and letting the threads move in turn
    from that state completes the calls. *)
Theorem remove_blocks_and_no_wakeup_is_lost xs k sched :
  ∃ s, run sched (start xs k) = Some s ∧
       length (c_got s) + c_busy s + c_todo s = k ∧
       c_got s ++ in_flight s ++ queue (obj s)
         = take (length xs - length (in_hand s ++ p_todo s)) xs ∧
       (c_pc s = C_test → queue (obj s) = [] →
        ∃ s1 s2, consumer_step s = Next s1 ∧ c_pc s1 = C_wait ∧
                 consumer_step s1 = Next s2 ∧ c_pc s2 = C_parked ∧
                 waiters (cv (obj s2)) = [Consumer] ∧
                 consumer_step s2 = Blocked) ∧
       (c_pc s = C_test ∨ c_pc s = C_wait →
        owner (cv (obj s)) = Some Consumer ∧ p_critical s = false) ∧
       (c_pc s = C_popleft →
        ∃ x rest s1 s2, queue (obj s) = x :: rest ∧
                 consumer_step s = Next s1 ∧ consumer_step s1 = Next s2 ∧
                 c_got s2 = c_got s ++ [x]) ∧
       (c_pc s = C_parked → queue (obj s) = [] ∨ p_pc s = P_notify) ∧
       (stuck s → p_todo s = [] ∧ p_pc s = P_idle ∧
                  (queue (obj s) = [] ∨ c_pc s = C_idle ∧ c_todo s = 0)) ∧
       (stuck s → c_got s = take k xs ∧
                  (k ≤ length xs → c_pc s = C_idle ∧ c_todo s = 0)) ∧
       (¬ stuck s → ∃ s', step s s') ∧
       (∀ s', step s s' → measure s' < measure s) ∧
       (∀ n, measure s ≤ n →
          ∃ s', run (round_robin n) s = Some s' ∧ stuck s' ∧
                c_got s' = take k xs).
Proof.
  destruct (run_inv xs k sched (start xs k) (inv_start xs k)) as (s & Hr & Hi).
  exists s. split; [done|].
  pose proof (inv_stuck xs k s Hi) as Hstuck.
  pose proof (stuck_got xs k s Hi) as Hgot.
  pose proof (not_stuck_step xs k s Hi) as Hmove.
  pose proof (step_measure s) as Hdecr.
  assert (∀ n, measure s ≤ n →
            ∃ s', run (round_robin n) s = Some s' ∧ stuck s' ∧
                  c_got s' = take k xs) as Hlive.
  { intros n Hn.
    destruct (round_robin_stuck xs k n s Hi Hn) as (s' & Hr' & Hi' & Hst').
    exists s'. split; [done|]. split; [done|]. by apply (stuck_got xs k). }
  assert (stuck s → k ≤ length xs → c_pc s = C_idle ∧ c_todo s = 0) as Hall.
  { intros Hst Hk. destruct (Hstuck Hst) as (Hp & Ht & [Hc|[Hc Hq]]); [done|].
    destruct Hi as [Hf _ _ _ _ _ _ Hcount].
    unfold in_flight, in_hand, c_busy in *.
    rewrite Hp, Ht, Hc, Hq in *. simpl in *. rewrite app_nil_r in Hf.
    subst xs. lia. }
  assert (c_got s ++ in_flight s ++ queue (obj s)
          = take (length xs - length (in_hand s ++ p_todo s)) xs) as Havail.
  { destruct Hi as [Hf _ _ _ _ _ _ _].
    assert (xs = (c_got s ++ in_flight s ++ queue (obj s))
                 ++ (in_hand s ++ p_todo s)) as Hx
      by (rewrite Hf at 1; by rewrite <- !app_assoc).
    rewrite Hx. rewrite take_app_length'; [done|]. rewrite length_app. lia. }
  destruct Hi as [Hf Ho Hm Hw Hp Hwt Hpk Hc].
  split; [done|]. split; [done|].
  clear Havail Hf.
  split; [|split; [|split; [|split; [done|split; [|split; [|by split_and!]]]]]].
  - clear Hstuck Hgot Hall Hmove Hdecr Hlive.
    destruct s as [[q [o ws]] ppc ptodo cpc ctodo got].
    unfold holder, p_critical, c_critical in *. simpl in *.
    intros -> ->. unfold consumer_step; simpl.
    destruct ppc; simpl in *; subst; try (by destruct Hm);
      (eexists _, _; simpl; repeat split; simpl; try done;
       unfold consumer_step; simpl; by rewrite ?decide_True).
  - clear Hstuck Hgot Hall Hmove Hdecr Hlive.
    destruct s as [[q [o ws]] ppc ptodo cpc ctodo got].
    unfold holder, p_critical, c_critical in *. simpl in *.
    intros [->| ->]; destruct ppc; simpl in *; try done; by destruct Hm.
  - clear Hstuck Hgot Hall Hmove Hdecr Hlive.
    destruct s as [[q [o ws]] ppc ptodo cpc ctodo got].
    unfold holder, p_critical, c_critical in *. simpl in *.
    intros ->. destruct q as [|x rest]; [by destruct Hp|].
    exists x, rest. unfold consumer_step, release; simpl.
    destruct ppc; simpl in *; subst; try (by destruct Hm);
      (eexists _, _; simpl; repeat split; simpl; try done).
  - intros Hst. destruct (Hstuck Hst) as (-> & -> & [[-> ->]|[-> ->]]);
      auto.
  - intros Hst. split; [by apply Hgot|by apply Hall].
Qed.

(** ** Further properties *)

(** X23.  The lock discipline: in every state a schedule reaches, at most
    one thread is between its [acquire()] and its [release()] (or its
    [wait()]), the lock is held by exactly that thread, and the only thread
    ever waiting on the condition is a consumer parked in [wait()]. *)
Theorem lock_is_held_by_the_thread_inside xs k sched :
  ∃ s, run sched (start xs k) = Some s ∧
       ¬ (p_critical s ∧ c_critical s) ∧
       owner (cv (obj s)) = holder s ∧
       waiters (cv (obj s))
         = match c_pc s with C_parked => [Consumer] | _ => [] end.
Proof.
  destruct (run_inv xs k sched (start xs k) (inv_start xs k)) as (s & Hr & Hi).
  exists s. by destruct Hi.
Qed.

(** X24.  Nothing is lost between the threads: in every state a schedule
    reaches, the payloads returned, the one being returned, those in the
    queue, the one being added and those still to add make up the payloads
    given, in order; and the calls of [remove] returned, in progress and
    still to make add up to those requested. *)
Theorem payloads_are_conserved xs k sched :
  ∃ s, run sched (start xs k) = Some s ∧
       xs = c_got s ++ in_flight s ++ queue (obj s) ++ in_hand s ++ p_todo s ∧
       length (c_got s) + c_busy s + c_todo s = k.
Proof.
  destruct (run_inv xs k sched (start xs k) (inv_start xs k)) as (s & Hr & Hi).
  exists s. by destruct Hi.
Qed.

(** X25.  The calls complete: when the two threads move in turn, after at
    most [20 * len(payloads) + 8 * removals] rounds no thread can move any
    more, and [remove] has returned the first [removals] payloads, in
    order. *)
Theorem round_robin_delivers xs k n :
  20 * length xs + 8 * k ≤ n →
  ∃ s, run (round_robin n) (start xs k) = Some s ∧ stuck s ∧
       c_got s = take k xs.
Proof.
  intros Hn.
  destruct (round_robin_stuck xs k n (start xs k) (inv_start xs k))
    as (s & Hr & Hi & Hst).
  { unfold measure, start. simpl. lia. }
  exists s. split; [done|]. split; [done|]. by apply (stuck_got xs k).
Qed.

Lemma run_app sched1 sched2 s :
  run (sched1 ++ sched2) s = run sched1 s ≫= run sched2.
Proof.
  revert s. induction sched1 as [|t sched1 IH]; intros s; simpl; [done|].
  destruct (thread_step t s); by rewrite ?IH.
Qed.

Lemma producer_alone xs : ∀ q k,
  run (replicate (5 * length xs) Producer)
      (mkSystem (mkQueue q (mkCondition None [])) P_idle xs C_idle k [])
  = Some (mkSystem (mkQueue (q ++ xs) (mkCondition None [])) P_idle []
                   C_idle k []).
Proof.
  induction xs as [|x xs IH]; intros q k.
  - simpl. by rewrite app_nil_r.
  - replace (5 * length (x :: xs)) with (5 + 5 * length xs) by (simpl; lia).
    rewrite replicate_add, run_app.
    assert (run (replicate 5 Producer)
              (mkSystem (mkQueue q (mkCondition None [])) P_idle (x :: xs)
                        C_idle k [])
            = Some (mkSystem (mkQueue (q ++ [x]) (mkCondition None []))
                             P_idle xs C_idle k [])) as -> by done.
    simpl. rewrite IH. by rewrite <- app_assoc.
Qed.

(** X26.  [add] never waits for [remove]: a producer that runs alone
    completes all its calls, in five steps each (the call and its four
    statements), and leaves the payloads in the queue in the order given,
    with the lock free. *)
Theorem add_never_waits_for_remove xs k :
  ∃ s, run (replicate (5 * length xs) Producer) (start xs k) = Some s ∧
       queue (obj s) = xs ∧ p_pc s = P_idle ∧ p_todo s = [] ∧
       owner (cv (obj s)) = None ∧ c_got s = [] ∧
       thread_step Producer s = Blocked.
Proof.
  eexists. split; [apply (producer_alone xs [] k)|]. done.
Qed.

(** X27.  [remove] blocks for ever when nothing is left to return: if more
    removals are requested than payloads are added, then in every state in
    which no thread can move the consumer is parked in [wait()] on an empty
    queue, all payloads having been returned. *)
Theorem remove_without_payload_blocks_forever xs k sched s :
  length xs < k → run sched (start xs k) = Some s → stuck s →
  c_pc s = C_parked ∧ queue (obj s) = [] ∧ c_got s = xs ∧
  waiters (cv (obj s)) = [Consumer] ∧ owner (cv (obj s)) = None.
Proof.
  intros Hk Hr Hst.
  destruct (run_inv xs k sched (start xs k) (inv_start xs k))
    as (s' & Hr' & Hi).
  rewrite Hr in Hr'. injection Hr' as <-.
  pose proof (stuck_got xs k s Hi Hst) as Hgot.
  rewrite take_ge in Hgot by lia.
  destruct (inv_stuck xs k s Hi Hst) as (Hp & Ht & [[Hc Hn]|[Hc Hq]]).
  - destruct Hi as [_ _ _ _ _ _ _ Hcount]. unfold c_busy in Hcount.
    rewrite Hc, Hn, Hgot in Hcount. lia.
  - destruct Hi as [_ Ho _ Hw _ _ _ _]. rewrite Hc in Hw.
    split_and!; try done. rewrite Ho. unfold holder, p_critical, c_critical.
    by rewrite Hp, Hc.
Qed.

End Facts.

(** The example of the design document: the producer adds 1, 2, 3 while the
    consumer, scheduled first, finds the queue empty and parks; the three
    removals return 1, 2, 3, and no thread can move any more. *)
Example three_payloads :
  let schedule :=
    [Consumer; Consumer; Consumer; Consumer; Producer; Producer; Producer;
     Producer; Consumer; Producer; Producer; Consumer; Producer; Producer;
     Consumer; Consumer; Producer; Consumer; Consumer; Producer; Producer;
     Consumer; Consumer; Consumer; Consumer; Consumer; Producer; Producer;
     Producer; Consumer; Consumer; Consumer; Consumer; Consumer; Consumer;
     Consumer; Consumer; Consumer; Consumer; Consumer; Consumer; Producer;
     Producer; Producer; Producer; Producer; Consumer; Consumer; Consumer;
     Consumer; Consumer; Consumer; Consumer; Consumer] in
  ∃ s : system nat, run schedule (start [1; 2; 3] 3) = Some s ∧ c_got s = [1; 2; 3] ∧
       thread_step Producer s = Blocked ∧ thread_step Consumer s = Blocked.
Proof. eexists. vm_compute. done. Qed.

(** A consumer that is scheduled before anything was added parks, and a
    fourth removal after three payloads stays parked for ever. *)
Example parked_consumer :
  (∃ s : system nat, run [Consumer; Consumer; Consumer; Consumer; Consumer]
          (start [1; 2; 3] 3) = Some s ∧
        c_pc s = C_parked ∧ waiters (cv (obj s)) = [Consumer] ∧
        owner (cv (obj s)) = None) ∧
  (∃ s : system nat, run (replicate 40 Producer ++ replicate 40 Consumer)
          (start [1; 2; 3] 4) = Some s ∧
        c_got s = [1; 2; 3] ∧ c_pc s = C_parked ∧
        thread_step Producer s = Blocked).
Proof. split; eexists; vm_compute; done. Qed.

End HandoffQueueProofs.


(** * Concrete runs *)

Section Runs.
Import Toy.
Local Open Scope string_scope.
Local Open Scope Z_scope.

(** What a run shows is read off by evaluation; equations between states
    follow from the lemmas on runs. *)
Ltac observe := vm_compute; first [reflexivity | by intros [=] | lia].

(** The constructor, when it returns, returns the state [start] names. *)
Lemma init_start mp n macrobatch dir :
  is_ok_b (init "SGD" mp None 1 n 0 macrobatch None dir false tt world0)
    = true →
  init "SGD" mp None 1 n 0 macrobatch None dir false tt world0
    = Ok (start mp n macrobatch dir).
Proof. unfold start. by destruct (init _ _ _ _ _ _ _ _ _ _ _ _). Qed.

Lemma base_is_eq o gs st :
  base_is o gs st = true → base_optimizer o = Some (BaseOpt gs (false, st)).
Proof.
  unfold base_is. destruct (base_optimizer o) as [[gs' st']|]; [|done]. simpl.
  by intros [->%bool_decide_eq_true ->%bool_decide_eq_true]%andb_true_iff.
Qed.

(** The constructor returns in each of the configurations used below. *)
Example init_single :
  init "SGD" (ParamList [0%nat]) None 1 1 0 false None None false tt world0
    = Ok single.
Proof. apply init_start. observe. Qed.

Example init_disk :
  init "SGD" (ParamList [0%nat]) None 1 2 0 false None (Some "stash") false tt
       world0 = Ok disk.
Proof. apply init_start. observe. Qed.

Example init_empty :
  init "SGD" (ParamList []) None 1 1 0 false None None false tt world0
    = Ok empty.
Proof. apply init_start. observe. Qed.

Example init_groups :
  init "SGD" (ParamGroups [[0%nat]; [1%nat]]) None 1 2 0 true None None false
       tt world0 = Ok groups.
Proof. apply init_start. observe. Qed.

Example init_triple :
  init "SGD" (ParamList [0%nat]) None 1 3 0 false None None false tt world0
    = Ok triple.
Proof. apply init_start. observe. Qed.

Example init_macro :
  init "SGD" (ParamList [0%nat]) None 1 2 0 true None None false tt world0
    = Ok macro.
Proof. apply init_start. observe. Qed.

Example macro_collapses :
  num_versions (start (ParamList [0%nat]) 5 true None).1 = 2 ∧
  update_interval (start (ParamList [0%nat]) 5 true None).1 = 2 ∧
  length (items (queue (start (ParamList [0%nat]) 5 true None).1)) = 2%nat.
Proof. split_and!; observe. Qed.

Example init_no_versions :
  init "SGD" (ParamList [0%nat]) None 1 0 0 false None None false tt world0
    = Raise IndexError.
Proof.
  match goal with |- ?m = _ =>
    assert (match m with Raise IndexError => True | _ => False end) as Hr
      by (vm_compute; exact I);
    by destruct m as [?|[]]
  end.
Qed.

Lemma step_cadence_witness :
  (1 ≤ update_interval (after [CallStep; CallStep; CallStep] every_fourth).1) ∧
  batch_counter (after [CallStep; CallStep; CallStep] every_fourth).1
    `mod` update_interval (after [CallStep; CallStep; CallStep] every_fourth).1
    = update_interval (after [CallStep; CallStep; CallStep] every_fourth).1 - 1 ∧
  step every_fourth = Ok (None, after [CallStep] every_fourth) ∧
  step (after [CallStep] every_fourth)
    = Ok (None, after [CallStep; CallStep] every_fourth) ∧
  step (after [CallStep; CallStep] every_fourth)
    = Ok (None, after [CallStep; CallStep; CallStep] every_fourth) ∧
  step (after [CallStep; CallStep; CallStep] every_fourth)
    = Ok (None, after [CallStep; CallStep; CallStep; CallStep] every_fourth) ∧
  updates (log (after [CallStep; CallStep; CallStep] every_fourth).2) = 0%nat ∧
  updates (log (after [CallStep; CallStep; CallStep; CallStep] every_fourth).2)
    = 1%nat ∧
  version (latest_version
             (after [CallStep; CallStep; CallStep; CallStep] every_fourth).1)
    = version (latest_version
                 (after [CallStep; CallStep; CallStep] every_fourth).1) + 1 ∧
  version (latest_version
             (after [CallStep; CallStep; CallStep] every_fourth).1) = 0.
Proof.
  assert (step (after [CallStep; CallStep; CallStep] every_fourth)
          = Ok (None, after [CallStep; CallStep; CallStep; CallStep] every_fourth))
    as H4 by (apply (step_after [CallStep; CallStep; CallStep]); observe).
  assert (1 ≤ update_interval
                (after [CallStep; CallStep; CallStep] every_fourth).1) as Hu
    by observe.
  assert (batch_counter (after [CallStep; CallStep; CallStep] every_fourth).1
            `mod` update_interval
                    (after [CallStep; CallStep; CallStep] every_fourth).1
          = update_interval
              (after [CallStep; CallStep; CallStep] every_fourth).1 - 1) as Hm
    by observe.
  destruct (step_cadence
              (after [CallStep; CallStep; CallStep] every_fourth).1
              (after [CallStep; CallStep; CallStep] every_fourth).2 Hu)
    as [_ Hupd].
  destruct (Hupd Hm _ _ _ (run_eta step _ _ _ H4)) as (_ & Hv & _).
  split_and!;
    [exact Hu|exact Hm|apply step_first; observe
    |apply (step_after [CallStep]); observe
    |apply (step_after [CallStep; CallStep]); observe
    |exact H4|observe|observe|exact Hv|observe].
Defined.

Lemma step_cadence_counterexample :
  (1 ≤ update_interval empty.1) ∧
  batch_counter empty.1 `mod` update_interval empty.1
    = update_interval empty.1 - 1 ∧
  step empty = Ok (None, after [CallStep] empty) ∧
  updates (log (after [CallStep] empty).2) = updates (log empty.2) ∧
  updates (log (after [CallStep] empty).2) ≠ (updates (log empty.2) + 1)%nat ∧
  version (latest_version (after [CallStep] empty).1)
    = version (latest_version empty.1) + 1.
Proof.
  split_and!;
    [observe|observe|apply step_first; observe|observe|observe|observe].
Qed.

(** *** C2 *)

Lemma ring_size_and_tags_witness :
  init "SGD" (ParamList [0%nat]) None 1 3 0 false None None false tt world0
    = Ok (triple.1, triple.2) ∧
  for_each [CallStep; CallLoadOld; CallStep; CallZeroGrad; CallStep] exec
      (triple.1, triple.2)
    = Ok (tt,
          ((after [CallStep; CallLoadOld; CallStep; CallZeroGrad; CallStep]
              triple).1,
           (after [CallStep; CallLoadOld; CallStep; CallZeroGrad; CallStep]
              triple).2)) ∧
  ring_tags
    (after [CallStep; CallLoadOld; CallStep; CallZeroGrad; CallStep] triple).1
    (after [CallStep; CallLoadOld; CallStep; CallZeroGrad; CallStep] triple).2
    = (λ i, Some (claimed_tag 3 3 i)) <$> seq 0 3 ∧
  ring_tags
    (after [CallStep; CallLoadOld; CallStep; CallZeroGrad; CallStep] triple).1
    (after [CallStep; CallLoadOld; CallStep; CallZeroGrad; CallStep] triple).2
    = [Some 1; Some 2; Some 3].
Proof.
  assert (init "SGD" (ParamList [0%nat]) None 1 3 0 false None None false tt
            world0 = Ok (triple.1, triple.2)) as Hi
    by (apply ok_eta, init_triple).
  assert (for_each [CallStep; CallLoadOld; CallStep; CallZeroGrad; CallStep]
            exec (triple.1, triple.2)
          = Ok (tt,
                ((after [CallStep; CallLoadOld; CallStep; CallZeroGrad;
                         CallStep] triple).1,
                 (after [CallStep; CallLoadOld; CallStep; CallZeroGrad;
                         CallStep] triple).2))) as Hr
    by (apply (run_eta (for_each _ exec)), after_ok; observe).
  destruct (ring_size_and_tags _ _ _ _ _ _ _ _ _ _ _ _ _ _ _ _ _ Hi Hr)
    as (_ & _ & _ & Ht).
  assert (num_versions
            (after [CallStep; CallLoadOld; CallStep; CallZeroGrad; CallStep]
               triple).1 = 3) as Hn by observe.
  assert (version (latest_version
            (after [CallStep; CallLoadOld; CallStep; CallZeroGrad; CallStep]
               triple).1) = 3) as Hv by observe.
  rewrite Hn, Hv in Ht.
  split_and!; [exact Hi|exact Hr|exact (Ht ltac:(lia) ltac:(lia))|observe].
Defined.

Lemma ring_tags_counterexample :
  ring_tags pair.1 pair.2 = [Some 0; Some 0] ∧
  (λ i, Some (claimed_tag (num_versions pair.1)
                (version (latest_version pair.1)) i)) <$> seq 0 2
    = [Some (-1); Some 0] ∧
  step single = Ok (None, after [CallStep] single) ∧
  version (latest_version (after [CallStep] single).1) = 1 ∧
  ring_tags (after [CallStep] single).1 (after [CallStep] single).2 = [Some 0].
Proof.
  split_and!; [observe|observe|apply step_first; observe|observe|observe].
Qed.

(** *** C4 *)

Lemma restore_keeps_running_statistics_and_masks_witness :
  load_old_params ((after [Training [module1] ∅] pair).1,
                   (after [Training [module1] ∅] pair).2)
    = Ok (tt, ((after [Training [module1] ∅; CallLoadOld] pair).1,
               (after [Training [module1] ∅; CallLoadOld] pair).2)) ∧
  modules (after [Training [module1] ∅; CallLoadOld] pair).2 !! 0%nat
    ≫= (.!! "bn.running_mean")
    = modules (after [Training [module1] ∅] pair).2 !! 0%nat
        ≫= (.!! "bn.running_mean") ∧
  modules (after [Training [module1] ∅; CallLoadOld] pair).2 !! 0%nat
    ≫= (.!! "attn.mask")
    = modules (after [Training [module1] ∅] pair).2 !! 0%nat
        ≫= (.!! "attn.mask") ∧
  t_data <$> (heap (after [Training [module1] ∅] pair).2 !! 0%nat
                ≫= (.!! "bn.running_mean")) = Some [5] ∧
  t_data <$> (modules (after [Training [module1] ∅; CallLoadOld] pair).2
                !! 0%nat ≫= (.!! "bn.running_mean")) = Some [7] ∧
  t_data <$> (modules (after [Training [module1] ∅; CallLoadOld] pair).2
                !! 0%nat ≫= (.!! "attn.mask")) = Some [1; 1; 0].
Proof.
  assert (load_old_params ((after [Training [module1] ∅] pair).1,
                           (after [Training [module1] ∅] pair).2)
          = Ok (tt, ((after [Training [module1] ∅; CallLoadOld] pair).1,
                     (after [Training [module1] ∅; CallLoadOld] pair).2)))
    as Hl.
  { apply (run_eta load_old_params).
    apply (call_after load_old_params CallLoadOld [Training [module1] ∅] pair
             (λ _, eq_refl)); observe. }
  destruct (restore_keeps_running_statistics_and_masks load_old_params
              _ _ _ _ (or_introl eq_refl) Hl) as [_ Hk].
  split_and!;
    [exact Hl
    |apply (Hk 0%nat "bn.running_mean"); left; observe
    |apply (Hk 0%nat "attn.mask"); right; observe
    |observe|observe|observe].
Defined.

(** *** C5 *)

Lemma zero_grad_gate_witness :
  (1 ≤ update_interval macro.1) ∧
  batch_counter macro.1 `mod` update_interval macro.1 = 0 ∧
  for_each (window (Z.to_nat (update_interval macro.1))) exec
      (macro.1, macro.2)
    = Ok (tt, ((after (window 2) macro).1, (after (window 2) macro).2)) ∧
  clears (log (after (window 2) macro).2)
    = (clears (log macro.2)
       + match base_optimizer macro.1 with Some _ => 1 | None => 0 end)%nat ∧
  clears (log (after (window 2) macro).2) = 1%nat ∧
  grads (after [CallZeroGrad] macro).2 !! 0%nat = None.
Proof.
  assert (1 ≤ update_interval macro.1) as Hu by observe.
  assert (batch_counter macro.1 `mod` update_interval macro.1 = 0) as Hm
    by observe.
  assert (update_interval macro.1 = 2) as Hu2 by observe.
  assert (for_each (window (Z.to_nat (update_interval macro.1))) exec
            (macro.1, macro.2)
          = Ok (tt, ((after (window 2) macro).1, (after (window 2) macro).2)))
    as Hr.
  { rewrite Hu2. apply (run_eta (for_each _ exec)), after_ok. observe. }
  destruct (zero_grad_gate macro.1 macro.2 Hu) as [_ Hw].
  split_and!; [exact Hu|exact Hm|exact Hr|exact (Hw Hm _ _ Hr)|observe|observe].
Defined.

Lemma zero_grad_in_a_row_counterexample :
  update_interval macro.1 = 2 ∧ batch_counter macro.1 = 0 ∧
  for_each [CallZeroGrad; CallZeroGrad] exec macro
    = Ok (tt, after [CallZeroGrad; CallZeroGrad] macro) ∧
  clears (log (after [CallZeroGrad; CallZeroGrad] macro).2)
    = (clears (log macro.2) + 2)%nat ∧
  batch_counter (after [CallStep] macro).1 = 1 ∧
  for_each [CallZeroGrad; CallZeroGrad] exec (after [CallStep] macro)
    = Ok (tt, after [CallZeroGrad; CallZeroGrad] (after [CallStep] macro)) ∧
  clears (log (after [CallZeroGrad; CallZeroGrad] (after [CallStep] macro)).2)
    = clears (log (after [CallStep] macro).2).
Proof.
  split_and!;
    [observe|observe|apply after_ok; observe|observe|observe
    |apply after_ok; observe|observe].
Qed.

(** *** C6 *)

(** Under mixed precision with a loss scale of 2 and an update interval of
    2: the gradient [4; 8] is divided by the loss scale, then by the update
    interval, and the wrapped optimizer is given [1; 2]. *)
Lemma step_averages_first_group_witness :
  (1 ≤ update_interval (after [CallStep] scaled).1) ∧
  batch_counter (after [CallStep] scaled).1
    `mod` update_interval (after [CallStep] scaled).1
    = update_interval (after [CallStep] scaled).1 - 1 ∧
  base_optimizer (after [CallStep] scaled).1 = Some (BaseOpt [[0%nat]] (false, 0%nat)) ∧
  step ((after [CallStep] scaled).1, (after [CallStep] scaled).2)
    = Ok (None, ((after [CallStep; CallStep] scaled).1,
                 (after [CallStep; CallStep] scaled).2)) ∧
  model_parameters (after [CallStep] scaled).1 = Some [0%nat] ∧
  (∃ g_avg,
     g_avg !! 0%nat
       = (λ d, div_int d (update_interval (after [CallStep] scaled).1))
           <$> unscaled (after [CallStep] scaled).1
                 (grads (after [CallStep] scaled).2) !! 0%nat ∧
     clipped (after [CallStep] scaled).1 [0%nat] g_avg
       = Ok (grads (after [CallStep; CallStep] scaled).2)) ∧
  updates (log (after [CallStep; CallStep] scaled).2)
    = (updates (log (after [CallStep] scaled).2) + 1)%nat ∧
  update_interval (after [CallStep] scaled).1 = 2 ∧
  grads (after [CallStep] scaled).2 !! 0%nat = Some [4; 8] ∧
  unscaled (after [CallStep] scaled).1 (grads (after [CallStep] scaled).2)
    !! 0%nat = Some [2; 4] ∧
  grads (after [CallStep; CallStep] scaled).2 !! 0%nat = Some [1; 2].
Proof.
  assert (1 ≤ update_interval (after [CallStep] scaled).1) as Hu by observe.
  assert (batch_counter (after [CallStep] scaled).1
            `mod` update_interval (after [CallStep] scaled).1
          = update_interval (after [CallStep] scaled).1 - 1) as Hm by observe.
  assert (base_optimizer (after [CallStep] scaled).1
          = Some (BaseOpt [[0%nat]] (false, 0%nat))) as Hb
    by (apply base_is_eq; observe).
  assert (step ((after [CallStep] scaled).1, (after [CallStep] scaled).2)
          = Ok (None, ((after [CallStep; CallStep] scaled).1,
                       (after [CallStep; CallStep] scaled).2))) as Hs
    by (apply (run_eta step), (step_after [CallStep]); observe).
  assert (model_parameters (after [CallStep] scaled).1 = Some [0%nat]) as Hmp
    by observe.
  destruct (step_averages_first_group _ _ _ _ _ _ Hu Hm Hb Hs)
    as (g_pre & group0 & g_avg & st & ms & Hpre & Hg0 & Hin & _ & Hg & _ & _
          & Hup).
  injection Hg0 as <-.
  rewrite Hmp in Hpre. destruct Hpre as (g_hook & Hh & ->).
  apply ok_inv in Hh. subst g_hook.
  split_and!; [exact Hu|exact Hm|exact Hb|exact Hs|exact Hmp| |exact Hup
              |observe|observe|observe|observe].
  exists g_avg. split; [|exact Hg].
  apply Hin; [apply NoDup_singleton|apply list_elem_of_singleton; reflexivity].
Defined.

Lemma step_second_group_counterexample :
  getattr_param_groups (after [CallStep] groups).1 = [[0%nat]; [1%nat]] ∧
  update_interval (after [CallStep] groups).1 = 2 ∧
  batch_counter (after [CallStep] groups).1 = 1 ∧
  grads (after [CallStep] groups).2 !! 1%nat = Some [6; 10] ∧
  step (after [CallStep] groups) = Ok (None, after [CallStep; CallStep] groups) ∧
  updates (log (after [CallStep; CallStep] groups).2) = 1%nat ∧
  grads (after [CallStep; CallStep] groups).2 !! 0%nat = Some [2; 4] ∧
  grads (after [CallStep; CallStep] groups).2 !! 1%nat = Some [6; 10] ∧
  grads (after [CallStep; CallStep] groups).2 !! 1%nat
    ≠ Some (div_int [6; 10] 2) ∧
  t_data <$> (modules (after [CallStep; CallStep] groups).2 !! 0%nat
                ≫= (.!! "weight"))
    = Some [10 - (2 + 6); 20 - (2 + 6)].
Proof.
  split_and!;
    [observe|observe|observe|observe|apply (step_after [CallStep]); observe
    |observe|observe|observe|observe|observe].
Qed.

(** *** C7 *)

Lemma load_params_noop_single_version_witness :
  num_versions single.1 = 1 ∧
  load_old_params (single.1, single.2) = Ok (tt, (single.1, single.2)) ∧
  load_new_params (single.1, single.2) = Ok (tt, (single.1, single.2)).
Proof.
  assert (num_versions single.1 = 1) as Hn by observe.
  split; [exact Hn|].
  exact (load_params_noop_single_version single.1 single.2 Hn).
Defined.

(** *** C8 *)


(** *** C10 *)

Lemma restore_rebinds_snapshot_witness :
  load_params 0 ((after [Training [module1] ∅] pair).1,
                 (after [Training [module1] ∅] pair).2)
    = Ok (tt, ((after [Training [module1] ∅; CallLoadOld] pair).1,
               (after [Training [module1] ∅; CallLoadOld] pair).2)) ∧
  (1 < num_versions (after [Training [module1] ∅] pair).1) ∧
  save_dir (after [Training [module1] ∅] pair).1 = None ∧
  py_index (items (queue (after [Training [module1] ∅] pair).1)) 0
    = Ok (InMemory [0%nat] Version_new) ∧
  queue (after [Training [module1] ∅; CallLoadOld] pair).1
    = queue (after [Training [module1] ∅] pair).1 ∧
  (∃ sd' t,
     heap (after [Training [module1] ∅; CallLoadOld] pair).2 !! 0%nat
       = Some sd' ∧
     default ∅ (modules (after [Training [module1] ∅] pair).2 !! 0%nat)
       !! "bn.running_mean" = Some t ∧
     sd' !! "bn.running_mean"
       = Some (if stash_to_cpu (after [Training [module1] ∅] pair).1
               then cuda t else t)) ∧
  t_data <$> (heap (after [Training [module1] ∅] pair).2 !! 0%nat
                ≫= (.!! "bn.running_mean")) = Some [5] ∧
  t_data <$> (modules (after [Training [module1] ∅] pair).2 !! 0%nat
                ≫= (.!! "bn.running_mean")) = Some [7] ∧
  t_data <$> (heap (after [Training [module1] ∅; CallLoadOld] pair).2 !! 0%nat
                ≫= (.!! "bn.running_mean")) = Some [7].
Proof.
  assert (load_params 0 ((after [Training [module1] ∅] pair).1,
                         (after [Training [module1] ∅] pair).2)
          = Ok (tt, ((after [Training [module1] ∅; CallLoadOld] pair).1,
                     (after [Training [module1] ∅; CallLoadOld] pair).2)))
    as Hl.
  { apply (run_eta (load_params 0)).
    apply (call_after (load_params 0) CallLoadOld [Training [module1] ∅] pair
             (λ _, eq_refl)); observe. }
  assert (1 < num_versions (after [Training [module1] ∅] pair).1) as Hn
    by observe.
  assert (save_dir (after [Training [module1] ∅] pair).1 = None) as Hd
    by observe.
  assert (py_index (items (queue (after [Training [module1] ∅] pair).1)) 0
          = Ok (InMemory [0%nat] Version_new)) as Hq by observe.
  destruct (restore_rebinds_snapshot
              (after [Training [module1] ∅] pair).1
              (after [Training [module1] ∅] pair).2
              (after [Training [module1] ∅; CallLoadOld] pair).1
              (after [Training [module1] ∅; CallLoadOld] pair).2)
    as (_ & Hmem & _).
  destruct (Hmem 0 [0%nat] Version_new Hl Hn Hd Hq (NoDup_singleton 0%nat))
    as [Hqueue Hreb].
  split_and!; [exact Hl|exact Hn|exact Hd|exact Hq|exact Hqueue| 
              |observe|observe|observe].
  apply (Hreb 0%nat 0%nat
           (default ∅ (modules (after [Training [module1] ∅] pair).2 !! 0%nat))
           (default ∅ (heap (after [Training [module1] ∅] pair).2 !! 0%nat))
           "bn.running_mean").
  - reflexivity.
  - apply lookup_default. observe.
  - apply lookup_default. observe.
  - left. observe.
  - apply is_Some_observed. observe.
Defined.

Lemma restore_on_disk_counterexample :
  save_dir (after [Training [module1] ∅] disk).1 = Some "stash" ∧
  1 < num_versions (after [Training [module1] ∅] disk).1 ∧
  load_old_params (after [Training [module1] ∅] disk)
    = Ok (tt, after [Training [module1] ∅; CallLoadOld] disk) ∧
  t_data <$> (modules (after [Training [module1] ∅; CallLoadOld] disk).2
                !! 0%nat ≫= (.!! "bn.running_mean")) = Some [7] ∧
  items (queue (after [Training [module1] ∅; CallLoadOld] disk).1) !! 0%nat
    = Some (OnDisk 0) ∧
  t_data <$> (stored (after [Training [module1] ∅; CallLoadOld] disk).2 0 0
                ≫= (.!! "bn.running_mean"))
    = Some [5] ∧
  files (after [Training [module1] ∅; CallLoadOld] disk).2
    = files (after [Training [module1] ∅] disk).2 ∧
  queue (after [Training [module1] ∅; CallLoadOld] disk).1
    = queue (after [Training [module1] ∅] disk).1.
Proof.
  assert (load_old_params (after [Training [module1] ∅] disk)
          = Ok (tt, after [Training [module1] ∅; CallLoadOld] disk)) as Hl.
  { apply (call_after load_old_params CallLoadOld [Training [module1] ∅] disk
             (λ _, eq_refl)); observe. }
  pose proof (run_eta _ _ _ _ Hl) as Hl'. rewrite load_old_params_eq in Hl'.
  apply load_params_frame in Hl' as (_ & _ & _ & Hq & _ & _ & Hf & _).
  split_and!; [observe|observe|exact Hl|observe|observe|observe
              |exact Hf|exact Hq].
Qed.

(** ** Further properties *)

Example init_pair :
  init "SGD" (ParamList [0%nat]) None 1 2 0 false None None false tt world0
    = Ok pair.
Proof. apply init_start. observe. Qed.

(** *** X1 *)

(** Five versions are asked for under macrobatching: two are kept, and a
    real update is made every second call. *)
Lemma init_configuration_witness :
  init "SGD" (ParamList [0%nat]) None 1 5 0 true None None false tt world0
    = Ok ((start (ParamList [0%nat]) 5 true None).1,
          (start (ParamList [0%nat]) 5 true None).2) ∧
  num_versions (start (ParamList [0%nat]) 5 true None).1 = Z.min 2 5 ∧
  update_interval (start (ParamList [0%nat]) 5 true None).1
    = num_versions (start (ParamList [0%nat]) 5 true None).1 ∧
  1 ≤ update_interval (start (ParamList [0%nat]) 5 true None).1 ∧
  batch_counter (start (ParamList [0%nat]) 5 true None).1 = 0.
Proof.
  assert (init "SGD" (ParamList [0%nat]) None 1 5 0 true None None false tt
            world0
          = Ok ((start (ParamList [0%nat]) 5 true None).1,
                (start (ParamList [0%nat]) 5 true None).2)) as Hi
    by (apply ok_eta, init_start; observe).
  destruct (init_configuration _ _ _ _ _ _ _ _ _ _ _ _ _ _ Hi)
    as (Hn & Hu & _ & Hu1 & _ & _ & Hb & _).
  split_and!; [exact Hi|exact Hn|exact Hu|exact Hu1|exact Hb].
Defined.

(** *** X3 *)

(** Two versions in memory: each slot has its own new dictionary. *)
Lemma init_snapshots_witness :
  init "SGD" (ParamList [0%nat]) None 1 2 0 false None None false tt world0
    = Ok (pair.1, pair.2) ∧
  (∃ slots : list (list ref),
     items (queue pair.1) = (λ sds, InMemory sds Version_new) <$> slots ∧
     length slots = Z.to_nat (num_versions pair.1) ∧
     head slots = Some (buffered_state_dicts pair.1) ∧
     NoDup (concat slots)) ∧
  items (queue pair.1)
    = [InMemory [0%nat] Version_new; InMemory [1%nat] Version_new].
Proof.
  assert (init "SGD" (ParamList [0%nat]) None 1 2 0 false None None false tt
            world0 = Ok (pair.1, pair.2)) as Hi
    by (apply ok_eta, init_pair).
  destruct (init_snapshots _ _ _ _ _ _ _ _ _ _ _ _ _ _ Hi)
    as (_ & _ & slots & Hit & Hlen & Hhd & Hnd & _).
  split; [exact Hi|]. split; [|observe].
  exists slots. split_and!; [exact Hit|exact Hlen|exact Hhd|exact Hnd].
Defined.

(** *** X4 *)

Lemma step_leaves_configuration_witness :
  step (single.1, single.2)
    = Ok (None, ((after [CallStep] single).1, (after [CallStep] single).2)) ∧
  current_version (after [CallStep] single).1 = current_version single.1 ∧
  batch_counter (after [CallStep] single).1 = batch_counter single.1 + 1 ∧
  num_versions single.1 ≤ 1 ∧
  queue (after [CallStep] single).1 = queue single.1 ∧
  heap (after [CallStep] single).2 = heap single.2.
Proof.
  assert (step (single.1, single.2)
          = Ok (None, ((after [CallStep] single).1,
                       (after [CallStep] single).2))) as Hs
    by (apply (run_eta step), step_first; observe).
  assert (num_versions single.1 ≤ 1) as Hn by observe.
  destruct (step_leaves_configuration _ _ _ _ _ Hs)
    as (_ & Hc & Hb & _ & _ & Hring).
  destruct (Hring Hn) as (Hq & _ & Hh & _).
  split_and!; [exact Hs|exact Hc|exact Hb|exact Hn|exact Hq|exact Hh].
Defined.

(** *** X5 *)

Lemma real_update_calls_in_order_witness :
  1 ≤ update_interval (after [CallStep] macro).1 ∧
  batch_counter (after [CallStep] macro).1
    `mod` update_interval (after [CallStep] macro).1
    = update_interval (after [CallStep] macro).1 - 1 ∧
  step ((after [CallStep] macro).1, (after [CallStep] macro).2)
    = Ok (None, ((after [CallStep; CallStep] macro).1,
                 (after [CallStep; CallStep] macro).2)) ∧
  log (after [CallStep; CallStep] macro).2
    = (log (after [CallStep] macro).2
       ++ update_events (after [CallStep] macro).1)%list ∧
  log (after [CallStep; CallStep] macro).2 = [EvStep].
Proof.
  assert (1 ≤ update_interval (after [CallStep] macro).1) as Hu by observe.
  assert (batch_counter (after [CallStep] macro).1
            `mod` update_interval (after [CallStep] macro).1
          = update_interval (after [CallStep] macro).1 - 1) as Hm by observe.
  assert (step ((after [CallStep] macro).1, (after [CallStep] macro).2)
          = Ok (None, ((after [CallStep; CallStep] macro).1,
                       (after [CallStep; CallStep] macro).2))) as Hs
    by (apply (run_eta step), (step_after [CallStep]); observe).
  destruct (real_update_calls_in_order _ _ _ _ _ Hu Hm Hs) as [Hl _].
  split_and!; [exact Hu|exact Hm|exact Hs|exact Hl|observe].
Defined.

(** *** X6 *)

Lemma step_recycles_oldest_snapshot_witness :
  ring_inv pair.1 pair.2 ∧ 1 < num_versions pair.1 ∧
  batch_counter pair.1 `mod` update_interval pair.1
    = update_interval pair.1 - 1 ∧
  step (pair.1, pair.2)
    = Ok (None, ((after [CallStep] pair).1, (after [CallStep] pair).2)) ∧
  (∃ sds v0 rest,
     items (queue pair.1) = InMemory sds v0 :: rest ∧
     items (queue (after [CallStep] pair).1)
       = (rest ++ [InMemory sds (incr (latest_version pair.1))])%list ∧
     buffered_state_dicts (after [CallStep] pair).1 = sds) ∧
  items (queue (after [CallStep] pair).1)
    = [InMemory [1%nat] (mkVersion 0); InMemory [0%nat] (mkVersion 1)].
Proof.
  assert (ring_inv pair.1 pair.2) as Hinv
    by (apply (init_inv _ _ _ _ _ _ _ _ _ _ _ _ _ _
                 (ok_eta _ _ init_pair))).
  assert (1 < num_versions pair.1) as Hn by observe.
  assert (batch_counter pair.1 `mod` update_interval pair.1
          = update_interval pair.1 - 1) as Hm by observe.
  assert (step (pair.1, pair.2)
          = Ok (None, ((after [CallStep] pair).1, (after [CallStep] pair).2)))
    as Hs by (apply (run_eta step), step_first; observe).
  assert (save_dir pair.1 = None) as Hd by observe.
  destruct (step_recycles_oldest_snapshot _ _ _ _ _ Hinv Hn Hm Hs)
    as (oldest & rest & Hit & Hrot).
  rewrite Hd in Hrot. destruct Hrot as (sds & v0 & -> & Hit' & Hb & _).
  split_and!; [exact Hinv|exact Hn|exact Hm|exact Hs| |observe].
  exists sds, v0, rest. split_and!; [exact Hit|exact Hit'|exact Hb].
Defined.

(** *** X7 *)


(** *** X8 *)

(** An algorithm that requires a closure: [step] calls its [step()]
    without one, and raises what that raises. *)
Lemma step_relays_exceptions_with_one_version_witness :
  init "LBFGS" (ParamList [0%nat]) None 1 1 0 false None None false tt world0
    = Ok (lbfgs.1, lbfgs.2) ∧
  for_each [CallZeroGrad] exec (lbfgs.1, lbfgs.2)
    = Ok (tt, ((after [CallZeroGrad] lbfgs).1,
               (after [CallZeroGrad] lbfgs).2)) ∧
  num_versions (after [CallZeroGrad] lbfgs).1 = 1 ∧
  model_parameters (after [CallZeroGrad] lbfgs).1 = None ∧
  update_interval (after [CallZeroGrad] lbfgs).1 = 1 ∧
  raises_TypeError (step ((after [CallZeroGrad] lbfgs).1,
                          (after [CallZeroGrad] lbfgs).2)) = true ∧
  ∃ group0,
    getattr_param_groups (after [CallZeroGrad] lbfgs).1 !! 0%nat
      = Some group0 ∧
    match clipped (after [CallZeroGrad] lbfgs).1 group0
            (average_grads 1 group0 (grads (after [CallZeroGrad] lbfgs).2))
    with
    | Raise e =>
        step ((after [CallZeroGrad] lbfgs).1, (after [CallZeroGrad] lbfgs).2)
          = Raise e
    | Ok g =>
        match base_optimizer (after [CallZeroGrad] lbfgs).1 with
        | Some b =>
            match optim_step (opt_state b) (param_groups b) g
                    (modules (after [CallZeroGrad] lbfgs).2) with
            | Raise e =>
                step ((after [CallZeroGrad] lbfgs).1,
                      (after [CallZeroGrad] lbfgs).2) = Raise e
            | Ok (_, _, loss) =>
                ∃ o' w',
                  step ((after [CallZeroGrad] lbfgs).1,
                        (after [CallZeroGrad] lbfgs).2)
                    = Ok (loss, (o', w'))
            end
        | None =>
            ∃ o' w',
              step ((after [CallZeroGrad] lbfgs).1,
                    (after [CallZeroGrad] lbfgs).2)
                = Ok (None, (o', w'))
        end
    end.
Proof.
  assert (init "LBFGS" (ParamList [0%nat]) None 1 1 0 false None None false
            tt world0 = Ok (lbfgs.1, lbfgs.2)) as Hi
    by (apply ok_eta; unfold lbfgs; apply ok_default; observe).
  assert (for_each [CallZeroGrad] exec (lbfgs.1, lbfgs.2)
          = Ok (tt, ((after [CallZeroGrad] lbfgs).1,
                     (after [CallZeroGrad] lbfgs).2))) as Hr
    by (apply (run_eta (for_each _ exec)), after_ok; observe).
  assert (num_versions (after [CallZeroGrad] lbfgs).1 = 1) as Hn by observe.
  assert (model_parameters (after [CallZeroGrad] lbfgs).1 = None) as Hmp
    by observe.
  destruct (step_relays_exceptions_with_one_version _ _ _ _ _ _ _ _ _ _ _ _
              _ _ _ _ _ Hi Hr Hn Hmp) as [Hu1 Hx].
  split_and!; [exact Hi|exact Hr|exact Hn|exact Hmp|exact Hu1|observe
              |exact Hx].
Defined.

(** *** X9 *)

(** Master parameter 2 has no gradient: dividing by the loss scale fails. *)
Lemma unscaling_needs_every_gradient_witness :
  1 ≤ update_interval mixed.1 ∧
  batch_counter mixed.1 `mod` update_interval mixed.1
    = update_interval mixed.1 - 1 ∧
  model_parameters mixed.1 = Some [0%nat] ∧
  scale_is_one (loss_scale mixed.1) = false ∧
  master_parameters mixed.1 = ParamList [0%nat; 2%nat] ∧
  model_grads_to_master_grads [0%nat] (master_parameters mixed.1)
    (grads mixed.2) = Ok (grads mixed.2) ∧
  grads mixed.2 !! 2%nat = None ∧
  step (mixed.1, mixed.2) = Raise AttributeError.
Proof.
  assert (1 ≤ update_interval mixed.1) as Hu by observe.
  assert (batch_counter mixed.1 `mod` update_interval mixed.1
          = update_interval mixed.1 - 1) as Hm by observe.
  assert (model_parameters mixed.1 = Some [0%nat]) as Hmp by observe.
  assert (scale_is_one (loss_scale mixed.1) = false) as Hsc by observe.
  assert (master_parameters mixed.1 = ParamList [0%nat; 2%nat]) as Hma by observe.
  assert (model_grads_to_master_grads [0%nat] (master_parameters mixed.1)
            (grads mixed.2) = Ok (grads mixed.2)) as Hh by reflexivity.
  assert (grads mixed.2 !! 2%nat = None) as Hg by observe.
  split_and!; [exact Hu|exact Hm|exact Hmp|exact Hsc|exact Hma|exact Hh
              |exact Hg|].
  apply (unscaling_needs_every_gradient mixed.1 mixed.2 [0%nat]
           (grads mixed.2) Hu Hm Hmp Hsc Hh).
  rewrite Hma. exists 2%nat. split; [|exact Hg].
  apply elem_of_cons. right. apply elem_of_cons. by left.
Defined.

(** *** X10 *)

Lemma counters_count_calls_witness :
  init "SGD" (ParamList [0%nat]) None 1 2 0 true None None false tt world0
    = Ok (macro.1, macro.2) ∧
  for_each [CallStep; CallZeroGrad; CallStep; CallStep] exec (macro.1, macro.2)
    = Ok (tt, ((after [CallStep; CallZeroGrad; CallStep; CallStep] macro).1,
               (after [CallStep; CallZeroGrad; CallStep; CallStep] macro).2)) ∧
  batch_counter (after [CallStep; CallZeroGrad; CallStep; CallStep] macro).1
    = Z.of_nat (count_steps [CallStep; CallZeroGrad; CallStep; CallStep]) ∧
  version (latest_version
             (after [CallStep; CallZeroGrad; CallStep; CallStep] macro).1)
    = batch_counter (after [CallStep; CallZeroGrad; CallStep; CallStep] macro).1
      `div` update_interval
              (after [CallStep; CallZeroGrad; CallStep; CallStep] macro).1 ∧
  batch_counter (after [CallStep; CallZeroGrad; CallStep; CallStep] macro).1
    = 3 ∧
  version (latest_version
             (after [CallStep; CallZeroGrad; CallStep; CallStep] macro).1)
    = 1 ∧
  updates (log (after [CallStep; CallZeroGrad; CallStep; CallStep] macro).2)
    = 1%nat.
Proof.
  assert (init "SGD" (ParamList [0%nat]) None 1 2 0 true None None false tt
            world0 = Ok (macro.1, macro.2)) as Hi
    by (apply ok_eta, init_macro).
  assert (for_each [CallStep; CallZeroGrad; CallStep; CallStep] exec
            (macro.1, macro.2)
          = Ok (tt,
                ((after [CallStep; CallZeroGrad; CallStep; CallStep] macro).1,
                 (after [CallStep; CallZeroGrad; CallStep; CallStep] macro).2)))
    as Hr by (apply (run_eta (for_each _ exec)), after_ok; observe).
  destruct (counters_count_calls _ _ _ _ _ _ _ _ _ _ _ _ _ _ _ _ _ Hi Hr)
    as (Hb & Hv & _).
  split_and!; [exact Hi|exact Hr|exact Hb|exact Hv|observe|observe|observe].
Defined.

(** *** X11 *)

(** Both groups are cleared, the second as well as the first. *)
Lemma zero_grad_clears_every_group_witness :
  1 ≤ update_interval groups.1 ∧
  batch_counter groups.1 `mod` update_interval groups.1 = 0 ∧
  base_optimizer groups.1 = Some (BaseOpt [[0%nat]; [1%nat]] (false, 0%nat)) ∧
  NoDup (concat (param_groups (BaseOpt [[0%nat]; [1%nat]] (false, 0%nat)))) ∧
  (∃ w', zero_grad (groups.1, groups.2) = Ok (tt, (groups.1, w')) ∧
     ∀ p, grads w' !! p =
       if decide (p ∈ concat (param_groups (BaseOpt [[0%nat]; [1%nat]] (false, 0%nat))))
       then grads groups.2 !! p ≫= clear_grad else grads groups.2 !! p) ∧
  grads (after [CallZeroGrad] groups).2 !! 0%nat = None ∧
  grads (after [CallZeroGrad] groups).2 !! 1%nat = None.
Proof.
  assert (1 ≤ update_interval groups.1) as Hu by observe.
  assert (batch_counter groups.1 `mod` update_interval groups.1 = 0) as Hm
    by observe.
  assert (base_optimizer groups.1 = Some (BaseOpt [[0%nat]; [1%nat]] (false, 0%nat)))
    as Hb by (apply base_is_eq; observe).
  assert (NoDup (concat (param_groups (BaseOpt [[0%nat]; [1%nat]] (false, 0%nat)))))
    as Hnd.
  { simpl. apply NoDup_cons. split; [|apply NoDup_singleton].
    intros Hin%list_elem_of_singleton. discriminate. }
  split_and!; [exact Hu|exact Hm|exact Hb|exact Hnd| |observe|observe].
  exact (zero_grad_clears_every_group groups.1 groups.2 _ Hu Hm Hb Hnd).
Defined.

(** *** X13 *)

Lemma get_params_refreshes_buffer_witness :
  get_params false ((after [Training [module2] ∅] pair).1,
                    (after [Training [module2] ∅] pair).2)
    = Ok (((value_after ([], Version_new) (get_params false)
              ((after [Training [module2] ∅] pair).1,
               (after [Training [module2] ∅] pair).2)).1,
           (value_after ([], Version_new) (get_params false)
              ((after [Training [module2] ∅] pair).1,
               (after [Training [module2] ∅] pair).2)).2),
          ((state_after (get_params false)
              ((after [Training [module2] ∅] pair).1,
               (after [Training [module2] ∅] pair).2)).1,
           (state_after (get_params false)
              ((after [Training [module2] ∅] pair).1,
               (after [Training [module2] ∅] pair).2)).2)) ∧
  (value_after ([], Version_new) (get_params false)
     ((after [Training [module2] ∅] pair).1,
      (after [Training [module2] ∅] pair).2)).1
    = buffered_state_dicts (after [Training [module2] ∅] pair).1 ∧
  length (heap (state_after (get_params false)
                  ((after [Training [module2] ∅] pair).1,
                   (after [Training [module2] ∅] pair).2)).2)
    = length (heap (after [Training [module2] ∅] pair).2) ∧
  buffered_state_dicts (after [Training [module2] ∅] pair).1 = [0%nat] ∧
  t_data <$> (heap (state_after (get_params false)
                      ((after [Training [module2] ∅] pair).1,
                       (after [Training [module2] ∅] pair).2)).2 !! 0%nat
                ≫= (.!! "weight")) = Some [11; 22] ∧
  t_data <$> (heap (state_after (get_params false)
                      ((after [Training [module2] ∅] pair).1,
                       (after [Training [module2] ∅] pair).2)).2 !! 0%nat
                ≫= (.!! "bn.running_mean")) = Some [5].
Proof.
  pose proof (op_after_pair ([], Version_new) (get_params false)
                (after [Training [module2] ∅] pair).1
                (after [Training [module2] ∅] pair).2 ltac:(observe)) as Hg.
  destruct (get_params_refreshes_buffer _ _ _ _ _ _ Hg)
    as (Hs & _ & _ & _ & _ & _ & _ & Hlen & _).
  split_and!; [exact Hg|exact Hs|exact Hlen|observe|observe|observe].
Defined.

(** *** X15 *)

(** A push on the full ring of two slots drops the oldest slot. *)
Lemma append_to_queue_bounded_witness :
  append_to_queue ([0%nat], mkVersion 7) (pair.1, pair.2)
    = Ok (tt,
          ((state_after (append_to_queue ([0%nat], mkVersion 7))
              (pair.1, pair.2)).1,
           (state_after (append_to_queue ([0%nat], mkVersion 7))
              (pair.1, pair.2)).2)) ∧
  (length (items (queue pair.1)) ≤ maxlen (queue pair.1))%nat ∧
  (0 < maxlen (queue pair.1))%nat ∧
  length (items (queue (state_after (append_to_queue ([0%nat], mkVersion 7))
                          (pair.1, pair.2)).1))
    = Nat.min (maxlen (queue pair.1)) (S (length (items (queue pair.1)))) ∧
  items (queue (state_after (append_to_queue ([0%nat], mkVersion 7))
                  (pair.1, pair.2)).1)
    = [InMemory [1%nat] Version_new; InMemory [0%nat] (mkVersion 7)].
Proof.
  pose proof (op_after_unit (append_to_queue ([0%nat], mkVersion 7))
                pair.1 pair.2 ltac:(observe)) as Ha.
  assert (length (items (queue pair.1)) ≤ maxlen (queue pair.1))%nat as Hl
    by observe.
  assert (0 < maxlen (queue pair.1))%nat as Hm by observe.
  destruct (append_to_queue_bounded _ _ _ _ _ _ Ha Hl Hm) as (_ & Hlen & _).
  split_and!; [exact Ha|exact Hl|exact Hm|exact Hlen|observe].
Defined.

(** *** X16 *)

(** The newest slot is replaced through the index -1. *)
Lemma insert_to_queue_replaces_witness :
  insert_to_queue ([0%nat], mkVersion 7) (-1) (pair.1, pair.2)
    = Ok (tt,
          ((state_after (insert_to_queue ([0%nat], mkVersion 7) (-1))
              (pair.1, pair.2)).1,
           (state_after (insert_to_queue ([0%nat], mkVersion 7) (-1))
              (pair.1, pair.2)).2)) ∧
  - Z.of_nat (length (items (queue pair.1))) ≤ -1
    < Z.of_nat (length (items (queue pair.1))) ∧
  length (items (queue (state_after
                          (insert_to_queue ([0%nat], mkVersion 7) (-1))
                          (pair.1, pair.2)).1))
    = length (items (queue pair.1)) ∧
  items (queue (state_after (insert_to_queue ([0%nat], mkVersion 7) (-1))
                  (pair.1, pair.2)).1)
    = [InMemory [0%nat] Version_new; InMemory [0%nat] (mkVersion 7)].
Proof.
  pose proof (op_after_unit (insert_to_queue ([0%nat], mkVersion 7) (-1))
                pair.1 pair.2 ltac:(observe)) as Ha.
  destruct (insert_to_queue_replaces _ _ _ _ _ _ _ Ha)
    as (Hr & _ & _ & Hlen & _).
  split_and!; [exact Ha|exact (proj1 Hr)|exact (proj2 Hr)|exact Hlen|observe].
Defined.

(** *** X17 *)

(** After one real update with three versions, the newest snapshot is
    version 1 and the oldest is still version 0. *)
Lemma restore_sets_current_version_witness :
  ring_inv (after [CallStep] triple).1 (after [CallStep] triple).2 ∧
  1 < num_versions (after [CallStep] triple).1 ∧
  load_new_params ((after [CallStep] triple).1, (after [CallStep] triple).2)
    = Ok (tt, ((after [CallStep; CallLoadNew] triple).1,
               (after [CallStep; CallLoadNew] triple).2)) ∧
  current_version (after [CallStep; CallLoadNew] triple).1
    = latest_version (after [CallStep] triple).1 ∧
  load_old_params ((after [CallStep] triple).1, (after [CallStep] triple).2)
    = Ok (tt, ((after [CallStep; CallLoadOld] triple).1,
               (after [CallStep; CallLoadOld] triple).2)) ∧
  version (current_version (after [CallStep; CallLoadOld] triple).1)
    = Z.max 0 (version (latest_version (after [CallStep] triple).1)
               - (num_versions (after [CallStep] triple).1 - 1)) ∧
  version (current_version (after [CallStep; CallLoadNew] triple).1) = 1 ∧
  version (current_version (after [CallStep; CallLoadOld] triple).1) = 0.
Proof.
  assert (for_each [CallStep] exec (triple.1, triple.2)
          = Ok (tt, ((after [CallStep] triple).1,
                     (after [CallStep] triple).2))) as Hr
    by (apply (run_eta (for_each _ exec)), after_ok; observe).
  assert (ring_inv (after [CallStep] triple).1 (after [CallStep] triple).2)
    as Hinv.
  { apply (calls_ok _ _ _ _ _ Hr).
    apply (init_inv _ _ _ _ _ _ _ _ _ _ _ _ _ _ (ok_eta _ _ init_triple)). }
  assert (1 < num_versions (after [CallStep] triple).1) as Hn by observe.
  assert (load_new_params ((after [CallStep] triple).1,
                           (after [CallStep] triple).2)
          = Ok (tt, ((after [CallStep; CallLoadNew] triple).1,
                     (after [CallStep; CallLoadNew] triple).2))) as Hnew.
  { apply (run_eta load_new_params).
    apply (call_after load_new_params CallLoadNew [CallStep] triple
             (λ _, eq_refl)); observe. }
  assert (load_old_params ((after [CallStep] triple).1,
                           (after [CallStep] triple).2)
          = Ok (tt, ((after [CallStep; CallLoadOld] triple).1,
                     (after [CallStep; CallLoadOld] triple).2))) as Hold.
  { apply (run_eta load_old_params).
    apply (call_after load_old_params CallLoadOld [CallStep] triple
             (λ _, eq_refl)); observe. }
  split_and!; [exact Hinv|exact Hn|exact Hnew| |exact Hold| |observe|observe].
  - exact (proj1 (restore_sets_current_version _ _ _ _ Hinv Hn) Hnew).
  - exact (proj2 (restore_sets_current_version _ _ _ _ Hinv Hn) Hold).
Defined.

(** *** X18 *)

Lemma restore_frame_witness :
  load_old_params ((after [Training [module1] ∅] pair).1,
                   (after [Training [module1] ∅] pair).2)
    = Ok (tt, ((after [Training [module1] ∅; CallLoadOld] pair).1,
               (after [Training [module1] ∅; CallLoadOld] pair).2)) ∧
  queue (after [Training [module1] ∅; CallLoadOld] pair).1
    = queue (after [Training [module1] ∅] pair).1 ∧
  grads (after [Training [module1] ∅; CallLoadOld] pair).2
    = grads (after [Training [module1] ∅] pair).2 ∧
  log (after [Training [module1] ∅; CallLoadOld] pair).2
    = log (after [Training [module1] ∅] pair).2 ∧
  batch_counter (after [Training [module1] ∅; CallLoadOld] pair).1
    = batch_counter (after [Training [module1] ∅] pair).1.
Proof.
  assert (load_old_params ((after [Training [module1] ∅] pair).1,
                           (after [Training [module1] ∅] pair).2)
          = Ok (tt, ((after [Training [module1] ∅; CallLoadOld] pair).1,
                     (after [Training [module1] ∅; CallLoadOld] pair).2)))
    as Hl.
  { apply (run_eta load_old_params).
    apply (call_after load_old_params CallLoadOld [Training [module1] ∅] pair
             (λ _, eq_refl)); observe. }
  destruct (restore_frame load_old_params _ _ _ _ (or_introl eq_refl) Hl)
    as (_ & _ & _ & Hq & Hb & Hg & _ & Hlg & _).
  split_and!; [exact Hl|exact Hq|exact Hg|exact Hlg|exact Hb].
Defined.

(** *** X19 *)

(** The weight has moved to [11; 22]; restoring the oldest snapshot puts
    [10; 20] back. *)
Lemma restore_loads_ordinary_fields_witness :
  set_params [0%nat] Version_new
      ((after [Training [module2] ∅] pair).1,
       (after [Training [module2] ∅] pair).2)
    = Ok (tt,
          ((state_after (set_params [0%nat] Version_new)
              ((after [Training [module2] ∅] pair).1,
               (after [Training [module2] ∅] pair).2)).1,
           (state_after (set_params [0%nat] Version_new)
              ((after [Training [module2] ∅] pair).1,
               (after [Training [module2] ∅] pair).2)).2)) ∧
  str_in "running_" "weight" = false ∧ str_in "mask" "weight" = false ∧
  (∃ input,
     default ∅ (heap (after [Training [module2] ∅] pair).2 !! 0%nat)
       !! "weight" = Some input ∧
     modules (state_after (set_params [0%nat] Version_new)
                ((after [Training [module2] ∅] pair).1,
                 (after [Training [module2] ∅] pair).2)).2 !! 0%nat
       ≫= (.!! "weight")
     = Some (Tensor
               (t_device
                  (default (t [])
                     (default ∅
                        (modules (after [Training [module2] ∅] pair).2
                           !! 0%nat) !! "weight")))
               (t_data input))) ∧
  t_data <$> (modules (after [Training [module2] ∅] pair).2 !! 0%nat
                ≫= (.!! "weight")) = Some [11; 22] ∧
  t_data <$> (modules (state_after (set_params [0%nat] Version_new)
                         ((after [Training [module2] ∅] pair).1,
                          (after [Training [module2] ∅] pair).2)).2 !! 0%nat
                ≫= (.!! "weight")) = Some [10; 20].
Proof.
  pose proof (op_after_unit (set_params [0%nat] Version_new)
                (after [Training [module2] ∅] pair).1
                (after [Training [module2] ∅] pair).2 ltac:(observe)) as Hs.
  assert (str_in "running_" "weight" = false) as Hrun by observe.
  assert (str_in "mask" "weight" = false) as Hmask by observe.
  destruct (restore_loads_ordinary_fields _ _ _ _ _ _ Hs 0%nat 0%nat
              (default ∅ (modules (after [Training [module2] ∅] pair).2
                            !! 0%nat))
              (default ∅ (heap (after [Training [module2] ∅] pair).2
                            !! 0%nat))
              "weight"
              (default (t [])
                 (default ∅ (modules (after [Training [module2] ∅] pair).2
                               !! 0%nat) !! "weight")))
    as (input & Hin & _ & Hres).
  - reflexivity.
  - apply lookup_default. observe.
  - apply lookup_default. observe.
  - exact Hrun.
  - exact Hmask.
  - apply option_default_eq. observe.
  - split_and!; [exact Hs|exact Hrun|exact Hmask| |observe|observe].
    exists input. split; [exact Hin|exact Hres].
Defined.

(** *** X21 *)

(** The weight was [10; 20] at construction and is [11; 22] now;
    [load_old_params] puts [10; 20] back. *)
Lemma load_old_params_restores_initial_weights_witness :
  init "SGD" (ParamList [0%nat]) None 1 2 0 false None None false tt world0
    = Ok (pair.1, pair.2) ∧
  1 < num_versions pair.1 ∧
  load_old_params (pair.1, with_grads ∅ (with_modules [module2] pair.2))
    = Ok (tt,
          ((state_after load_old_params
              (pair.1, with_grads ∅ (with_modules [module2] pair.2))).1,
           (state_after load_old_params
              (pair.1, with_grads ∅ (with_modules [module2] pair.2))).2)) ∧
  modules (state_after load_old_params
             (pair.1, with_grads ∅ (with_modules [module2] pair.2))).2
    !! 0%nat ≫= (.!! "weight")
    = Some (Tensor
              (t_device (default (t []) (module2 !! "weight")))
              (t_data (default (t []) (module0 !! "weight")))) ∧
  t_data (default (t []) (module0 !! "weight")) = [10; 20] ∧
  t_data (default (t []) (module2 !! "weight")) = [11; 22].
Proof.
  assert (init "SGD" (ParamList [0%nat]) None 1 2 0 false None None false tt
            world0 = Ok (pair.1, pair.2)) as Hi
    by (apply ok_eta, init_pair).
  assert (1 < num_versions pair.1) as Hn by observe.
  pose proof (op_after_unit load_old_params pair.1
                (with_grads ∅ (with_modules [module2] pair.2))
                ltac:(observe)) as Hl.
  split_and!; [exact Hi|exact Hn|exact Hl| |observe|observe].
  apply (load_old_params_restores_initial_weights
           _ _ _ _ _ _ _ _ _ _ _ _ _ _ _ _ _ Hi Hn Hl 0%nat module0 module2
           "weight").
  - reflexivity.
  - reflexivity.
  - observe.
  - observe.
  - apply option_default_eq. observe.
  - apply option_default_eq. observe.
Defined.

(** *** X22 *)

(** The weight [11; 22] is stashed by the update and comes back unchanged
    from [load_new_params]. *)
Lemma load_new_params_after_update_is_identity_witness :
  ring_inv (after [Training [module2] ∅] pair).1
           (after [Training [module2] ∅] pair).2 ∧
  1 < num_versions (after [Training [module2] ∅] pair).1 ∧
  save_dir (after [Training [module2] ∅] pair).1 = None ∧
  batch_counter (after [Training [module2] ∅] pair).1
    `mod` update_interval (after [Training [module2] ∅] pair).1
    = update_interval (after [Training [module2] ∅] pair).1 - 1 ∧
  step ((after [Training [module2] ∅] pair).1,
        (after [Training [module2] ∅] pair).2)
    = Ok (None, ((after [Training [module2] ∅; CallStep] pair).1,
                 (after [Training [module2] ∅; CallStep] pair).2)) ∧
  load_new_params ((after [Training [module2] ∅; CallStep] pair).1,
                   (after [Training [module2] ∅; CallStep] pair).2)
    = Ok (tt,
          ((after [Training [module2] ∅; CallStep; CallLoadNew] pair).1,
           (after [Training [module2] ∅; CallStep; CallLoadNew] pair).2)) ∧
  items (queue (after [Training [module2] ∅] pair).1)
    = [InMemory [0%nat] Version_new; InMemory [1%nat] Version_new] ∧
  modules (after [Training [module2] ∅; CallStep; CallLoadNew] pair).2
    !! 0%nat ≫= (.!! "weight")
    = Some (default (t [])
              (default ∅
                 (modules (after [Training [module2] ∅; CallStep] pair).2
                    !! 0%nat) !! "weight")) ∧
  t_data <$> (modules
                (after [Training [module2] ∅; CallStep; CallLoadNew] pair).2
                !! 0%nat ≫= (.!! "weight")) = Some [11; 22].
Proof.
  assert (for_each [Training [module2] ∅] exec (pair.1, pair.2)
          = Ok (tt, ((after [Training [module2] ∅] pair).1,
                     (after [Training [module2] ∅] pair).2))) as Hr
    by (apply (run_eta (for_each _ exec)), after_ok; observe).
  assert (ring_inv (after [Training [module2] ∅] pair).1
                   (after [Training [module2] ∅] pair).2) as Hinv.
  { apply (calls_ok _ _ _ _ _ Hr).
    apply (init_inv _ _ _ _ _ _ _ _ _ _ _ _ _ _ (ok_eta _ _ init_pair)). }
  assert (1 < num_versions (after [Training [module2] ∅] pair).1) as Hn
    by observe.
  assert (save_dir (after [Training [module2] ∅] pair).1 = None) as Hd
    by observe.
  assert (batch_counter (after [Training [module2] ∅] pair).1
            `mod` update_interval (after [Training [module2] ∅] pair).1
          = update_interval (after [Training [module2] ∅] pair).1 - 1) as Hm
    by observe.
  assert (step ((after [Training [module2] ∅] pair).1,
                (after [Training [module2] ∅] pair).2)
          = Ok (None, ((after [Training [module2] ∅; CallStep] pair).1,
                       (after [Training [module2] ∅; CallStep] pair).2)))
    as Hs
    by (apply (run_eta step), (step_after [Training [module2] ∅]); observe).
  assert (load_new_params
            ((after [Training [module2] ∅; CallStep] pair).1,
             (after [Training [module2] ∅; CallStep] pair).2)
          = Ok (tt,
                ((after [Training [module2] ∅; CallStep; CallLoadNew] pair).1,
                 (after [Training [module2] ∅; CallStep; CallLoadNew] pair).2)))
    as Hl.
  { apply (run_eta load_new_params).
    apply (call_after load_new_params CallLoadNew
             [Training [module2] ∅; CallStep] pair (λ _, eq_refl)); observe. }
  assert (items (queue (after [Training [module2] ∅] pair).1)
          = [InMemory [0%nat] Version_new; InMemory [1%nat] Version_new])
    as Hit by observe.
  split_and!; [exact Hinv|exact Hn|exact Hd|exact Hm|exact Hs|exact Hl
              |exact Hit| |observe].
  apply (load_new_params_after_update_is_identity
           _ _ _ _ _ _ _ Hinv Hn Hd Hm Hs Hl
           [0%nat] Version_new [InMemory [1%nat] Version_new] Hit
           (NoDup_singleton 0%nat) 0%nat
           (default ∅ (modules (after [Training [module2] ∅; CallStep] pair).2
                         !! 0%nat))
           0%nat
           (default ∅ (heap (after [Training [module2] ∅] pair).2 !! 0%nat))
           "weight" _
           (default (t [])
              (default ∅ (heap (after [Training [module2] ∅] pair).2 !! 0%nat)
                 !! "weight"))).
  - apply lookup_default. observe.
  - reflexivity.
  - apply lookup_default. observe.
  - observe.
  - observe.
  - apply option_default_eq. observe.
  - apply option_default_eq. observe.
  - observe.
Defined.

(** *** X25 *)

Lemma round_robin_delivers_witness :
  (20 * length [1; 2; 3] + 8 * 3 ≤ 84)%nat ∧
  ∃ s : HandoffQueue.system nat,
    HandoffQueue.run (HandoffQueue.round_robin 84)
      (HandoffQueue.start [1; 2; 3]%nat 3) = Some s ∧
    HandoffQueue.stuck s ∧
    HandoffQueue.c_got s = take 3 [1; 2; 3]%nat.
Proof.
  assert (20 * length [1; 2; 3] + 8 * 3 ≤ 84)%nat as Hn by (simpl; lia).
  split; [exact Hn|].
  exact (HandoffQueueProofs.round_robin_delivers [1; 2; 3]%nat 3 84 Hn).
Defined.

(** *** X27 *)

(** Three payloads and four removals: the fourth removal stays parked. *)
Lemma remove_without_payload_blocks_forever_witness :
  (length [1; 2; 3] < 4)%nat ∧
  HandoffQueue.run (HandoffQueue.round_robin 92)
    (HandoffQueue.start [1; 2; 3]%nat 4)
    = Some (default (HandoffQueue.start [1; 2; 3]%nat 4)
              (HandoffQueue.run (HandoffQueue.round_robin 92)
                 (HandoffQueue.start [1; 2; 3]%nat 4))) ∧
  HandoffQueue.stuck
    (default (HandoffQueue.start [1; 2; 3]%nat 4)
       (HandoffQueue.run (HandoffQueue.round_robin 92)
          (HandoffQueue.start [1; 2; 3]%nat 4))) ∧
  HandoffQueue.c_pc
    (default (HandoffQueue.start [1; 2; 3]%nat 4)
       (HandoffQueue.run (HandoffQueue.round_robin 92)
          (HandoffQueue.start [1; 2; 3]%nat 4))) = HandoffQueue.C_parked ∧
  HandoffQueue.c_got
    (default (HandoffQueue.start [1; 2; 3]%nat 4)
       (HandoffQueue.run (HandoffQueue.round_robin 92)
          (HandoffQueue.start [1; 2; 3]%nat 4))) = [1; 2; 3]%nat.
Proof.
  assert (length [1; 2; 3] < 4)%nat as Hk by (simpl; lia).
  assert (HandoffQueue.run (HandoffQueue.round_robin 92)
            (HandoffQueue.start [1; 2; 3]%nat 4)
          = Some (default (HandoffQueue.start [1; 2; 3]%nat 4)
                    (HandoffQueue.run (HandoffQueue.round_robin 92)
                       (HandoffQueue.start [1; 2; 3]%nat 4)))) as Hr
    by (vm_compute; reflexivity).
  assert (HandoffQueue.stuck
            (default (HandoffQueue.start [1; 2; 3]%nat 4)
               (HandoffQueue.run (HandoffQueue.round_robin 92)
                  (HandoffQueue.start [1; 2; 3]%nat 4)))) as Hst
    by (intros []; vm_compute; reflexivity).
  destruct (HandoffQueueProofs.remove_without_payload_blocks_forever
              _ _ _ _ Hk Hr Hst) as (Hc & _ & Hg & _).
  split_and!; [exact Hk|exact Hr|exact Hst|exact Hc|exact Hg].
Defined.

End Runs.
